(** * Source switcher: state store, rotation scheduler and control API

    A shallow embedding of [src/switcher/types.ts], [state.ts], [pipeline.ts],
    [rotation.ts] and the state endpoints of [api.ts].

    The module-level variables of the program ([state], [currentTimer],
    [shouldStop], the listeners of [stateEvents]) and the outside world they
    act on (the state file, the runtime's timer table, the pipeline service)
    are gathered in one record, [World], that every function passes along.
    What the outside world answers (whether a write succeeds, how the pipeline
    service replies, what time it is) is read from an [Env].

    The functions are given twice.  First as the source reads from top to
    bottom, each call running to its end before anything else is served:
    [processRotation], and with it [stateChanged], [putState], ..., which
    take a notification or a request together with the re-evaluation it
    starts.  Then [processRotation] is cut at its [await]s, so that a request
    or a timer can be served while a call is suspended: [begin], [resume],
    [step]; there the listener [handleStateChange] and the handlers of the
    control API return when the call they started reaches its first [await].
    [finish_begin] and [saveStateNotifying_finish] relate the two. *)

From Stdlib Require Import ZArith List String Bool Arith Lia.
Import ListNotations.

Local Open Scope Z_scope.

(* ------------------------------------------------------------------ *)
(** * types.ts *)

Record Source := {
  id : Z;
  name : option string;
  source_type : string;
  enabled : option bool;
  is_healthy : option bool;
  uri : option string;
  file_path : option string
}.

Record RotationScheduleItem := {
  cameraId : Z;
  durationSeconds : Z
}.

Record SwitcherState := {
  rotationEnabled : bool;
  fixedSourceId : option Z;
  selectedCameraIds : list Z;
  rotationSchedule : list RotationScheduleItem;
  currentSourceId : option Z;
  lastSwitchTime : option string;
  currentScheduleIndex : option Z
}.

(** Assignments [state.f = v]. *)

Definition set_rotationEnabled (v : bool) (s : SwitcherState) : SwitcherState :=
  {| rotationEnabled := v;
     fixedSourceId := fixedSourceId s;
     selectedCameraIds := selectedCameraIds s;
     rotationSchedule := rotationSchedule s;
     currentSourceId := currentSourceId s;
     lastSwitchTime := lastSwitchTime s;
     currentScheduleIndex := currentScheduleIndex s |}.

Definition set_fixedSourceId (v : option Z) (s : SwitcherState) : SwitcherState :=
  {| rotationEnabled := rotationEnabled s;
     fixedSourceId := v;
     selectedCameraIds := selectedCameraIds s;
     rotationSchedule := rotationSchedule s;
     currentSourceId := currentSourceId s;
     lastSwitchTime := lastSwitchTime s;
     currentScheduleIndex := currentScheduleIndex s |}.

Definition set_selectedCameraIds (v : list Z) (s : SwitcherState) : SwitcherState :=
  {| rotationEnabled := rotationEnabled s;
     fixedSourceId := fixedSourceId s;
     selectedCameraIds := v;
     rotationSchedule := rotationSchedule s;
     currentSourceId := currentSourceId s;
     lastSwitchTime := lastSwitchTime s;
     currentScheduleIndex := currentScheduleIndex s |}.

Definition set_rotationSchedule (v : list RotationScheduleItem) (s : SwitcherState)
  : SwitcherState :=
  {| rotationEnabled := rotationEnabled s;
     fixedSourceId := fixedSourceId s;
     selectedCameraIds := selectedCameraIds s;
     rotationSchedule := v;
     currentSourceId := currentSourceId s;
     lastSwitchTime := lastSwitchTime s;
     currentScheduleIndex := currentScheduleIndex s |}.

Definition set_currentSourceId (v : option Z) (s : SwitcherState) : SwitcherState :=
  {| rotationEnabled := rotationEnabled s;
     fixedSourceId := fixedSourceId s;
     selectedCameraIds := selectedCameraIds s;
     rotationSchedule := rotationSchedule s;
     currentSourceId := v;
     lastSwitchTime := lastSwitchTime s;
     currentScheduleIndex := currentScheduleIndex s |}.

Definition set_lastSwitchTime (v : option string) (s : SwitcherState) : SwitcherState :=
  {| rotationEnabled := rotationEnabled s;
     fixedSourceId := fixedSourceId s;
     selectedCameraIds := selectedCameraIds s;
     rotationSchedule := rotationSchedule s;
     currentSourceId := currentSourceId s;
     lastSwitchTime := v;
     currentScheduleIndex := currentScheduleIndex s |}.

Definition set_currentScheduleIndex (v : option Z) (s : SwitcherState) : SwitcherState :=
  {| rotationEnabled := rotationEnabled s;
     fixedSourceId := fixedSourceId s;
     selectedCameraIds := selectedCameraIds s;
     rotationSchedule := rotationSchedule s;
     currentSourceId := currentSourceId s;
     lastSwitchTime := lastSwitchTime s;
     currentScheduleIndex := v |}.

(** [Partial<SwitcherState>]: every member may be [undefined] ([None]).  It is
    the type [api.ts] gives a request body and [state.ts] gives the parsed
    state file.  A member that is present can still be [null] where its type
    allows it, hence the nested options. *)

Module Partial.
Record t := {
  rotationEnabled : option bool;
  fixedSourceId : option (option Z);
  selectedCameraIds : option (list Z);
  rotationSchedule : option (list RotationScheduleItem);
  currentSourceId : option (option Z);
  lastSwitchTime : option (option string);
  currentScheduleIndex : option (option Z)
}.
End Partial.

(* ------------------------------------------------------------------ *)
(** * JSON values

    What [JSON.stringify] writes and [JSON.parse] reads back, as a value: the
    text in between is the runtime's business.  Numbers are the integers the
    program stores (ids, seconds, indices). *)

#[local] Set Warnings "-register-all".

Inductive json : Type :=
| JNull
| JBool (b : bool)
| JNum (n : Z)
| JStr (s : string)
| JArr (items : list json)
| JObj (members : list (string * json)).

(** Property read [o.k] on a parsed object: [None] is [undefined].  When a key
    occurs twice, [JSON.parse] keeps the last occurrence. *)
Fixpoint member (k : string) (members : list (string * json)) : option json :=
  match members with
  | [] => None
  | (k', v) :: rest =>
      match member k rest with
      | Some v' => Some v'
      | None => if String.eqb k k' then Some v else None
      end
  end.

Definition json_of_option {A} (f : A -> json) (o : option A) : json :=
  match o with
  | None => JNull
  | Some a => f a
  end.

Definition json_of_item (it : RotationScheduleItem) : json :=
  JObj [("cameraId"%string, JNum (cameraId it));
        ("durationSeconds"%string, JNum (durationSeconds it))].

(** [JSON.stringify(state, null, 2)]: the seven members in declaration order. *)
Definition stringify (s : SwitcherState) : json :=
  JObj [("rotationEnabled"%string, JBool (rotationEnabled s));
        ("fixedSourceId"%string, json_of_option JNum (fixedSourceId s));
        ("selectedCameraIds"%string, JArr (map JNum (selectedCameraIds s)));
        ("rotationSchedule"%string, JArr (map json_of_item (rotationSchedule s)));
        ("currentSourceId"%string, json_of_option JNum (currentSourceId s));
        ("lastSwitchTime"%string, json_of_option JStr (lastSwitchTime s));
        ("currentScheduleIndex"%string, json_of_option JNum (currentScheduleIndex s))].

(** Reading a member at its declared type.  The cast
    [JSON.parse(data) as Partial<SwitcherState>] checks nothing at run time; a
    member whose value does not have its declared type has no counterpart in
    the typed records, and the readers answer [None] for it. *)

Definition as_bool (j : json) : option bool :=
  match j with JBool b => Some b | _ => None end.

Definition as_num (j : json) : option Z :=
  match j with JNum n => Some n | _ => None end.

Definition as_nullable {A} (f : json -> option A) (j : json) : option (option A) :=
  match j with
  | JNull => Some None
  | _ => option_map Some (f j)
  end.

Definition as_str (j : json) : option string :=
  match j with JStr s => Some s | _ => None end.

Fixpoint as_list {A} (f : json -> option A) (l : list json) : option (list A) :=
  match l with
  | [] => Some []
  | j :: rest =>
      match f j, as_list f rest with
      | Some a, Some r => Some (a :: r)
      | _, _ => None
      end
  end.

Definition as_array {A} (f : json -> option A) (j : json) : option (list A) :=
  match j with JArr l => as_list f l | _ => None end.

Definition as_item (j : json) : option RotationScheduleItem :=
  match j with
  | JObj m =>
      match member "cameraId" m, member "durationSeconds" m with
      | Some c, Some d =>
          match as_num c, as_num d with
          | Some c', Some d' => Some {| cameraId := c'; durationSeconds := d' |}
          | _, _ => None
          end
      | _, _ => None
      end
  | _ => None
  end.

(** A member of the parsed object: absent ([Some None]), present and typed
    ([Some (Some v)]), or present with a value of another type ([None]). *)
Definition typed_member {A} (f : json -> option A) (k : string)
    (m : list (string * json)) : option (option A) :=
  match member k m with
  | None => Some None
  | Some j => option_map Some (f j)
  end.

Definition partial_of_members (m : list (string * json)) : option Partial.t :=
  match typed_member as_bool "rotationEnabled" m,
        typed_member (as_nullable as_num) "fixedSourceId" m,
        typed_member (as_array as_num) "selectedCameraIds" m,
        typed_member (as_array as_item) "rotationSchedule" m,
        typed_member (as_nullable as_num) "currentSourceId" m,
        typed_member (as_nullable as_str) "lastSwitchTime" m,
        typed_member (as_nullable as_num) "currentScheduleIndex" m with
  | Some a, Some b, Some c, Some d, Some e, Some f, Some g =>
      Some {| Partial.rotationEnabled := a; Partial.fixedSourceId := b;
              Partial.selectedCameraIds := c; Partial.rotationSchedule := d;
              Partial.currentSourceId := e; Partial.lastSwitchTime := f;
              Partial.currentScheduleIndex := g |}
  | _, _, _, _, _, _, _ => None
  end.

(* ------------------------------------------------------------------ *)
(** * The outside world *)

(** What is found at [./data/state.json]. *)
Inductive FileContent :=
| NoFile                    (* Deno.errors.NotFound *)
| Unreadable                (* any other read error, or text that does not parse *)
| Parsed (j : json).

(** Answer of the pipeline service to [PUT /source/active]. *)
Inductive Response :=
| Ok                        (* response.ok *)
| Status (code : Z)         (* an HTTP error status *)
| Threw.                    (* fetch rejected: transport error or time-out *)

Record Env := {
  (** whether the k-th persistence attempt ([Deno.mkdir] then
      [Deno.writeTextFile]) completes without throwing *)
  diskOk : nat -> bool;
  (** answer to the k-th switch request *)
  fetchResp : nat -> Response;
  (** [new Date().toISOString()] read while handling the k-th switch request *)
  now : nat -> string
}.

Record World := {
  state : SwitcherState;                 (* state.ts: [state] *)
  listening : bool;                      (* rotation.ts subscribed to "stateChanged" *)
  notifications : nat;                   (* calls of [stateEvents.emit("stateChanged")] *)
  disk : FileContent;                    (* ./data/state.json *)
  attempts : nat;                        (* persistence attempts so far *)
  currentTimer : option nat;             (* rotation.ts: [currentTimer] *)
  shouldStop : bool;                     (* rotation.ts: [shouldStop] *)
  timers : list (nat * Z);               (* pending [setTimeout]s: handle, delay in ms *)
  nextTimer : nat;                       (* next handle the runtime gives out *)
  requests : list Z                      (* switch requests sent, oldest first *)
}.

Definition with_state (f : SwitcherState -> SwitcherState) (w : World) : World :=
  {| state := f (state w); listening := listening w;
     notifications := notifications w; disk := disk w; attempts := attempts w;
     currentTimer := currentTimer w; shouldStop := shouldStop w;
     timers := timers w; nextTimer := nextTimer w; requests := requests w |}.

Definition set_notifications (n : nat) (w : World) : World :=
  {| state := state w; listening := listening w;
     notifications := n; disk := disk w; attempts := attempts w;
     currentTimer := currentTimer w; shouldStop := shouldStop w;
     timers := timers w; nextTimer := nextTimer w; requests := requests w |}.

Definition set_disk (d : FileContent) (w : World) : World :=
  {| state := state w; listening := listening w;
     notifications := notifications w; disk := d; attempts := attempts w;
     currentTimer := currentTimer w; shouldStop := shouldStop w;
     timers := timers w; nextTimer := nextTimer w; requests := requests w |}.

Definition set_attempts (n : nat) (w : World) : World :=
  {| state := state w; listening := listening w;
     notifications := notifications w; disk := disk w; attempts := n;
     currentTimer := currentTimer w; shouldStop := shouldStop w;
     timers := timers w; nextTimer := nextTimer w; requests := requests w |}.

Definition set_currentTimer (t : option nat) (w : World) : World :=
  {| state := state w; listening := listening w;
     notifications := notifications w; disk := disk w; attempts := attempts w;
     currentTimer := t; shouldStop := shouldStop w;
     timers := timers w; nextTimer := nextTimer w; requests := requests w |}.

Definition set_timers (l : list (nat * Z)) (n : nat) (w : World) : World :=
  {| state := state w; listening := listening w;
     notifications := notifications w; disk := disk w; attempts := attempts w;
     currentTimer := currentTimer w; shouldStop := shouldStop w;
     timers := l; nextTimer := n; requests := requests w |}.

Definition set_requests (l : list Z) (w : World) : World :=
  {| state := state w; listening := listening w;
     notifications := notifications w; disk := disk w; attempts := attempts w;
     currentTimer := currentTimer w; shouldStop := shouldStop w;
     timers := timers w; nextTimer := nextTimer w; requests := l |}.

(** The runtime's timer table. *)

Definition setTimeout (delay : Z) (w : World) : World * nat :=
  (set_timers (timers w ++ [(nextTimer w, delay)]) (S (nextTimer w)) w, nextTimer w).

Definition clearTimeout (h : nat) (w : World) : World :=
  set_timers (filter (fun t => negb (Nat.eqb (fst t) h)) (timers w)) (nextTimer w) w.

(* ------------------------------------------------------------------ *)
(** * state.ts *)

Definition defaultState : SwitcherState :=
  {| rotationEnabled := false;
     fixedSourceId := None;
     selectedCameraIds := [];
     rotationSchedule := [];
     currentSourceId := None;
     lastSwitchTime := None;
     currentScheduleIndex := None |}.

Definition or_keep {A} (loaded : option A) (set : A -> SwitcherState -> SwitcherState)
    (s : SwitcherState) : SwitcherState :=
  match loaded with
  | Some v => set v s
  | None => s
  end.

(** The seven [if (loaded.f !== undefined) state.f = loaded.f] of [loadState]. *)
Definition merge (loaded : Partial.t) (s : SwitcherState) : SwitcherState :=
  let s := or_keep (Partial.rotationEnabled loaded) set_rotationEnabled s in
  let s := or_keep (Partial.fixedSourceId loaded) set_fixedSourceId s in
  let s := or_keep (Partial.selectedCameraIds loaded) set_selectedCameraIds s in
  let s := or_keep (Partial.rotationSchedule loaded) set_rotationSchedule s in
  let s := or_keep (Partial.currentSourceId loaded) set_currentSourceId s in
  let s := or_keep (Partial.lastSwitchTime loaded) set_lastSwitchTime s in
  or_keep (Partial.currentScheduleIndex loaded) set_currentScheduleIndex s.

(** [loadState]: the state after the call, or [None] when the file holds a
    member that is not of its declared type (see [typed_member]).
    - no file, or an unreadable one: logged, [state] untouched;
    - [null]: reading [loaded.rotationEnabled] throws, caught, [state] untouched;
    - any other value that is not an object has no members at all. *)
Definition loadState (file : FileContent) (s : SwitcherState) : option SwitcherState :=
  match file with
  | NoFile => Some s
  | Unreadable => Some s
  | Parsed JNull => Some s
  | Parsed (JObj m) => option_map (fun p => merge p s) (partial_of_members m)
  | Parsed _ => Some s
  end.

(** [stateEvents.emit("stateChanged")]: the listeners run inside the call.
    The only listener the program ever registers is the scheduler's
    ([runRotationLoop]); it is passed as [handler] and runs when [listening]. *)
Definition emit (handler : World -> World) (w : World) : World :=
  let w := set_notifications (S (notifications w)) w in
  if listening w then handler w else w.

(** [saveState(emitEvent)].  The write and the emit sit in one [try] block, in
    this order: when the write throws, control goes to the [catch], which
    logs, and the emit is not reached. *)
Definition saveState (e : Env) (handler : World -> World) (emitEvent : bool)
    (w : World) : World :=
  let k := attempts w in
  let w := set_attempts (S k) w in
  if diskOk e k then
    let w := set_disk (Parsed (stringify (state w))) w in
    if emitEvent then emit handler w else w
  else w.

(** [saveState(false)], as every caller outside [api.ts] writes it. *)
Definition saveState_false (e : Env) (w : World) : World :=
  saveState e (fun w' => w') false w.

(* ------------------------------------------------------------------ *)
(** * pipeline.ts *)

(** [switchToSource(baseUrl, sourceId, sourceName)].  [sourceName] only goes to
    the log.  [notifyCameraAPI] posts to another service, catches its own
    errors and touches nothing of this program's state. *)
Definition switchToSource (e : Env) (sourceId : Z) (w : World) : World * bool :=
  let k := List.length (requests w) in
  let w := set_requests (requests w ++ [sourceId]) w in
  match fetchResp e k with
  | Ok =>
      let w := with_state (set_currentSourceId (Some sourceId)) w in
      let w := with_state (set_lastSwitchTime (Some (now e k))) w in
      (saveState_false e w, true)
  | Status _ => (w, false)
  | Threw => (w, false)
  end.

(* ------------------------------------------------------------------ *)
(** * rotation.ts *)

Definition cancelCurrentTimer (w : World) : World :=
  match currentTimer w with
  | Some h => set_currentTimer None (clearTimeout h w)
  | None => w
  end.

(** [s.enabled || false] *)
Definition is_enabled (s : Source) : bool :=
  match enabled s with
  | Some b => b
  | None => false
  end.

Definition getAvailableSources (st : SwitcherState) (sources : list Source)
  : list Source :=
  let availableSources :=
    filter (fun s => is_enabled s && String.eqb (source_type s) "srt") sources in
  if (0 <? Z.of_nat (List.length (selectedCameraIds st)))
  then filter (fun s => existsb (Z.eqb (id s)) (selectedCameraIds st)) availableSources
  else availableSources.

(** [a !== b] on [number | null]. *)
Definition differs (a b : option Z) : bool :=
  match a, b with
  | Some x, Some y => negb (x =? y)
  | None, None => false
  | _, _ => true
  end.

Definition handleFixedSource (e : Env) (sources : list Source) (w : World) : World :=
  match fixedSourceId (state w) with
  | Some fixed =>
      match find (fun s => id s =? fixed) sources with
      | Some fixedSource =>
          if is_enabled fixedSource then
            if differs (currentSourceId (state w)) (fixedSourceId (state w))
            then fst (switchToSource e fixed w)
            else w
          else w
      | None => w
      end
  | None => w
  end.

(** A [number | null] used as a number: [null] counts as 0. *)
Definition toNumber (i : option Z) : Z :=
  match i with
  | Some n => n
  | None => 0
  end.

(** [schedule[i]]; [None] is [undefined]. *)
Definition item_at (schedule : list RotationScheduleItem) (i : Z)
  : option RotationScheduleItem :=
  if i <? 0 then None else nth_error schedule (Z.to_nat i).

Definition scheduleLength (st : SwitcherState) : Z :=
  Z.of_nat (List.length (rotationSchedule st)).

(** [state.currentScheduleIndex === null ||
     state.currentScheduleIndex >= state.rotationSchedule.length] *)
Definition index_unusable (st : SwitcherState) : bool :=
  match currentScheduleIndex st with
  | None => true
  | Some i => scheduleLength st <=? i
  end.

(** [(state.currentScheduleIndex + 1) % state.rotationSchedule.length].
    The remainder takes the sign of the dividend, as [Z.rem] does.  (With an
    empty schedule JavaScript yields NaN, which [processRotation] never
    computes: it returns before, at the length test.) *)
Definition nextIndex (st : SwitcherState) : Z :=
  Z.rem (toNumber (currentScheduleIndex st) + 1) (scheduleLength st).

Definition arm (delay : Z) (w : World) : World :=
  let (w, h) := setTimeout delay w in
  set_currentTimer (Some h) w.

(** [processRotation(baseUrl, sources)], run from its first line to its last
    with nothing else of the program running in between. *)
Definition processRotation (e : Env) (sources : list Source) (w : World) : World :=
  if shouldStop w then w else
  let w := cancelCurrentTimer w in
  if negb (rotationEnabled (state w)) then
    let w :=
      match currentScheduleIndex (state w) with
      | Some _ => saveState_false e (with_state (set_currentScheduleIndex None) w)
      | None => w
      end in
    handleFixedSource e sources w
  else if scheduleLength (state w) =? 0 then w
  else
    let w :=
      if index_unusable (state w)
      then saveState_false e (with_state (set_currentScheduleIndex (Some 0)) w)
      else w in
    match item_at (rotationSchedule (state w))
                  (Z.rem (toNumber (currentScheduleIndex (state w)))
                         (scheduleLength (state w))) with
    | None => w       (* reading [.cameraId] of [undefined] throws: the call ends here *)
    | Some scheduleItem =>
        let camera := cameraId scheduleItem in
        let duration := durationSeconds scheduleItem in
        match find (fun s => id s =? camera)
                   (getAvailableSources (state w) sources) with
        | Some _ =>
            let w := fst (switchToSource e camera w) in
            let w := saveState_false e w in
            let w := with_state (set_currentScheduleIndex (Some (nextIndex (state w)))) w in
            arm (duration * 1000) w
        | None =>
            let w := with_state (set_currentScheduleIndex (Some (nextIndex (state w)))) w in
            let w := saveState_false e w in
            arm 5000 w
        end
    end.

(** What a "stateChanged" notification brings about in the end.  The listener,
    [handleStateChange], cancels the timer and calls [processRotation]
    without awaiting it; here that call is followed to its last line, with
    nothing else of the program running in between.  The listener itself
    returns earlier, at the first [await] of the call: that is
    [handleStateChange], defined with the [await]s below. *)
Definition stateChanged (e : Env) (sources : list Source) (w : World) : World :=
  processRotation e sources (cancelCurrentTimer w).

(** The callback given to [setTimeout]: it runs when the runtime takes the
    timer [h] off its table.  The call of [processRotation] it starts is
    followed to its end. *)
Definition timerFired (e : Env) (sources : list Source) (h : nat) (w : World) : World :=
  if existsb (fun t => Nat.eqb (fst t) h) (timers w) then
    let w := clearTimeout h w in
    let w := set_currentTimer None w in
    processRotation e sources w
  else w.

(* ------------------------------------------------------------------ *)
(** * api.ts: the endpoints that write [state] *)

(** The index reset shared by [PUT /api/state] and [PUT /api/rotation/schedule]. *)
Definition replaceSchedule (schedule : list RotationScheduleItem) (st : SwitcherState)
  : SwitcherState :=
  let oldScheduleLength := scheduleLength st in
  let st := set_rotationSchedule schedule st in
  let newLength := Z.of_nat (List.length schedule) in
  match currentScheduleIndex st with
  | Some i =>
      if negb (oldScheduleLength =? newLength) || (newLength <=? i)
      then set_currentScheduleIndex (if 0 <? newLength then Some 0 else None) st
      else st
  | None => st
  end.

(** The four [if (body.f !== undefined)] of [PUT /api/state]; the other
    members of the body are not read. *)
Definition applyBody (body : Partial.t) (st : SwitcherState) : SwitcherState :=
  let st := or_keep (Partial.rotationEnabled body) set_rotationEnabled st in
  let st := or_keep (Partial.fixedSourceId body) set_fixedSourceId st in
  let st := or_keep (Partial.selectedCameraIds body) set_selectedCameraIds st in
  or_keep (Partial.rotationSchedule body) replaceSchedule st.

(** The three requests that write the configuration, each taken together
    with the re-evaluation its notification starts, that re-evaluation
    followed to its end before anything else is served.  What holds when the
    handler answers is [servePutState], [servePutSchedule] and
    [servePutCameras] below. *)

(** [PUT /api/state] with a body that parsed. *)
Definition putState (e : Env) (sources : list Source) (body : Partial.t) (w : World)
  : World :=
  saveState e (stateChanged e sources) true (with_state (applyBody body) w).

(** [PUT /api/rotation/schedule] *)
Definition putSchedule (e : Env) (sources : list Source)
    (schedule : list RotationScheduleItem) (w : World) : World :=
  saveState e (stateChanged e sources) true (with_state (replaceSchedule schedule) w).

(** [PUT /api/rotation/cameras] *)
Definition putCameras (e : Env) (sources : list Source) (cameraIds : list Z)
    (w : World) : World :=
  saveState e (stateChanged e sources) true
            (with_state (set_selectedCameraIds cameraIds) w).

(** The process as [main] leaves it once [runRotationLoop] has subscribed. *)
Definition initialWorld (file : FileContent) (st : SwitcherState) : World :=
  {| state := st; listening := true; notifications := 0%nat; disk := file;
     attempts := 0%nat; currentTimer := None; shouldStop := false;
     timers := []; nextTimer := 0%nat; requests := [] |}.

(* ------------------------------------------------------------------ *)
(** * The program as a whole

    What sets the program in motion, when every call runs to its end before
    the next trigger is handled. *)

Inductive Trigger :=
| Reevaluate                  (* processRotation called directly *)
| Configure (body : Partial.t)              (* PUT /api/state *)
| Schedule (schedule : list RotationScheduleItem)  (* PUT /api/rotation/schedule *)
| Cameras (ids : list Z)      (* PUT /api/rotation/cameras *)
| Switch (sourceId : Z)       (* switchToSource, as PUT /api/source/active calls it *)
| Expire (h : nat).           (* a timer callback *)

Definition react (e : Env) (sources : list Source) (t : Trigger) (w : World) : World :=
  match t with
  | Reevaluate => processRotation e sources w
  | Configure body => putState e sources body w
  | Schedule schedule => putSchedule e sources schedule w
  | Cameras ids => putCameras e sources ids w
  | Switch sourceId => fst (switchToSource e sourceId w)
  | Expire h => timerFired e sources h w
  end.

Definition reactAll (e : Env) (sources : list Source) (ts : list Trigger) (w : World)
  : World :=
  fold_left (fun w' t => react e sources t w') ts w.

(** Which triggers are configuration mutations. *)
Definition isConfiguration (t : Trigger) : bool :=
  match t with
  | Configure _ | Schedule _ | Cameras _ => true
  | Reevaluate | Switch _ | Expire _ => false
  end.

(* ------------------------------------------------------------------ *)
(** * rotation.ts, one [await] at a time

    [processRotation] is an [async] function.  At each [await] of an operation
    that leaves the thread (the write in [saveState], the request in
    [switchToSource]) the call is suspended and whatever else is ready runs:
    a request to the control API, a timer callback, another suspended call.
    [Await] names the operation a call is waiting on, with the local
    constants it will need afterwards.  The awaited operation takes effect
    when the call is resumed. *)

Inductive Await :=
| AtClearSave                          (* saveState(false) after the index was cleared *)
| AtFixedSwitch (fixed : Z)            (* switchToSource in handleFixedSource *)
| AtResetSave                          (* saveState(false) after the index was set to 0 *)
| AtSwitch (camera duration : Z)       (* switchToSource of the schedule item *)
| AtIndexSave (duration : Z)           (* saveState(false) that follows the switch *)
| AtSkipSave.                          (* saveState(false) after skipping the item *)

(** [handleFixedSource] up to its [await]. *)
Definition fixedPhase (sources : list Source) (w : World) : World * option Await :=
  match fixedSourceId (state w) with
  | Some fixed =>
      match find (fun s => id s =? fixed) sources with
      | Some fixedSource =>
          if is_enabled fixedSource then
            if differs (currentSourceId (state w)) (fixedSourceId (state w))
            then (w, Some (AtFixedSwitch fixed))
            else (w, None)
          else (w, None)
      | None => (w, None)
      end
  | None => (w, None)
  end.

(** From "Get current schedule item" to the next [await]. *)
Definition itemPhase (sources : list Source) (w : World) : World * option Await :=
  match item_at (rotationSchedule (state w))
                (Z.rem (toNumber (currentScheduleIndex (state w)))
                       (scheduleLength (state w))) with
  | None => (w, None)
  | Some scheduleItem =>
      let camera := cameraId scheduleItem in
      let duration := durationSeconds scheduleItem in
      match find (fun s => id s =? camera)
                 (getAvailableSources (state w) sources) with
      | Some _ => (w, Some (AtSwitch camera duration))
      | None =>
          (with_state (set_currentScheduleIndex (Some (nextIndex (state w)))) w,
           Some AtSkipSave)
      end
  end.

(** [processRotation] from its first line to its first [await]. *)
Definition begin (sources : list Source) (w : World) : World * option Await :=
  if shouldStop w then (w, None) else
  let w := cancelCurrentTimer w in
  if negb (rotationEnabled (state w)) then
    match currentScheduleIndex (state w) with
    | Some _ => (with_state (set_currentScheduleIndex None) w, Some AtClearSave)
    | None => fixedPhase sources w
    end
  else if scheduleLength (state w) =? 0 then (w, None)
  else if index_unusable (state w)
  then (with_state (set_currentScheduleIndex (Some 0)) w, Some AtResetSave)
  else itemPhase sources w.

(** A suspended call goes on, up to its next [await] or its end. *)
Definition resume (e : Env) (sources : list Source) (a : Await) (w : World)
  : World * option Await :=
  match a with
  | AtClearSave => fixedPhase sources (saveState_false e w)
  | AtFixedSwitch fixed => (fst (switchToSource e fixed w), None)
  | AtResetSave => itemPhase sources (saveState_false e w)
  | AtSwitch camera duration =>
      (fst (switchToSource e camera w), Some (AtIndexSave duration))
  | AtIndexSave duration =>
      let w := saveState_false e w in
      let w := with_state (set_currentScheduleIndex (Some (nextIndex (state w)))) w in
      (arm (duration * 1000) w, None)
  | AtSkipSave => (arm 5000 (saveState_false e w), None)
  end.

(** A call resumed again and again with nothing else running in between. *)
Fixpoint finish (e : Env) (sources : list Source) (fuel : nat)
    (r : World * option Await) : World :=
  match r with
  | (w, None) => w
  | (w, Some a) =>
      match fuel with
      | O => w
      | S fuel' => finish e sources fuel' (resume e sources a w)
      end
  end.

(** [handleStateChange(baseUrl, sources)]: the timer is cancelled and
    [processRotation] is called and not awaited, so the listener returns when
    that call reaches its first [await], or its end if it has none.  The
    result is the world at that moment and what the call is waiting on. *)
Definition handleStateChange (sources : list Source) (w : World) : World * option Await :=
  begin sources (cancelCurrentTimer w).

(** [await saveState()] as the handlers of [api.ts] run it while the
    scheduler is subscribed: the write and, when it succeeded, the emit,
    inside which the listener runs and returns.  The handler goes on from the
    world returned; the call the listener started, if it is suspended, goes
    on when the event loop resumes it. *)
Definition saveStateNotifying (e : Env) (sources : list Source) (w : World)
  : World * option Await :=
  let notified := diskOk e (attempts w) && listening w in
  let w := saveState e (fun w' => w') true w in
  if notified then handleStateChange sources w else (w, None).

(** [PUT /api/state] with a body that parsed, up to the handler's answer. *)
Definition servePutState (e : Env) (sources : list Source) (body : Partial.t)
    (w : World) : World * option Await :=
  saveStateNotifying e sources (with_state (applyBody body) w).

(** [PUT /api/rotation/schedule], up to the handler's answer. *)
Definition servePutSchedule (e : Env) (sources : list Source)
    (schedule : list RotationScheduleItem) (w : World) : World * option Await :=
  saveStateNotifying e sources (with_state (replaceSchedule schedule) w).

(** [PUT /api/rotation/cameras], up to the handler's answer. *)
Definition servePutCameras (e : Env) (sources : list Source) (cameraIds : list Z)
    (w : World) : World * option Await :=
  saveStateNotifying e sources (with_state (set_selectedCameraIds cameraIds) w).

(** The process: the shared variables and the calls of [processRotation]
    that are suspended. *)
Record Process := {
  world : World;
  suspended : list Await
}.

Definition spawn (rest : list Await) (r : World * option Await) : Process :=
  match r with
  | (w, None) => {| world := w; suspended := rest |}
  | (w, Some a) => {| world := w; suspended := rest ++ [a] |}
  end.

Inductive Event :=
| Start                       (* runRotationLoop calls processRotation *)
| PutCameras (ids : list Z)   (* PUT /api/rotation/cameras is served *)
| Resume (n : nat)            (* the operation awaited by the n-th suspended call completes *)
| Fire (h : nat).             (* the timer with handle h expires *)

(** One turn of the event loop.  A request that changes the schedule or
    [rotationEnabled] while a call is suspended is not among the events. *)
Definition step (e : Env) (sources : list Source) (ev : Event) (p : Process) : Process :=
  let w := world p in
  match ev with
  | Start => spawn (suspended p) (begin sources w)
  | PutCameras ids =>
      let notified := diskOk e (attempts w) && listening w in
      let w := saveState e (fun w' => w') true
                         (with_state (set_selectedCameraIds ids) w) in
      if notified
      then spawn (suspended p) (begin sources (cancelCurrentTimer w))
      else {| world := w; suspended := suspended p |}
  | Resume n =>
      match nth_error (suspended p) n with
      | Some a =>
          let (w, next) := resume e sources a w in
          {| world := w;
             suspended := firstn n (suspended p)
                          ++ match next with Some a' => [a'] | None => [] end
                          ++ skipn (S n) (suspended p) |}
      | None => p
      end
  | Fire h =>
      if existsb (fun t => Nat.eqb (fst t) h) (timers w) then
        spawn (suspended p)
              (begin sources (set_currentTimer None (clearTimeout h w)))
      else p
  end.

Definition run (e : Env) (sources : list Source) (evs : list Event) (p : Process)
  : Process :=
  fold_left (fun q ev => step e sources ev q) evs p.

(* ------------------------------------------------------------------ *)
(** * Notions the statements use *)

(** The index invariant of the data model: [null] whenever rotation is
    disabled or the schedule is empty, and within the schedule otherwise. *)
Definition indexInvariant (st : SwitcherState) : Prop :=
  (rotationEnabled st = false \/ rotationSchedule st = [] ->
   currentScheduleIndex st = None) /\
  (rotationEnabled st = true -> rotationSchedule st <> [] ->
   exists i, currentScheduleIndex st = Some i /\ 0 <= i < scheduleLength st).

(** The same as a test. *)
Definition indexOk (st : SwitcherState) : bool :=
  match currentScheduleIndex st with
  | None => negb (rotationEnabled st) || (scheduleLength st =? 0)
  | Some i => rotationEnabled st && (0 <=? i) && (i <? scheduleLength st)
  end.

(** What [processRotation] needs of the index to leave it within the
    schedule: no index without a schedule, and no negative index. *)
Definition indexSane (st : SwitcherState) : Prop :=
  (rotationEnabled st = true -> rotationSchedule st = [] ->
   currentScheduleIndex st = None) /\
  (forall i, currentScheduleIndex st = Some i -> 0 <= i).

(** The index [processRotation] works with once it has reset an unusable one. *)
Definition usableIndex (st : SwitcherState) : Z :=
  if index_unusable st then 0 else toNumber (currentScheduleIndex st).

(** Whether [availableSources.find(s => s.id === cameraId)] finds a source. *)
Definition resolves (st : SwitcherState) (sources : list Source) (camera : Z) : bool :=
  match find (fun s => id s =? camera) (getAvailableSources st sources) with
  | Some _ => true
  | None => false
  end.

(** The world after [processRotation] has cancelled the timer and, where
    needed, reset the index. *)
Definition prepared (e : Env) (w : World) : World :=
  if index_unusable (state w)
  then saveState_false e (with_state (set_currentScheduleIndex (Some 0))
                                     (cancelCurrentTimer w))
  else cancelCurrentTimer w.

(** The world after [processRotation], rotation being disabled, has cancelled
    the timer and cleared the index. *)
Definition cleared (e : Env) (w : World) : World :=
  match currentScheduleIndex (state (cancelCurrentTimer w)) with
  | Some _ =>
      saveState_false e (with_state (set_currentScheduleIndex None)
                                    (cancelCurrentTimer w))
  | None => cancelCurrentTimer w
  end.

(** The timer table holds what [currentTimer] names and nothing else. *)
Definition oneTimer (w : World) : Prop :=
  match currentTimer w with
  | None => timers w = []
  | Some h => exists delay, timers w = [(h, delay)]
  end.

(** The state file is the state in memory, or neither has changed. *)
Definition synced (w w' : World) : Prop :=
  (state w' = state w /\ disk w' = disk w) \/
  disk w' = Parsed (stringify (state w')).

(** What the state file holds of [w'], when [w] is the world some triggers
    ago: nothing changed, or the file is the state in memory, or the file is
    the state in memory but for the index, which in memory is one item
    further. *)
Definition persistedSince (w w' : World) : Prop :=
  (state w' = state w /\ disk w' = disk w) \/
  disk w' = Parsed (stringify (state w')) \/
  (exists i,
      currentScheduleIndex (state w') =
        Some (Z.rem (i + 1) (scheduleLength (state w'))) /\
      disk w' = Parsed (stringify (set_currentScheduleIndex (Some i) (state w')))).

(** How many of the triggers [ts], handled one after the other from [w], are
    configuration mutations whose write succeeds. *)
Fixpoint persistedConfigurations (e : Env) (sources : list Source)
    (ts : list Trigger) (w : World) : nat :=
  match ts with
  | [] => 0
  | t :: rest =>
      ((if isConfiguration t && diskOk e (attempts w) then 1 else 0)
       + persistedConfigurations e sources rest (react e sources t w))%nat
  end.

Definition configurations (ts : list Trigger) : nat :=
  List.length (filter isConfiguration ts).

(** The snapshot in which every member is present. *)
Definition full (s : SwitcherState) : Partial.t :=
  {| Partial.rotationEnabled := Some (rotationEnabled s);
     Partial.fixedSourceId := Some (fixedSourceId s);
     Partial.selectedCameraIds := Some (selectedCameraIds s);
     Partial.rotationSchedule := Some (rotationSchedule s);
     Partial.currentSourceId := Some (currentSourceId s);
     Partial.lastSwitchTime := Some (lastSwitchTime s);
     Partial.currentScheduleIndex := Some (currentScheduleIndex s) |}.

(* ------------------------------------------------------------------ *)
(** * Scenarios *)

Definition camera (i : Z) (en healthy : bool) : Source :=
  {| id := i; name := None; source_type := "srt"; enabled := Some en;
     is_healthy := Some healthy; uri := None; file_path := None |}.

Definition item (c d : Z) : RotationScheduleItem :=
  {| cameraId := c; durationSeconds := d |}.

Definition noon : string := "2024-01-15T12:00:00.000Z".

(** Everything works. *)
Definition fair : Env :=
  {| diskOk := fun _ => true; fetchResp := fun _ => Ok; now := fun _ => noon |}.

(** The state file cannot be written. *)
Definition diskFull : Env :=
  {| diskOk := fun _ => false; fetchResp := fun _ => Ok; now := fun _ => noon |}.

(** The pipeline service answers every switch request with an error. *)
Definition pipelineDown : Env :=
  {| diskOk := fun _ => true; fetchResp := fun _ => Status 500; now := fun _ => noon |}.

Definition rotating (schedule : list RotationScheduleItem) (i : option Z)
  : SwitcherState :=
  {| rotationEnabled := true; fixedSourceId := None; selectedCameraIds := [];
     rotationSchedule := schedule; currentSourceId := None; lastSwitchTime := None;
     currentScheduleIndex := i |}.

(** Scenario A: schedule [{1,60},{2,120}], both cameras healthy. *)
Definition scenarioA : World :=
  initialWorld NoFile (rotating [item 1 60; item 2 120] None).

Definition camerasA : list Source := [camera 1 true true; camera 2 true true].

(** Scenario B: rotation disabled, fixed source 5, currently on 3. *)
Definition scenarioB : World :=
  initialWorld NoFile
    {| rotationEnabled := false; fixedSourceId := Some 5; selectedCameraIds := [];
       rotationSchedule := []; currentSourceId := Some 3; lastSwitchTime := None;
       currentScheduleIndex := None |}.

Definition camerasB : list Source := [camera 3 true true; camera 5 true true].

(** Scenario C: schedule [{9,30}], camera 9 disabled. *)
Definition scenarioC : World := initialWorld NoFile (rotating [item 9 30] None).

Definition camerasC : list Source := [camera 9 false true].

(** A single camera on a 60 s slot, shown since the start. *)
Definition oneCamera : World := initialWorld NoFile (rotating [item 1 60] (Some 0)).

Definition disableRotation : Partial.t :=
  {| Partial.rotationEnabled := Some false; Partial.fixedSourceId := None;
     Partial.selectedCameraIds := None; Partial.rotationSchedule := None;
     Partial.currentSourceId := None; Partial.lastSwitchTime := None;
     Partial.currentScheduleIndex := None |}.

(** The first call of [processRotation] is waiting for the answer to its
    switch request when a request to the control API is served; then both
    calls go on to their end, the first one first. *)
Definition overlap : list Event :=
  [Start; PutCameras [1]; Resume 0; Resume 0; Resume 0; Resume 0].

Definition booting : Process := {| world := oneCamera; suspended := [] |}.

(** Camera 1 is enabled and reported unhealthy by the pipeline service. *)
Definition camerasUnhealthy : list Source := [camera 1 true false].

(** Scenario D: only cameras 1 and 3 are selected; the schedule shows camera 2. *)
Definition scenarioD : World :=
  initialWorld NoFile
    {| rotationEnabled := true; fixedSourceId := None; selectedCameraIds := [1; 3];
       rotationSchedule := [item 2 45]; currentSourceId := None;
       lastSwitchTime := None; currentScheduleIndex := None |}.

Definition camerasD : list Source :=
  [camera 1 true true; camera 2 true true; camera 3 true true].

(* ------------------------------------------------------------------ *)
(** * Notions for the rest of the scheduler *)

(** The configuration half of the state. *)
Definition configuration (st : SwitcherState)
  : bool * option Z * list Z * list RotationScheduleItem :=
  (rotationEnabled st, fixedSourceId st, selectedCameraIds st, rotationSchedule st).

(** The first re-evaluation, then [n] times: the timer that is armed expires,
    with nothing else happening in between. *)
Fixpoint rotation (e : Env) (sources : list Source) (n : nat) (w : World) : World :=
  match n with
  | O => processRotation e sources w
  | S k =>
      let w' := rotation e sources k w in
      match currentTimer w' with
      | Some h => timerFired e sources h w'
      | None => w'
      end
  end.

(** The camera of [schedule[i]]. *)
Definition cameraAt (schedule : list RotationScheduleItem) (i : Z) : Z :=
  match item_at schedule i with
  | Some it => cameraId it
  | None => 0
  end.

(** The delay, in ms, of the timer armed for [schedule[i]]: its own duration
    when its camera resolves, 5 s when it does not. *)
Definition delayAt (st : SwitcherState) (sources : list Source) (i : Z) : Z :=
  match item_at (rotationSchedule st) i with
  | Some it =>
      if resolves st sources (cameraId it) then durationSeconds it * 1000 else 5000
  | None => 5000
  end.

(** The [n] schedule positions from [u] on, wrapping around. *)
Definition slots (st : SwitcherState) (u : Z) (n : nat) : list Z :=
  map (fun j => (u + Z.of_nat j) mod scheduleLength st) (seq 0 n).

(** A member of a request body, or what the state holds when it is absent. *)
Definition provided {A} (member : option A) (current : A) : A :=
  match member with
  | Some v => v
  | None => current
  end.

(** [{rotationEnabled: false, fixedSourceId: fixed}] *)
Definition fixOn (fixed : Z) : Partial.t :=
  {| Partial.rotationEnabled := Some false;
     Partial.fixedSourceId := Some (Some fixed);
     Partial.selectedCameraIds := None; Partial.rotationSchedule := None;
     Partial.currentSourceId := None; Partial.lastSwitchTime := None;
     Partial.currentScheduleIndex := None |}.

(* ------------------------------------------------------------------ *)
(** * state.ts: the event emitter

    [Map<string, Set<() => void>>].  Listeners are functions, told apart by
    identity: a listener is named by a number.  A [Set] keeps its elements in
    insertion order, without repetition. *)

Module EventEmitter.

Definition t := list (string * list nat).

Definition empty : t := [].

(** [listeners.get(event)] *)
Fixpoint get (event : string) (m : t) : option (list nat) :=
  match m with
  | [] => None
  | (k, s) :: rest => if String.eqb k event then Some s else get event rest
  end.

(** [listeners.set(event, s)] *)
Fixpoint set (event : string) (s : list nat) (m : t) : t :=
  match m with
  | [] => [(event, s)]
  | (k, s') :: rest =>
      if String.eqb k event then (k, s) :: rest else (k, s') :: set event s rest
  end.

(** [listeners.delete(event)] *)
Definition delete (event : string) (m : t) : t :=
  filter (fun entry => negb (String.eqb (fst entry) event)) m.

(** [s.add(listener)] and [s.delete(listener)] on a [Set]. *)
Definition add (listener : nat) (s : list nat) : list nat :=
  if existsb (Nat.eqb listener) s then s else s ++ [listener].

Definition remove (listener : nat) (s : list nat) : list nat :=
  filter (fun l => negb (Nat.eqb l listener)) s.

Definition on (event : string) (listener : nat) (m : t) : t :=
  let m := match get event m with
           | None => set event [] m
           | Some _ => m
           end in
  match get event m with
  | Some s => set event (add listener s) m
  | None => m
  end.

Definition off (event : string) (listener : nat) (m : t) : t :=
  match get event m with
  | Some s => set event (remove listener s) m
  | None => m
  end.

(** [emit(event)]: the listeners called, in the order of the calls. *)
Definition emit (event : string) (m : t) : list nat :=
  match get event m with
  | Some s => s
  | None => []
  end.

(** [removeAllListeners(event?)]: [if (event)] is false for [undefined] and
    for the empty string. *)
Definition removeAllListeners (event : option string) (m : t) : t :=
  match event with
  | Some ev => if String.eqb ev "" then [] else delete ev m
  | None => []
  end.

(** The calls a program can make. *)
Inductive Call :=
| On (event : string) (listener : nat)
| Off (event : string) (listener : nat)
| RemoveAll (event : option string).

Definition call (c : Call) (m : t) : t :=
  match c with
  | On event listener => on event listener m
  | Off event listener => off event listener m
  | RemoveAll event => removeAllListeners event m
  end.

Definition calls (cs : list Call) : t := fold_left (fun m c => call c m) cs empty.

End EventEmitter.

(** The members [loadState] reads. *)
Definition stateMembers : list string :=
  ["rotationEnabled"; "fixedSourceId"; "selectedCameraIds"; "rotationSchedule";
   "currentSourceId"; "lastSwitchTime"; "currentScheduleIndex"]%string.

(** The process started anew on the state file [file]: [state] starts at the
    defaults, [loadState] runs, [runRotationLoop] subscribes.  [None] when the
    file is outside the typed model (see [loadState]). *)
Definition restart (file : FileContent) : option World :=
  option_map (initialWorld file) (loadState file defaultState).

(* ------------------------------------------------------------------ *)
(** * Strings

    The strings compared below are request header values, which the runtime
    hands over as one character per byte, and the configured token they are
    compared with; a [string] of bytes holds every header value. *)

(** [s.slice(n)] *)
Fixpoint drop (n : nat) (s : string) : string :=
  match n, s with
  | S n', String _ s' => drop n' s'
  | _, _ => s
  end.

(** [s.replace(pattern, replacement)] for a string pattern: the first
    occurrence only.  (The replacement is taken as it is; it holds no [$].) *)
Fixpoint replace (pattern replacement s : string) : string :=
  if String.prefix pattern s
  then replacement ++ drop (String.length pattern) s
  else match s with
       | EmptyString => s
       | String c s' => String c (replace pattern replacement s')
       end.

(** The characters [trim] removes, among those below U+0100: tab, line feed,
    vertical tab, form feed, carriage return, space, no-break space. *)
Definition isWhiteSpace (c : Ascii.ascii) : bool :=
  let n := Ascii.nat_of_ascii c in
  (Nat.eqb n 9 || Nat.eqb n 10 || Nat.eqb n 11 || Nat.eqb n 12 || Nat.eqb n 13
   || Nat.eqb n 32 || Nat.eqb n 160)%bool.

Fixpoint trimStart (s : string) : string :=
  match s with
  | EmptyString => s
  | String c s' => if isWhiteSpace c then trimStart s' else s
  end.

Fixpoint trimEnd (s : string) : string :=
  match s with
  | EmptyString => s
  | String c s' =>
      match trimEnd s' with
      | EmptyString => if isWhiteSpace c then EmptyString else String c EmptyString
      | t => String c t
      end
  end.

Definition trim (s : string) : string := trimEnd (trimStart s).

(** No character of [s] is white space. *)
Fixpoint solid (s : string) : bool :=
  match s with
  | EmptyString => true
  | String c s' => negb (isWhiteSpace c) && solid s'
  end.

(* ------------------------------------------------------------------ *)
(** * config.ts, pipeline.ts, api.ts: the control API *)

Record Config := {
  baseUrl : string;
  apiPort : option Z;                        (* [None] is NaN *)
  apiToken : string;
  cameraApiHost : string;
  cameraApiToken : option string;
  sourceDirectionMap : list (Z * string)     (* Map<number, string> *)
}.

(** Answer of the pipeline service to [GET /sources]. *)
Inductive SourcesReply :=
| Listing (sources : option (list Source))   (* response.ok; [data.sources] may be missing *)
| ListingStatus (code : Z)
| ListingThrew.

(** [getSources]; [None] is [null]. *)
Definition getSources (reply : SourcesReply) : option (list Source) :=
  match reply with
  | Listing (Some sources) => Some sources
  | Listing None => Some []
  | ListingStatus _ => None
  | ListingThrew => None
  end.

Record Request := {
  method : string;
  path : string;                             (* new URL(request.url).pathname *)
  authorization : option string;             (* request.headers.get("Authorization") *)
  body : option json                         (* request.json(); [None] when it rejects *)
}.

Inductive Payload :=
| Error (message : string)                   (* {error: message} *)
| Healthy                                    (* {status: "ok"} *)
| State (st : SwitcherState)
| Sources (sources : list Source)            (* {sources} *)
| Switched (sourceId : Z)                    (* {success: true, sourceId} *)
| ScheduleSet (schedule : list RotationScheduleItem)
| CamerasSet (cameraIds : list Z).

(** The [Response] the handler returns. *)
Record ApiResponse := {
  status : Z;
  payload : Payload
}.

Definition authenticateRequest (config : option Config) (request : Request) : bool :=
  match config with
  | None => false
  | Some cfg =>
      if String.eqb (apiToken cfg) "" then false
      else
        match authorization request with
        | None => false
        | Some authHeader =>
            if String.eqb authHeader "" then false
            else String.eqb (trim (replace "Bearer " "" authHeader)) (apiToken cfg)
        end
  end.

(** A body without any member of [Partial<SwitcherState>]. *)
Definition noMembers : Partial.t :=
  {| Partial.rotationEnabled := None; Partial.fixedSourceId := None;
     Partial.selectedCameraIds := None; Partial.rotationSchedule := None;
     Partial.currentSourceId := None; Partial.lastSwitchTime := None;
     Partial.currentScheduleIndex := None |}.

(** The four members [PUT /api/state] reads, at their declared types; [None]
    when one of them holds a value of another type (see [typed_member]). *)
Definition configMembers (m : list (string * json)) : option Partial.t :=
  match typed_member as_bool "rotationEnabled" m,
        typed_member (as_nullable as_num) "fixedSourceId" m,
        typed_member (as_array as_num) "selectedCameraIds" m,
        typed_member (as_array as_item) "rotationSchedule" m with
  | Some a, Some b, Some c, Some d =>
      Some {| Partial.rotationEnabled := a; Partial.fixedSourceId := b;
              Partial.selectedCameraIds := c; Partial.rotationSchedule := d;
              Partial.currentSourceId := None; Partial.lastSwitchTime := None;
              Partial.currentScheduleIndex := None |}
  | _, _, _, _ => None
  end.

(** [body.id] as [sources.find(s => s.id === body.id)] uses it. *)
Inductive IdMember :=
| IdThrows                  (* the body is [null]: reading [.id] throws *)
| IdOther                   (* [undefined], or a value that is no number *)
| IdIs (i : Z).

Definition bodyId (j : json) : IdMember :=
  match j with
  | JNull => IdThrows
  | JObj m =>
      match member "id" m with
      | Some (JNum i) => IdIs i
      | _ => IdOther
      end
  | _ => IdOther
  end.

Definition respond (code : Z) (p : Payload) : ApiResponse :=
  {| status := code; payload := p |}.

Definition route (request : Request) (p m : string) : bool :=
  String.eqb (path request) p && String.eqb (method request) m.

(** What serving a request leaves: the world when the handler answers, the
    call of [processRotation] that the request's notification started if that
    call is suspended by then, and the answer. *)
Record Served := {
  after : World;
  started : option Await;
  response : ApiResponse
}.

(** A request that starts no call. *)
Definition answer (w : World) (code : Z) (p : Payload) : option Served :=
  Some {| after := w; started := None; response := respond code p |}.

(** [handleAPIRequest], the handler run from the request to its answer before
    anything else runs.  [config] is the module variable of [api.ts];
    [sources] is the list the scheduler was started with; [reply] is what
    the pipeline service answers if this request lists the sources.  The
    three routes that call [saveState()] answer when the listener has
    returned, which is when the re-evaluation it started reaches its first
    [await]: that call is handed back in [started].  The result is [None]
    when the body would put into [state] a value that is not of the member's
    type. *)
Definition handleAPIRequest (config : option Config) (e : Env) (sources : list Source)
    (reply : SourcesReply) (request : Request) (w : World)
  : option Served :=
  match config with
  | None => answer w 500 (Error "API not initialized")
  | Some _ =>
  if route request "/api/health" "GET" then answer w 200 Healthy
  else if negb (authenticateRequest config request)
  then answer w 401 (Error "Unauthorized")
  else if route request "/api/state" "GET"
  then answer w 200 (State (state w))
  else if route request "/api/state" "PUT" then
    match body request with
    | None => answer w 400 (Error "Invalid request body")
    | Some JNull => answer w 400 (Error "Invalid request body")
    | Some (JObj m) =>
        match configMembers m with
        | Some b =>
            let (w', a) := servePutState e sources b w in
            Some {| after := w'; started := a;
                    response := respond 200 (State (state w')) |}
        | None => None
        end
    | Some _ =>
        let (w', a) := servePutState e sources noMembers w in
        Some {| after := w'; started := a;
                response := respond 200 (State (state w')) |}
    end
  else if route request "/api/sources" "GET" then
    match getSources reply with
    | None => answer w 500 (Error "Failed to fetch sources")
    | Some listed => answer w 200 (Sources listed)
    end
  else if route request "/api/source/active" "PUT" then
    match body request with
    | None => answer w 400 (Error "Invalid request body")
    | Some b =>
        match getSources reply with
        | None => answer w 500 (Error "Failed to fetch sources")
        | Some listed =>
            match bodyId b, listed with
            | IdThrows, [] => answer w 404 (Error "Source not found")
            | IdThrows, _ :: _ => answer w 400 (Error "Invalid request body")
            | IdOther, _ => answer w 404 (Error "Source not found")
            | IdIs i, _ =>
                match find (fun s => id s =? i) listed with
                | None => answer w 404 (Error "Source not found")
                | Some _ =>
                    let (w', success) := switchToSource e i w in
                    if success
                    then answer w' 200 (Switched i)
                    else answer w' 500 (Error "Failed to switch source")
                end
            end
        end
    end
  else if route request "/api/rotation/schedule" "PUT" then
    match body request with
    | None => answer w 400 (Error "Invalid request body")
    | Some JNull => answer w 400 (Error "Invalid request body")
    | Some (JObj m) =>
        match option_map (as_array as_item) (member "schedule" m) with
        | Some (Some schedule) =>
            let (w', a) := servePutSchedule e sources schedule w in
            Some {| after := w'; started := a;
                    response :=
                      respond 200 (ScheduleSet (rotationSchedule (state w'))) |}
        | _ => None
        end
    | Some _ => None
    end
  else if route request "/api/rotation/cameras" "PUT" then
    match body request with
    | None => answer w 400 (Error "Invalid request body")
    | Some JNull => answer w 400 (Error "Invalid request body")
    | Some (JObj m) =>
        match option_map (as_array as_num) (member "cameraIds" m) with
        | Some (Some cameraIds) =>
            let (w', a) := servePutCameras e sources cameraIds w in
            Some {| after := w'; started := a;
                    response :=
                      respond 200 (CamerasSet (selectedCameraIds (state w'))) |}
        | _ => None
        end
    | Some _ => None
    end
  else answer w 404 (Error "Not found")
  end.

(** A request with a bearer token. *)
Definition bearer (m p : string) (token : string) (b : option json) : Request :=
  {| method := m; path := p; authorization := Some ("Bearer " ++ token)%string;
     body := b |}.

Definition testConfig : Config :=
  {| baseUrl := "http://localhost:5000"; apiPort := Some 3000;
     apiToken := "secret"; cameraApiHost := "http://localhost:3000";
     cameraApiToken := None; sourceDirectionMap := [] |}.

(* ------------------------------------------------------------------ *)
(** * config.ts and camera.ts

    Environment variables are modelled as strings of characters below
    U+0100, and numbers as integers ([parseInt] is exact up to 2^53). *)

Definition comma : Ascii.ascii := Ascii.ascii_of_nat 44.
Definition colon : Ascii.ascii := Ascii.ascii_of_nat 58.
Definition minus : Ascii.ascii := Ascii.ascii_of_nat 45.
Definition plus : Ascii.ascii := Ascii.ascii_of_nat 43.

(** [s.split(sep)] for a separator of one character. *)
Fixpoint split (sep : Ascii.ascii) (s : string) : list string :=
  match s with
  | EmptyString => [EmptyString]
  | String c s' =>
      if Ascii.eqb c sep then EmptyString :: split sep s'
      else match split sep s' with
           | h :: t => String c h :: t
           | [] => [String c EmptyString]
           end
  end.

Definition digit (c : Ascii.ascii) : option Z :=
  let n := Ascii.nat_of_ascii c in
  if (Nat.leb 48 n && Nat.leb n 57)%bool then Some (Z.of_nat n - 48) else None.

(** The value of the longest run of decimal digits [s] starts with, after
    the digits already read; [None] when there is no digit at all. *)
Fixpoint digits (read : option Z) (s : string) : option Z :=
  match s with
  | EmptyString => read
  | String c s' =>
      match digit c with
      | Some d => digits (Some (10 * toNumber read + d)) s'
      | None => read
      end
  end.

(** [parseInt(s, 10)]; [None] is NaN. *)
Definition parseInt (s : string) : option Z :=
  match trimStart s with
  | EmptyString => None
  | String c s' =>
      if Ascii.eqb c minus then option_map Z.opp (digits None s')
      else if Ascii.eqb c plus then digits None s'
      else digits None (String c s')
  end.

Definition upperChar (c : Ascii.ascii) : Ascii.ascii :=
  let n := Ascii.nat_of_ascii c in
  if (Nat.leb 97 n && Nat.leb n 122)%bool then Ascii.ascii_of_nat (n - 32) else c.

(** [s.toUpperCase()] as far as the letters a to z go.  On the strings
    modelled this agrees with JavaScript on whether the result is one of
    "N", "E", "W", "S", and on the result when it is. *)
Fixpoint toUpperCase (s : string) : string :=
  match s with
  | EmptyString => s
  | String c s' => String (upperChar c) (toUpperCase s')
  end.

Definition directions : list string := ["N"; "E"; "W"; "S"]%string.

(** [a.includes(x)] *)
Definition includes (a : list string) (x : string) : bool := existsb (String.eqb x) a.

(** [map.set(key, value)] and [map.get(key)] on a [Map<number, string>]. *)
Fixpoint mapSet (key : Z) (value : string) (m : list (Z * string)) : list (Z * string) :=
  match m with
  | [] => [(key, value)]
  | (k, v) :: rest =>
      if k =? key then (k, value) :: rest else (k, v) :: mapSet key value rest
  end.

Fixpoint mapGet (key : Z) (m : list (Z * string)) : option string :=
  match m with
  | [] => None
  | (k, v) :: rest => if k =? key then Some v else mapGet key rest
  end.

(** One turn of the loop of [parseSourceDirectionMap]; [None] when
    [direction.toUpperCase()] is called on [undefined] and throws. *)
Definition addPair (pair : string) (m : list (Z * string)) : option (list (Z * string)) :=
  let parts := map trim (split colon pair) in
  let sourceId := hd EmptyString parts in
  let direction := nth_error parts 1 in
  match parseInt sourceId with
  | None => Some m
  | Some i =>
      match direction with
      | None => None
      | Some d =>
          if includes directions (toUpperCase d)
          then Some (mapSet i (toUpperCase d) m)
          else Some m
      end
  end.

Fixpoint addPairs (pairs : list string) (m : list (Z * string))
  : option (list (Z * string)) :=
  match pairs with
  | [] => Some m
  | p :: rest =>
      match addPair p m with
      | Some m' => addPairs rest m'
      | None => None
      end
  end.

(** [parseSourceDirectionMap], from the value of SOURCE_DIRECTION_MAP. *)
Definition parseSourceDirectionMap (mapStr : option string)
  : option (list (Z * string)) :=
  match mapStr with
  | None => Some []
  | Some s => if String.eqb s "" then Some [] else addPairs (split comma s) []
  end.

(** What [loadConfig] does: it returns a configuration, throws one of its
    two errors, or lets the [TypeError] of [parseSourceDirectionMap] through. *)
Inductive Loaded :=
| Configured (cfg : Config)
| Failed (message : string)
| Crashed.

(** [a || b] on strings that may be [undefined]. *)
Definition orElse (a : option string) (b : option string) : option string :=
  match a with
  | Some s => if String.eqb s "" then b else a
  | None => b
  end.

Definition loadConfig (baseUrlArg : option string) (env : string -> option string)
  : Loaded :=
  match orElse baseUrlArg (env "BASE_URL"%string) with
  | None => Failed "BASE_URL environment variable is not set"
  | Some url =>
      if String.eqb url "" then Failed "BASE_URL environment variable is not set"
      else
        match orElse (env "API_TOKEN"%string) None with
        | None => Failed "API_TOKEN environment variable is not set"
        | Some token =>
            match parseSourceDirectionMap (env "SOURCE_DIRECTION_MAP"%string) with
            | None => Crashed
            | Some m =>
                Configured
                  {| baseUrl := url;
                     apiPort :=
                       parseInt (match orElse (env "API_PORT"%string) (Some "3000"%string)
                                 with Some p => p | None => EmptyString end);
                     apiToken := token;
                     cameraApiHost :=
                       match orElse (env "CAMERA_API_HOST"%string)
                                    (Some "http://localhost:3000"%string)
                       with Some h => h | None => EmptyString end;
                     cameraApiToken := env "CAMERA_API_TOKEN"%string;
                     sourceDirectionMap := m |}
            end
        end
  end.

(** [notifyCameraAPI(sourceId)]: the direction posted to the camera API, if
    a request is made at all. *)
Definition notifyCameraAPI (config : option Config) (sourceId : Z) : option string :=
  match config with
  | None => None
  | Some cfg =>
      match orElse (cameraApiToken cfg) None with
      | None => None
      | Some _ =>
          match orElse (mapGet sourceId (sourceDirectionMap cfg)) None with
          | None => None
          | Some direction => Some direction
          end
      end
  end.

(** Every direction is one of the four and no id occurs twice. *)
Definition wellFormedMap (m : list (Z * string)) : Prop :=
  Forall (fun p => In (snd p) directions) m /\ NoDup (map fst m).


Definition exampleEnv (name : string) : option string :=
  if String.eqb name "BASE_URL" then Some "http://localhost:5000"%string
  else if String.eqb name "API_TOKEN" then Some "secret"%string
  else if String.eqb name "CAMERA_API_TOKEN" then Some "camera"%string
  else if String.eqb name "SOURCE_DIRECTION_MAP" then Some "1:N, 2:e,3:x,4:S"%string
  else None.


(** The configuration of an outcome of [loadConfig], if there is one. *)
Definition loadedConfig (l : Loaded) : option Config :=
  match l with
  | Configured cfg => Some cfg
  | _ => None
  end.

(* ------------------------------------------------------------------ *)
(** * Proof steps used throughout *)

Ltac conjuncts :=
  repeat match goal with
         | |- _ /\ _ => split
         end.

Ltac fields :=
  cbn [state listening notifications disk attempts currentTimer shouldStop timers
       nextTimer requests fst snd
       with_state set_notifications set_disk set_attempts set_currentTimer
       set_timers set_requests] in *.

(* ------------------------------------------------------------------ *)
(** * The state file *)

Lemma as_list_nums (l : list Z) : as_list as_num (map JNum l) = Some l.
Proof.
  induction l as [|n l IH]; simpl; [reflexivity|].
  now rewrite IH.
Qed.

Lemma as_item_json_of_item (it : RotationScheduleItem) :
  as_item (json_of_item it) = Some it.
Proof. destruct it; reflexivity. Qed.

Lemma as_list_items (l : list RotationScheduleItem) :
  as_list as_item (map json_of_item l) = Some l.
Proof.
  induction l as [|it l IH]; [reflexivity|].
  cbn [map as_list]. now rewrite as_item_json_of_item, IH.
Qed.

Lemma as_nullable_num (o : option Z) :
  as_nullable as_num (json_of_option JNum o) = Some o.
Proof. destruct o; reflexivity. Qed.

Lemma as_nullable_str (o : option string) :
  as_nullable as_str (json_of_option JStr o) = Some o.
Proof. destruct o; reflexivity. Qed.

Lemma partial_of_stringify (s : SwitcherState) :
  match stringify s with
  | JObj m => partial_of_members m = Some (full s)
  | _ => False
  end.
Proof.
  unfold stringify, partial_of_members, typed_member. cbn [member String.eqb Ascii.eqb Bool.eqb].
  cbn [as_bool option_map as_array].
  rewrite !as_nullable_num, as_nullable_str, as_list_nums, as_list_items.
  reflexivity.
Qed.

Lemma merge_full (s s0 : SwitcherState) : merge (full s) s0 = s.
Proof. destruct s; reflexivity. Qed.

Lemma loadState_stringify (s s0 : SwitcherState) :
  loadState (Parsed (stringify s)) s0 = Some s.
Proof.
  pose proof (partial_of_stringify s) as H.
  unfold loadState. destruct (stringify s); try contradiction.
  rewrite H. cbn [option_map]. now rewrite merge_full.
Qed.

Lemma typed_member_absent {A} (f : json -> option A) k m v :
  typed_member f k m = Some v -> member k m = None -> v = None.
Proof. unfold typed_member. intros H Hm. rewrite Hm in H. congruence. Qed.

Lemma merge_absent (p : Partial.t) (s0 : SwitcherState) :
  (Partial.rotationEnabled p = None ->
   rotationEnabled (merge p s0) = rotationEnabled s0)
  /\ (Partial.fixedSourceId p = None ->
      fixedSourceId (merge p s0) = fixedSourceId s0)
  /\ (Partial.selectedCameraIds p = None ->
      selectedCameraIds (merge p s0) = selectedCameraIds s0)
  /\ (Partial.rotationSchedule p = None ->
      rotationSchedule (merge p s0) = rotationSchedule s0)
  /\ (Partial.currentSourceId p = None ->
      currentSourceId (merge p s0) = currentSourceId s0)
  /\ (Partial.lastSwitchTime p = None ->
      lastSwitchTime (merge p s0) = lastSwitchTime s0)
  /\ (Partial.currentScheduleIndex p = None ->
      currentScheduleIndex (merge p s0) = currentScheduleIndex s0).
Proof.
  destruct p as [a b c d f g h]; cbn [Partial.rotationEnabled Partial.fixedSourceId
    Partial.selectedCameraIds Partial.rotationSchedule Partial.currentSourceId
    Partial.lastSwitchTime Partial.currentScheduleIndex].
  unfold merge, or_keep.
  cbn [Partial.rotationEnabled Partial.fixedSourceId
    Partial.selectedCameraIds Partial.rotationSchedule Partial.currentSourceId
    Partial.lastSwitchTime Partial.currentScheduleIndex].
  destruct a, b, c, d, f, g, h; conjuncts; intros H; try discriminate H; reflexivity.
Qed.

(** C10.  The state written by [saveState] and read back by [loadState], with
    nothing changing the state in between, is the state that was saved,
    member for member, whatever [state] held before the load.  And when a
    state file lacks a member, [loadState] at start-up leaves that member at
    its default. *)
Theorem persist_then_reload :
  forall (e : Env) (emitEvent : bool) (w : World),
    diskOk e (attempts w) = true ->
    (forall s0,
        loadState (disk (saveState e (fun w' => w') emitEvent w)) s0 = Some (state w))
    /\ (forall m s,
           loadState (Parsed (JObj m)) defaultState = Some s ->
           (member "rotationEnabled" m = None ->
            rotationEnabled s = rotationEnabled defaultState)
           /\ (member "fixedSourceId" m = None ->
               fixedSourceId s = fixedSourceId defaultState)
           /\ (member "selectedCameraIds" m = None ->
               selectedCameraIds s = selectedCameraIds defaultState)
           /\ (member "rotationSchedule" m = None ->
               rotationSchedule s = rotationSchedule defaultState)
           /\ (member "currentSourceId" m = None ->
               currentSourceId s = currentSourceId defaultState)
           /\ (member "lastSwitchTime" m = None ->
               lastSwitchTime s = lastSwitchTime defaultState)
           /\ (member "currentScheduleIndex" m = None ->
               currentScheduleIndex s = currentScheduleIndex defaultState)).
Proof.
  intros e emitEvent w Hok. split.
  - intros s0. unfold saveState, emit. rewrite Hok. fields.
    assert (Hd : forall w1 : World,
               disk w1 = Parsed (stringify (state w)) ->
               loadState (disk w1) s0 = Some (state w)).
    { intros w1 ->. apply loadState_stringify. }
    destruct emitEvent; [destruct (listening w)|]; apply Hd; reflexivity.
  - intros m s Hload. unfold loadState in Hload.
    destruct (partial_of_members m) as [p|] eqn:Ep; [|discriminate].
    cbn [option_map] in Hload. injection Hload as <-.
    unfold partial_of_members in Ep.
    destruct (typed_member as_bool "rotationEnabled" m) as [a|] eqn:Ea; [|discriminate].
    destruct (typed_member (as_nullable as_num) "fixedSourceId" m) as [b|] eqn:Eb;
      [|discriminate].
    destruct (typed_member (as_array as_num) "selectedCameraIds" m) as [c|] eqn:Ec;
      [|discriminate].
    destruct (typed_member (as_array as_item) "rotationSchedule" m) as [d|] eqn:Ed;
      [|discriminate].
    destruct (typed_member (as_nullable as_num) "currentSourceId" m) as [f|] eqn:Ef;
      [|discriminate].
    destruct (typed_member (as_nullable as_str) "lastSwitchTime" m) as [g|] eqn:Eg;
      [|discriminate].
    destruct (typed_member (as_nullable as_num) "currentScheduleIndex" m) as [h|] eqn:Eh;
      [|discriminate].
    injection Ep as <-.
    destruct (merge_absent
                {| Partial.rotationEnabled := a; Partial.fixedSourceId := b;
                   Partial.selectedCameraIds := c; Partial.rotationSchedule := d;
                   Partial.currentSourceId := f; Partial.lastSwitchTime := g;
                   Partial.currentScheduleIndex := h |} defaultState)
      as (M1 & M2 & M3 & M4 & M5 & M6 & M7).
    conjuncts; intros Hm.
    + apply M1. exact (typed_member_absent _ _ _ _ Ea Hm).
    + apply M2. exact (typed_member_absent _ _ _ _ Eb Hm).
    + apply M3. exact (typed_member_absent _ _ _ _ Ec Hm).
    + apply M4. exact (typed_member_absent _ _ _ _ Ed Hm).
    + apply M5. exact (typed_member_absent _ _ _ _ Ef Hm).
    + apply M6. exact (typed_member_absent _ _ _ _ Eg Hm).
    + apply M7. exact (typed_member_absent _ _ _ _ Eh Hm).
Qed.

(** Scenario A after its first switch: what is read back from the file is
    what was in memory when it was written; and a file that only says
    [{"rotationEnabled": true}] leaves the schedule empty. *)
Lemma persist_then_reload_witness :
  let w := fst (switchToSource fair 1 scenarioA) in
  loadState (disk (saveState fair (fun w' => w') false w)) defaultState
    = Some (state w)
  /\ option_map rotationSchedule
       (loadState (Parsed (JObj [("rotationEnabled"%string, JBool true)]))
                  defaultState)
     = Some [].
Proof.
  destruct (persist_then_reload fair false (fst (switchToSource fair 1 scenarioA)))
    as [H1 H2]; [reflexivity|].
  split; [apply H1|].
  destruct (H2 [("rotationEnabled"%string, JBool true)]
               (set_rotationEnabled true defaultState) eq_refl)
    as (_ & _ & _ & H & _).
  cbn [loadState partial_of_members]. 
  change (Some (rotationSchedule (set_rotationEnabled true defaultState)) = Some []).
  now rewrite (H eq_refl).
Defined.

(* ------------------------------------------------------------------ *)
(** * What each function leaves alone *)

Ltac split_cases :=
  repeat match goal with
         | |- context [match ?x with _ => _ end] =>
             lazymatch x with
             | context [match _ with _ => _ end] => fail
             | _ => destruct x eqn:?
             end
         end.

Lemma saveState_false_any (e : Env) (handler : World -> World) (w : World) :
  saveState e handler false w = saveState_false e w.
Proof. unfold saveState_false, saveState. now destruct (diskOk e (attempts w)). Qed.

(** An observation of the world that the writes, the switch requests, the
    timer operations and the assignments to the index do not change is not
    changed by [processRotation]. *)
Section Unchanged.
Context {A : Type} (f : World -> A).
Hypothesis f_save : forall e w, f (saveState_false e w) = f w.
Hypothesis f_switch : forall e i w, f (fst (switchToSource e i w)) = f w.
Hypothesis f_index : forall v w, f (with_state (set_currentScheduleIndex v) w) = f w.
Hypothesis f_arm : forall d w, f (arm d w) = f w.
Hypothesis f_cancel : forall w, f (cancelCurrentTimer w) = f w.

Lemma handleFixedSource_unchanged e sources w :
  f (handleFixedSource e sources w) = f w.
Proof. unfold handleFixedSource. split_cases; auto. Qed.

Lemma processRotation_unchanged e sources w :
  f (processRotation e sources w) = f w.
Proof.
  unfold processRotation.
  destruct (shouldStop w); [reflexivity|].
  destruct (negb (rotationEnabled (state (cancelCurrentTimer w)))).
  - rewrite handleFixedSource_unchanged.
    destruct (currentScheduleIndex (state (cancelCurrentTimer w)));
      now rewrite ?f_save, ?f_index, f_cancel.
  - destruct (scheduleLength (state (cancelCurrentTimer w)) =? 0); [apply f_cancel|].
    match goal with
    | |- context [item_at ?s ?i] => destruct (item_at s i)
    end.
    + match goal with
      | |- context [find ?p ?l] => destruct (find p l)
      end;
        rewrite f_arm, ?f_index, ?f_save, ?f_switch, ?f_index;
        destruct (index_unusable (state (cancelCurrentTimer w)));
        now rewrite ?f_save, ?f_index, f_cancel.
    + destruct (index_unusable (state (cancelCurrentTimer w)));
        now rewrite ?f_save, ?f_index, f_cancel.
Qed.
End Unchanged.

Lemma saveState_false_state e w : state (saveState_false e w) = state w.
Proof. unfold saveState_false, saveState. now destruct (diskOk e (attempts w)). Qed.

Lemma saveState_false_notifications e w :
  notifications (saveState_false e w) = notifications w.
Proof. unfold saveState_false, saveState. now destruct (diskOk e (attempts w)). Qed.

Lemma saveState_false_listening e w : listening (saveState_false e w) = listening w.
Proof. unfold saveState_false, saveState. now destruct (diskOk e (attempts w)). Qed.

Lemma saveState_false_shouldStop e w : shouldStop (saveState_false e w) = shouldStop w.
Proof. unfold saveState_false, saveState. now destruct (diskOk e (attempts w)). Qed.

Lemma saveState_false_timers e w : timers (saveState_false e w) = timers w.
Proof. unfold saveState_false, saveState. now destruct (diskOk e (attempts w)). Qed.

Lemma saveState_false_nextTimer e w : nextTimer (saveState_false e w) = nextTimer w.
Proof. unfold saveState_false, saveState. now destruct (diskOk e (attempts w)). Qed.

Lemma saveState_false_currentTimer e w :
  currentTimer (saveState_false e w) = currentTimer w.
Proof. unfold saveState_false, saveState. now destruct (diskOk e (attempts w)). Qed.

Lemma saveState_false_requests e w : requests (saveState_false e w) = requests w.
Proof. unfold saveState_false, saveState. now destruct (diskOk e (attempts w)). Qed.

Lemma saveState_false_attempts e w :
  attempts (saveState_false e w) = S (attempts w).
Proof. unfold saveState_false, saveState. now destruct (diskOk e (attempts w)). Qed.

Lemma saveState_false_disk e w :
  disk (saveState_false e w) =
    if diskOk e (attempts w) then Parsed (stringify (state w)) else disk w.
Proof. unfold saveState_false, saveState. now destruct (diskOk e (attempts w)). Qed.

Create Rewrite HintDb world.

#[local] Hint Rewrite saveState_false_state saveState_false_notifications
  saveState_false_listening saveState_false_shouldStop saveState_false_timers
  saveState_false_nextTimer saveState_false_currentTimer saveState_false_requests
  saveState_false_attempts : world.

Lemma arm_state d w : state (arm d w) = state w.
Proof. reflexivity. Qed.

Lemma arm_timers d w : timers (arm d w) = timers w ++ [(nextTimer w, d)].
Proof. reflexivity. Qed.

Lemma arm_currentTimer d w : currentTimer (arm d w) = Some (nextTimer w).
Proof. reflexivity. Qed.

Lemma arm_nextTimer d w : nextTimer (arm d w) = S (nextTimer w).
Proof. reflexivity. Qed.

Lemma arm_requests d w : requests (arm d w) = requests w.
Proof. reflexivity. Qed.

Lemma arm_disk d w : disk (arm d w) = disk w.
Proof. reflexivity. Qed.

Lemma arm_notifications d w : notifications (arm d w) = notifications w.
Proof. reflexivity. Qed.

Lemma arm_attempts d w : attempts (arm d w) = attempts w.
Proof. reflexivity. Qed.

#[local] Hint Rewrite arm_state arm_timers arm_currentTimer arm_nextTimer arm_requests
  arm_disk arm_notifications arm_attempts : world.

Lemma cancel_state w : state (cancelCurrentTimer w) = state w.
Proof. unfold cancelCurrentTimer. now destruct (currentTimer w). Qed.

Lemma cancel_notifications w : notifications (cancelCurrentTimer w) = notifications w.
Proof. unfold cancelCurrentTimer. now destruct (currentTimer w). Qed.

Lemma cancel_listening w : listening (cancelCurrentTimer w) = listening w.
Proof. unfold cancelCurrentTimer. now destruct (currentTimer w). Qed.

Lemma cancel_shouldStop w : shouldStop (cancelCurrentTimer w) = shouldStop w.
Proof. unfold cancelCurrentTimer. now destruct (currentTimer w). Qed.

Lemma cancel_requests w : requests (cancelCurrentTimer w) = requests w.
Proof. unfold cancelCurrentTimer. now destruct (currentTimer w). Qed.

Lemma cancel_disk w : disk (cancelCurrentTimer w) = disk w.
Proof. unfold cancelCurrentTimer. now destruct (currentTimer w). Qed.

Lemma cancel_attempts w : attempts (cancelCurrentTimer w) = attempts w.
Proof. unfold cancelCurrentTimer. now destruct (currentTimer w). Qed.

Lemma cancel_nextTimer w : nextTimer (cancelCurrentTimer w) = nextTimer w.
Proof. unfold cancelCurrentTimer. now destruct (currentTimer w). Qed.

Lemma cancel_currentTimer w : currentTimer (cancelCurrentTimer w) = None.
Proof. unfold cancelCurrentTimer. now destruct (currentTimer w) eqn:E. Qed.

#[local] Hint Rewrite cancel_state cancel_notifications cancel_listening
  cancel_shouldStop cancel_requests cancel_disk cancel_attempts cancel_nextTimer
  cancel_currentTimer : world.

Lemma switchToSource_requests e i w :
  requests (fst (switchToSource e i w)) = requests w ++ [i].
Proof.
  unfold switchToSource.
  destruct (fetchResp e (List.length (requests w))); cbn [fst];
    now autorewrite with world.
Qed.

Lemma switchToSource_notifications e i w :
  notifications (fst (switchToSource e i w)) = notifications w.
Proof.
  unfold switchToSource.
  destruct (fetchResp e (List.length (requests w))); cbn [fst];
    now autorewrite with world.
Qed.

Lemma switchToSource_listening e i w :
  listening (fst (switchToSource e i w)) = listening w.
Proof.
  unfold switchToSource.
  destruct (fetchResp e (List.length (requests w))); cbn [fst];
    now autorewrite with world.
Qed.

Lemma switchToSource_shouldStop e i w :
  shouldStop (fst (switchToSource e i w)) = shouldStop w.
Proof.
  unfold switchToSource.
  destruct (fetchResp e (List.length (requests w))); cbn [fst];
    now autorewrite with world.
Qed.

Lemma switchToSource_timers e i w :
  timers (fst (switchToSource e i w)) = timers w.
Proof.
  unfold switchToSource.
  destruct (fetchResp e (List.length (requests w))); cbn [fst];
    now autorewrite with world.
Qed.

Lemma switchToSource_nextTimer e i w :
  nextTimer (fst (switchToSource e i w)) = nextTimer w.
Proof.
  unfold switchToSource.
  destruct (fetchResp e (List.length (requests w))); cbn [fst];
    now autorewrite with world.
Qed.

Lemma switchToSource_currentTimer e i w :
  currentTimer (fst (switchToSource e i w)) = currentTimer w.
Proof.
  unfold switchToSource.
  destruct (fetchResp e (List.length (requests w))); cbn [fst];
    now autorewrite with world.
Qed.

#[local] Hint Rewrite switchToSource_requests switchToSource_notifications
  switchToSource_listening switchToSource_shouldStop switchToSource_timers
  switchToSource_nextTimer switchToSource_currentTimer : world.

(** What a switch request does to the state, by the answer it gets. *)
Lemma switchToSource_state e i w :
  state (fst (switchToSource e i w)) =
    match fetchResp e (List.length (requests w)) with
    | Ok => set_lastSwitchTime (Some (now e (List.length (requests w))))
              (set_currentSourceId (Some i) (state w))
    | _ => state w
    end.
Proof.
  unfold switchToSource.
  destruct (fetchResp e (List.length (requests w))); cbn [fst];
    now autorewrite with world.
Qed.

Lemma processRotation_notifications e sources w :
  notifications (processRotation e sources w) = notifications w.
Proof.
  apply (processRotation_unchanged notifications); intros;
    now autorewrite with world.
Qed.

Lemma processRotation_listening e sources w :
  listening (processRotation e sources w) = listening w.
Proof.
  apply (processRotation_unchanged listening); intros;
    now autorewrite with world.
Qed.

Lemma processRotation_shouldStop e sources w :
  shouldStop (processRotation e sources w) = shouldStop w.
Proof.
  apply (processRotation_unchanged shouldStop); intros;
    now autorewrite with world.
Qed.

(* ------------------------------------------------------------------ *)
(** * Notifications *)

Lemma stateChanged_notifications e sources w :
  notifications (stateChanged e sources w) = notifications w.
Proof.
  unfold stateChanged.
  now rewrite processRotation_notifications, cancel_notifications.
Qed.

Lemma timerFired_notifications e sources h w :
  notifications (timerFired e sources h w) = notifications w.
Proof.
  unfold timerFired. destruct (existsb _ (timers w)); [|reflexivity].
  now rewrite processRotation_notifications.
Qed.

Lemma saveState_true_notifications e sources w :
  notifications (saveState e (stateChanged e sources) true w) =
    (notifications w + if diskOk e (attempts w) then 1 else 0)%nat.
Proof.
  unfold saveState, emit. fields.
  destruct (diskOk e (attempts w)); fields; [|lia].
  destruct (listening w); [rewrite stateChanged_notifications|]; fields; lia.
Qed.

Lemma react_notifications e sources t w :
  notifications (react e sources t w) =
    (notifications w
     + if isConfiguration t && diskOk e (attempts w) then 1 else 0)%nat.
Proof.
  destruct t; cbn [react isConfiguration andb];
    unfold putState, putSchedule, putCameras;
    rewrite ?saveState_true_notifications, ?processRotation_notifications,
      ?switchToSource_notifications, ?timerFired_notifications;
    fields; lia.
Qed.

Lemma persistedConfigurations_all e sources ts w :
  (forall k, diskOk e k = true) ->
  persistedConfigurations e sources ts w = configurations ts.
Proof.
  intros Hok. revert w.
  induction ts as [|t ts IH]; intros w; [reflexivity|].
  cbn [persistedConfigurations]. rewrite IH, Hok, andb_true_r.
  unfold configurations. cbn [filter].
  destruct (isConfiguration t); reflexivity.
Qed.

(** C1 (as amended).  A configuration mutation emits one change notification
    when its write to the state file succeeds and none when it fails, however
    many members the request carries.  A sequence of triggers, configuration
    mutations interleaved with operational ones, therefore emits as many
    notifications as it has configuration mutations whose write succeeded: N
    for N configuration mutations when no write fails. *)
Theorem configuration_notifications :
  forall (e : Env) (sources : list Source),
    (forall t w,
        isConfiguration t = true ->
        notifications (react e sources t w) =
          if diskOk e (attempts w) then S (notifications w) else notifications w)
    /\ (forall ts w,
           notifications (reactAll e sources ts w) =
             (notifications w + persistedConfigurations e sources ts w)%nat)
    /\ (forall ts w,
           (forall k, diskOk e k = true) ->
           notifications (reactAll e sources ts w) =
             (notifications w + configurations ts)%nat).
Proof.
  intros e sources.
  assert (Hall : forall ts w,
             notifications (reactAll e sources ts w) =
               (notifications w + persistedConfigurations e sources ts w)%nat).
  { unfold reactAll.
    induction ts as [|t ts IH]; intros w; cbn [fold_left persistedConfigurations].
    - lia.
    - rewrite IH, react_notifications. lia. }
  split; [|split].
  - intros t w Ht. rewrite react_notifications, Ht. cbn [andb].
    destruct (diskOk e (attempts w)); lia.
  - exact Hall.
  - intros ts w Hok. now rewrite Hall, persistedConfigurations_all.
Qed.

(** Two configuration mutations around a re-evaluation, on a disk that works:
    two notifications. *)
Lemma configuration_notifications_witness :
  notifications
    (reactAll fair camerasA [Configure disableRotation; Reevaluate; Cameras [1]]
       scenarioA) = 2%nat.
Proof.
  destruct (configuration_notifications fair camerasA) as [_ [_ H]].
  rewrite H; [reflexivity|].
  intros k. reflexivity.
Defined.

(** C1, counterexample.  The state file cannot be written: [PUT /api/state]
    with [{rotationEnabled: false}] changes the state in memory and emits
    nothing. *)
Lemma put_state_unwritable_emits_nothing :
  notifications (putState diskFull camerasA disableRotation oneCamera)
    <> S (notifications oneCamera)
  /\ rotationEnabled (state (putState diskFull camerasA disableRotation oneCamera))
     = false
  /\ rotationEnabled (state oneCamera) = true.
Proof.
  split; [intro H; vm_compute in H; discriminate|].
  split; vm_compute; reflexivity.
Qed.

(* ------------------------------------------------------------------ *)
(** * The branches of [processRotation] *)

Lemma getAvailableSources_selected st st' sources :
  selectedCameraIds st = selectedCameraIds st' ->
  getAvailableSources st sources = getAvailableSources st' sources.
Proof. unfold getAvailableSources. now intros ->. Qed.

Lemma scheduleLength_pos st :
  rotationSchedule st <> [] -> 0 < scheduleLength st.
Proof.
  unfold scheduleLength. destruct (rotationSchedule st); [congruence|].
  cbn [List.length]. lia.
Qed.

Lemma usableIndex_range st :
  rotationSchedule st <> [] ->
  (forall i, currentScheduleIndex st = Some i -> 0 <= i) ->
  0 <= usableIndex st < scheduleLength st.
Proof.
  intros Hne Hpos. pose proof (scheduleLength_pos st Hne).
  unfold usableIndex, index_unusable.
  destruct (currentScheduleIndex st) as [i|] eqn:Ei; [|lia].
  destruct (scheduleLength st <=? i) eqn:El; [lia|].
  apply Z.leb_gt in El. specialize (Hpos i eq_refl). cbn [toNumber]. lia.
Qed.

Lemma item_at_in_range schedule i :
  0 <= i < Z.of_nat (List.length schedule) ->
  exists it, item_at schedule i = Some it.
Proof.
  intros Hi. unfold item_at.
  destruct (i <? 0) eqn:E; [apply Z.ltb_lt in E; lia|].
  destruct (nth_error schedule (Z.to_nat i)) as [it|] eqn:En; [now exists it|].
  apply nth_error_None in En. lia.
Qed.

Lemma prepared_index e w :
  currentScheduleIndex (state (prepared e w)) = Some (usableIndex (state w)).
Proof.
  unfold prepared, usableIndex.
  destruct (index_unusable (state w)) eqn:E; autorewrite with world; fields.
  - reflexivity.
  - unfold index_unusable in E.
    now destruct (currentScheduleIndex (state w)).
Qed.

Lemma prepared_state e w :
  state (prepared e w) =
    set_currentScheduleIndex (Some (usableIndex (state w))) (state w).
Proof.
  unfold prepared, usableIndex.
  destruct (index_unusable (state w)) eqn:E; autorewrite with world; fields.
  - now rewrite cancel_state.
  - unfold index_unusable in E.
    destruct (state w) as [a b c d f g [i|]]; cbn in *; [reflexivity|discriminate].
Qed.

(** [processRotation] while rotation is enabled and the schedule is not empty. *)
Lemma processRotation_active e sources w :
  shouldStop w = false ->
  rotationEnabled (state w) = true ->
  rotationSchedule (state w) <> [] ->
  (forall i, currentScheduleIndex (state w) = Some i -> 0 <= i) ->
  exists it,
    item_at (rotationSchedule (state w)) (usableIndex (state w)) = Some it /\
    processRotation e sources w =
      if resolves (state w) sources (cameraId it)
      then
        let w1 := saveState_false e (fst (switchToSource e (cameraId it) (prepared e w))) in
        arm (durationSeconds it * 1000)
            (with_state (set_currentScheduleIndex
                           (Some ((usableIndex (state w) + 1) mod scheduleLength (state w))))
                        w1)
      else
        arm 5000
            (saveState_false e
               (with_state (set_currentScheduleIndex
                              (Some ((usableIndex (state w) + 1) mod scheduleLength (state w))))
                           (prepared e w))).
Proof.
  intros Hstop Hen Hne Hpos.
  pose proof (usableIndex_range _ Hne Hpos) as Hu.
  pose proof (scheduleLength_pos _ Hne) as Hlen.
  destruct (item_at_in_range (rotationSchedule (state w)) (usableIndex (state w)) Hu)
    as [it Hit].
  exists it. split; [exact Hit|].
  unfold processRotation. rewrite Hstop, cancel_state, Hen. cbn [negb].
  destruct (scheduleLength (state w) =? 0) eqn:E0; [apply Z.eqb_eq in E0; lia|].
  fold (prepared e w).
  assert (Hidx := prepared_index e w).
  assert (Hst := prepared_state e w).
  assert (Hsched : rotationSchedule (state (prepared e w)) = rotationSchedule (state w))
    by now rewrite Hst.
  assert (Hl : scheduleLength (state (prepared e w)) = scheduleLength (state w))
    by (unfold scheduleLength; now rewrite Hsched).
  rewrite Hidx, Hsched, Hl. cbn [toNumber].
  rewrite Z.rem_small by lia. rewrite Hit.
  unfold resolves.
  rewrite (getAvailableSources_selected (state (prepared e w)) (state w))
    by now rewrite Hst.
  destruct (find _ (getAvailableSources (state w) sources)).
  - cbv zeta. f_equal. f_equal. f_equal. f_equal.
    unfold nextIndex, scheduleLength.
    autorewrite with world. rewrite switchToSource_state.
    assert (Hk : forall st',
               currentScheduleIndex st' = Some (usableIndex (state w)) ->
               rotationSchedule st' = rotationSchedule (state w) ->
               Z.rem (toNumber (currentScheduleIndex st') + 1)
                     (Z.of_nat (List.length (rotationSchedule st'))) =
                 (usableIndex (state w) + 1) mod
                   Z.of_nat (List.length (rotationSchedule (state w)))).
    { intros st' -> ->. cbn [toNumber]. apply Z.rem_mod_nonneg; unfold scheduleLength in *; lia. }
    destruct (fetchResp e _); apply Hk; cbn; assumption.
  - f_equal. f_equal. f_equal. f_equal. f_equal.
    unfold nextIndex. rewrite Hidx, Hl. cbn [toNumber].
    apply Z.rem_mod_nonneg; lia.
Qed.

Lemma prepared_requests e w : requests (prepared e w) = requests w.
Proof.
  unfold prepared. destruct (index_unusable (state w));
    autorewrite with world; fields; now autorewrite with world.
Qed.

Lemma prepared_notifications e w : notifications (prepared e w) = notifications w.
Proof.
  unfold prepared. destruct (index_unusable (state w));
    autorewrite with world; fields; now autorewrite with world.
Qed.

Lemma prepared_nextTimer e w : nextTimer (prepared e w) = nextTimer w.
Proof.
  unfold prepared. destruct (index_unusable (state w));
    autorewrite with world; fields; now autorewrite with world.
Qed.

Lemma prepared_currentTimer e w : currentTimer (prepared e w) = None.
Proof.
  unfold prepared. destruct (index_unusable (state w));
    autorewrite with world; fields; now autorewrite with world.
Qed.

Lemma cancel_timers w : oneTimer w -> timers (cancelCurrentTimer w) = [].
Proof.
  unfold oneTimer, cancelCurrentTimer, clearTimeout.
  destruct (currentTimer w) as [h|]; [|easy].
  intros [delay ->]. fields. cbn [filter fst]. now rewrite Nat.eqb_refl.
Qed.

Lemma prepared_timers e w : oneTimer w -> timers (prepared e w) = [].
Proof.
  intros H. unfold prepared. destruct (index_unusable (state w));
    autorewrite with world; fields; now apply cancel_timers.
Qed.

#[local] Hint Rewrite prepared_requests prepared_notifications prepared_nextTimer
  prepared_currentTimer prepared_index : world.

Lemma timerFired_pending e sources h delay w :
  timers w = [(h, delay)] ->
  timerFired e sources h w =
    processRotation e sources (set_currentTimer None (clearTimeout h w)).
Proof.
  intros H. unfold timerFired. rewrite H. cbn [existsb fst].
  now rewrite Nat.eqb_refl.
Qed.

(* ------------------------------------------------------------------ *)
(** * Enabled/Active: the item resolves *)

(** C6 (as amended).  A re-evaluation that runs from its first line to its
    last with nothing else served while it waits (no request to the control
    API, no timer expiry, no other re-evaluation), rotation enabled, schedule
    not empty, the current item's camera resolves and the switch succeeds:
    one switch request for that camera is sent; [currentSourceId] and
    [lastSwitchTime] become the camera and the time of the switch;
    [currentScheduleIndex] becomes, in memory, (index + 1) mod len; no
    notification is emitted; the only pending timer is a new one of
    [durationSeconds] seconds, whose expiry calls [processRotation] again.
    The state file written during the call holds the index of the item
    switched to, not the advanced one.  What a re-evaluation leaves when
    another call runs while it waits is not stated here (see
    [overlapping_calls_arm_two_timers]). *)
Theorem resolved_item_switch_succeeds :
  forall (e : Env) (sources : list Source) (w : World) (it : RotationScheduleItem),
    shouldStop w = false ->
    rotationEnabled (state w) = true ->
    rotationSchedule (state w) <> [] ->
    (forall i, currentScheduleIndex (state w) = Some i -> 0 <= i) ->
    oneTimer w ->
    item_at (rotationSchedule (state w)) (usableIndex (state w)) = Some it ->
    resolves (state w) sources (cameraId it) = true ->
    fetchResp e (List.length (requests w)) = Ok ->
    let w' := processRotation e sources w in
    requests w' = requests w ++ [cameraId it]
    /\ currentSourceId (state w') = Some (cameraId it)
    /\ lastSwitchTime (state w') = Some (now e (List.length (requests w)))
    /\ currentScheduleIndex (state w') =
         Some ((usableIndex (state w) + 1) mod scheduleLength (state w))
    /\ notifications w' = notifications w
    /\ timers w' = [(nextTimer w, durationSeconds it * 1000)]
    /\ currentTimer w' = Some (nextTimer w)
    /\ (forall e', timerFired e' sources (nextTimer w) w' =
                   processRotation e' sources
                     (set_currentTimer None (clearTimeout (nextTimer w) w')))
    /\ ((forall k, diskOk e k = true) ->
        disk w' =
          Parsed (stringify
                    (set_currentScheduleIndex (Some (usableIndex (state w)))
                                              (state w')))).
Proof.
  intros e sources w it Hstop Hen Hne Hpos Hone Hit Hres Hok w'.
  destruct (processRotation_active e sources w Hstop Hen Hne Hpos) as [it' [Hit' Heq]].
  assert (it' = it) by congruence. subst it'.
  rewrite Hres in Heq. cbv zeta in Heq.
  assert (Ht : timers w' = [(nextTimer w, durationSeconds it * 1000)]).
  { subst w'. rewrite Heq. autorewrite with world. fields. autorewrite with world.
    now rewrite prepared_timers. }
  subst w'. rewrite Heq.
  conjuncts.
  - now autorewrite with world; fields; autorewrite with world.
  - autorewrite with world; fields; autorewrite with world.
    rewrite switchToSource_state. autorewrite with world. now rewrite Hok.
  - autorewrite with world; fields; autorewrite with world.
    rewrite switchToSource_state. autorewrite with world. now rewrite Hok.
  - now autorewrite with world; fields.
  - now autorewrite with world; fields; autorewrite with world.
  - now rewrite <- Heq.
  - now autorewrite with world; fields; autorewrite with world.
  - intros e'. rewrite <- Heq.
    now apply timerFired_pending with (delay := durationSeconds it * 1000).
  - intros Hdisk. autorewrite with world. fields.
    rewrite saveState_false_disk, Hdisk. autorewrite with world.
    rewrite switchToSource_state. autorewrite with world. rewrite Hok.
    rewrite prepared_state. reflexivity.
Qed.

(** Scenario A, first re-evaluation: camera 1, index 1, a 60 s timer. *)
Lemma scenarioA_first_switch :
  let w' := processRotation fair camerasA scenarioA in
  requests w' = [1]
  /\ currentSourceId (state w') = Some 1
  /\ lastSwitchTime (state w') = Some noon
  /\ currentScheduleIndex (state w') = Some 1
  /\ notifications w' = 0%nat
  /\ timers w' = [(0%nat, 60000)]
  /\ currentTimer w' = Some 0%nat.
Proof.
  destruct (resolved_item_switch_succeeds fair camerasA scenarioA (item 1 60))
    as (H1 & H2 & H3 & H4 & H5 & H6 & H7 & _);
    try reflexivity.
  - discriminate.
  - intros i H. discriminate H.
  - exact (conj H1 (conj H2 (conj H3 (conj H4 (conj H5 (conj H6 H7)))))).
Defined.

(** Scenario A, after the 60 s: camera 2, index back to 0, a 120 s timer. *)
Example scenarioA_second_switch :
  let w' := timerFired fair camerasA 0 (processRotation fair camerasA scenarioA) in
  requests w' = [1; 2]
  /\ currentSourceId (state w') = Some 2
  /\ currentScheduleIndex (state w') = Some 0
  /\ timers w' = [(1%nat, 120000)].
Proof. vm_compute. repeat split. Qed.

(** C6, counterexample.  Scenario A after the first re-evaluation: the index
    is 1 in memory and 0 in the state file. *)
Lemma scenarioA_file_holds_previous_index :
  currentScheduleIndex (state (processRotation fair camerasA scenarioA)) = Some 1
  /\ option_map currentScheduleIndex
       (loadState (disk (processRotation fair camerasA scenarioA)) defaultState)
     = Some (Some 0)
  /\ disk (processRotation fair camerasA scenarioA)
     <> Parsed (stringify (state (processRotation fair camerasA scenarioA))).
Proof.
  split; [vm_compute; reflexivity|].
  split; [vm_compute; reflexivity|].
  intro H. vm_compute in H. discriminate H.
Qed.

(** C5 (as amended).  Rotation enabled, schedule not empty, the current item's
    camera resolves and the switch request fails: [currentSourceId] and
    [lastSwitchTime] stay as they were; the index still advances to
    (index + 1) mod len in memory; no notification is emitted; the timer armed
    is the item's full [durationSeconds], not a 5 s retry; the state file
    written during the call holds the index before the advance. *)
Theorem resolved_item_switch_fails :
  forall (e : Env) (sources : list Source) (w : World) (it : RotationScheduleItem),
    shouldStop w = false ->
    rotationEnabled (state w) = true ->
    rotationSchedule (state w) <> [] ->
    (forall i, currentScheduleIndex (state w) = Some i -> 0 <= i) ->
    oneTimer w ->
    item_at (rotationSchedule (state w)) (usableIndex (state w)) = Some it ->
    resolves (state w) sources (cameraId it) = true ->
    fetchResp e (List.length (requests w)) <> Ok ->
    let w' := processRotation e sources w in
    requests w' = requests w ++ [cameraId it]
    /\ currentSourceId (state w') = currentSourceId (state w)
    /\ lastSwitchTime (state w') = lastSwitchTime (state w)
    /\ currentScheduleIndex (state w') =
         Some ((usableIndex (state w) + 1) mod scheduleLength (state w))
    /\ notifications w' = notifications w
    /\ timers w' = [(nextTimer w, durationSeconds it * 1000)]
    /\ currentTimer w' = Some (nextTimer w)
    /\ (forall e', timerFired e' sources (nextTimer w) w' =
                   processRotation e' sources
                     (set_currentTimer None (clearTimeout (nextTimer w) w')))
    /\ ((forall k, diskOk e k = true) ->
        disk w' =
          Parsed (stringify
                    (set_currentScheduleIndex (Some (usableIndex (state w)))
                                              (state w')))).
Proof.
  intros e sources w it Hstop Hen Hne Hpos Hone Hit Hres Hfail w'.
  destruct (processRotation_active e sources w Hstop Hen Hne Hpos) as [it' [Hit' Heq]].
  assert (it' = it) by congruence. subst it'.
  rewrite Hres in Heq. cbv zeta in Heq.
  assert (Hst : state (fst (switchToSource e (cameraId it) (prepared e w))) =
                state (prepared e w)).
  { rewrite switchToSource_state. autorewrite with world.
    destruct (fetchResp e (List.length (requests w))); congruence. }
  assert (Ht : timers w' = [(nextTimer w, durationSeconds it * 1000)]).
  { subst w'. rewrite Heq. autorewrite with world. fields. autorewrite with world.
    now rewrite prepared_timers. }
  subst w'. rewrite Heq.
  conjuncts.
  - now autorewrite with world; fields; autorewrite with world.
  - autorewrite with world; fields; autorewrite with world.
    now rewrite Hst, prepared_state.
  - autorewrite with world; fields; autorewrite with world.
    now rewrite Hst, prepared_state.
  - now autorewrite with world; fields.
  - now autorewrite with world; fields; autorewrite with world.
  - now rewrite <- Heq.
  - now autorewrite with world; fields; autorewrite with world.
  - intros e'. rewrite <- Heq.
    now apply timerFired_pending with (delay := durationSeconds it * 1000).
  - intros Hdisk. autorewrite with world. fields.
    rewrite saveState_false_disk, Hdisk. autorewrite with world.
    rewrite Hst, prepared_state. reflexivity.
Qed.

(** One camera on a 60 s slot, the pipeline service down: the fields of the
    last switch stay empty and the next try is 60 s away. *)
Lemma pipeline_down_waits_full_slot :
  let w' := processRotation pipelineDown camerasA oneCamera in
  requests w' = [1]
  /\ currentSourceId (state w') = None
  /\ lastSwitchTime (state w') = None
  /\ currentScheduleIndex (state w') = Some 0
  /\ timers w' = [(0%nat, 60000)].
Proof.
  destruct (resolved_item_switch_fails pipelineDown camerasA oneCamera (item 1 60))
    as (H1 & H2 & H3 & H4 & H5 & H6 & _);
    try reflexivity.
  - discriminate.
  - intros i H. injection H as <-. apply Z.le_refl.
  - discriminate.
  - exact (conj H1 (conj H2 (conj H3 (conj H4 H6)))).
Defined.

(** C5, counterexample.  The camera resolves, the switch request is answered
    with an error, and the timer armed is 60 s, not 5 s. *)
Lemma failed_switch_arms_full_duration :
  resolves (state oneCamera) camerasA 1 = true
  /\ fetchResp pipelineDown 0 <> Ok
  /\ timers (processRotation pipelineDown camerasA oneCamera) = [(0%nat, 60000)]
  /\ timers (processRotation pipelineDown camerasA oneCamera) <> [(0%nat, 5000)].
Proof.
  split; [vm_compute; reflexivity|].
  split; [discriminate|].
  split; [vm_compute; reflexivity|].
  intro H. vm_compute in H. discriminate H.
Qed.

(* ------------------------------------------------------------------ *)
(** * Enabled/Active: which cameras resolve *)

Lemma getAvailableSources_In st sources s :
  In s (getAvailableSources st sources) <->
    In s sources /\ is_enabled s = true /\ source_type s = "srt"%string
    /\ (selectedCameraIds st = [] \/ In (id s) (selectedCameraIds st)).
Proof.
  unfold getAvailableSources.
  assert (Hbase : forall x,
             In x (filter (fun s => is_enabled s && String.eqb (source_type s) "srt")
                          sources) <->
               In x sources /\ is_enabled x = true /\ source_type x = "srt"%string).
  { intros x. rewrite filter_In, andb_true_iff, String.eqb_eq. tauto. }
  destruct (selectedCameraIds st) as [|c cs] eqn:Esel.
  - cbn [List.length Z.of_nat Z.ltb Z.compare]. rewrite Hbase. tauto.
  - assert (Hlen : (0 <? Z.of_nat (List.length (c :: cs))) = true).
    { apply Z.ltb_lt. cbn [List.length]. lia. }
    rewrite Hlen, filter_In, Hbase, existsb_exists.
    split.
    + intros [H [x [Hx Hid]]]. apply Z.eqb_eq in Hid. subst x.
      destruct H as (H1 & H2 & H3). auto.
    + intros (H1 & H2 & H3 & [H4|H4]); [discriminate|].
      split; [tauto|]. exists (id s). split; [assumption|apply Z.eqb_refl].
Qed.

Lemma resolves_iff st sources c :
  resolves st sources c = true <->
    exists s, In s sources /\ id s = c /\ is_enabled s = true
              /\ source_type s = "srt"%string
              /\ (selectedCameraIds st = [] \/ In c (selectedCameraIds st)).
Proof.
  unfold resolves.
  destruct (find (fun s => id s =? c) (getAvailableSources st sources)) as [s|] eqn:E.
  - apply find_some in E. destruct E as [Hin Hid]. apply Z.eqb_eq in Hid.
    apply getAvailableSources_In in Hin.
    split; [intros _|reflexivity].
    exists s. subst c. tauto.
  - split; [discriminate|].
    intros [s (H1 & H2 & H3 & H4 & H5)]. exfalso.
    assert (Hin : In s (getAvailableSources st sources)).
    { apply getAvailableSources_In. subst c. tauto. }
    pose proof (find_none _ _ E s Hin) as Hn. cbv beta in Hn.
    apply Z.eqb_neq in Hn. contradiction.
Qed.

(** C7 (as amended).  Rotation enabled, schedule not empty.  The current
    item's camera resolves exactly when the source list holds a source with
    that id that is enabled, of type "srt" and, when [selectedCameraIds] is
    not empty, whose id is among them; the health flag of the source plays no
    part.  A camera that resolves gets a switch request.  A camera that does
    not resolve gets none: the fields of the last switch stay, the index
    advances to (index + 1) mod len and is written to the state file, no
    notification is emitted, and the only pending timer is a 5 s retry. *)
Theorem item_resolution :
  forall (e : Env) (sources : list Source) (w : World) (it : RotationScheduleItem),
    shouldStop w = false ->
    rotationEnabled (state w) = true ->
    rotationSchedule (state w) <> [] ->
    (forall i, currentScheduleIndex (state w) = Some i -> 0 <= i) ->
    oneTimer w ->
    item_at (rotationSchedule (state w)) (usableIndex (state w)) = Some it ->
    let w' := processRotation e sources w in
    (resolves (state w) sources (cameraId it) = true <->
       exists s, In s sources /\ id s = cameraId it /\ is_enabled s = true
                 /\ source_type s = "srt"%string
                 /\ (selectedCameraIds (state w) = []
                     \/ In (cameraId it) (selectedCameraIds (state w))))
    /\ (resolves (state w) sources (cameraId it) = true ->
        requests w' = requests w ++ [cameraId it])
    /\ (resolves (state w) sources (cameraId it) = false ->
        requests w' = requests w
        /\ currentSourceId (state w') = currentSourceId (state w)
        /\ lastSwitchTime (state w') = lastSwitchTime (state w)
        /\ currentScheduleIndex (state w') =
             Some ((usableIndex (state w) + 1) mod scheduleLength (state w))
        /\ notifications w' = notifications w
        /\ timers w' = [(nextTimer w, 5000)]
        /\ currentTimer w' = Some (nextTimer w)
        /\ ((forall k, diskOk e k = true) ->
            disk w' = Parsed (stringify (state w')))).
Proof.
  intros e sources w it Hstop Hen Hne Hpos Hone Hit w'.
  destruct (processRotation_active e sources w Hstop Hen Hne Hpos) as [it' [Hit' Heq]].
  assert (it' = it) by congruence. subst it'.
  split; [apply resolves_iff|].
  split; intros Hres; rewrite Hres in Heq; cbv zeta in Heq; subst w'; rewrite Heq.
  - now autorewrite with world; fields; autorewrite with world.
  - conjuncts.
    + now autorewrite with world; fields; autorewrite with world.
    + autorewrite with world; fields. now rewrite prepared_state.
    + autorewrite with world; fields. now rewrite prepared_state.
    + now autorewrite with world; fields.
    + now autorewrite with world; fields; autorewrite with world.
    + autorewrite with world; fields; autorewrite with world.
      now rewrite prepared_timers.
    + now autorewrite with world; fields; autorewrite with world.
    + intros Hdisk. autorewrite with world.
      rewrite saveState_false_disk, Hdisk. reflexivity.
Qed.

(** Scenario C: camera 9 is disabled; no switch, the index wraps to 0, and the
    retry is 5 s away instead of 30 s. *)
Lemma scenarioC_skips_disabled_camera :
  let w' := processRotation fair camerasC scenarioC in
  resolves (state scenarioC) camerasC 9 = false
  /\ requests w' = []
  /\ currentScheduleIndex (state w') = Some 0
  /\ timers w' = [(0%nat, 5000)]
  /\ disk w' = Parsed (stringify (state w')).
Proof.
  destruct (item_resolution fair camerasC scenarioC (item 9 30))
    as (_ & _ & H); try reflexivity.
  - discriminate.
  - intros i Hi. discriminate Hi.
  - destruct (H eq_refl) as (H1 & _ & _ & H4 & _ & H6 & _ & H8).
    exact (conj eq_refl (conj H1 (conj H4 (conj H6 (H8 (fun _ => eq_refl)))))).
Defined.

(** Scenario D: camera 2 is enabled and healthy but not selected. *)
Example scenarioD_skips_unselected_camera :
  let w' := processRotation fair camerasD scenarioD in
  resolves (state scenarioD) camerasD 2 = false
  /\ requests w' = []
  /\ timers w' = [(0%nat, 5000)].
Proof. vm_compute. repeat split. Qed.

(** C7, counterexample.  Camera 1 is enabled and unhealthy: it resolves, the
    switch request is sent and the timer is the full 60 s. *)
Lemma unhealthy_camera_resolves :
  map is_healthy camerasUnhealthy = [Some false]
  /\ resolves (state oneCamera) camerasUnhealthy 1 = true
  /\ requests (processRotation fair camerasUnhealthy oneCamera) = [1]
  /\ currentSourceId (state (processRotation fair camerasUnhealthy oneCamera)) = Some 1
  /\ timers (processRotation fair camerasUnhealthy oneCamera) = [(0%nat, 60000)].
Proof. vm_compute. repeat split. Qed.

(* ------------------------------------------------------------------ *)
(** * Rotation disabled *)

Lemma processRotation_disabled e sources w :
  shouldStop w = false ->
  rotationEnabled (state w) = false ->
  processRotation e sources w = handleFixedSource e sources (cleared e w).
Proof.
  intros Hstop Hen. unfold processRotation, cleared.
  now rewrite Hstop, cancel_state, Hen.
Qed.

Lemma cleared_state e w :
  state (cleared e w) = set_currentScheduleIndex None (state w).
Proof.
  unfold cleared. rewrite cancel_state.
  destruct (currentScheduleIndex (state w)) eqn:E;
    autorewrite with world; fields; autorewrite with world; [reflexivity|].
  destruct (state w); cbn in *. now subst.
Qed.

Lemma cleared_requests e w : requests (cleared e w) = requests w.
Proof.
  unfold cleared. destruct (currentScheduleIndex _);
    autorewrite with world; fields; now autorewrite with world.
Qed.

Lemma cleared_notifications e w : notifications (cleared e w) = notifications w.
Proof.
  unfold cleared. destruct (currentScheduleIndex _);
    autorewrite with world; fields; now autorewrite with world.
Qed.

Lemma cleared_nextTimer e w : nextTimer (cleared e w) = nextTimer w.
Proof.
  unfold cleared. destruct (currentScheduleIndex _);
    autorewrite with world; fields; now autorewrite with world.
Qed.

Lemma cleared_currentTimer e w : currentTimer (cleared e w) = None.
Proof.
  unfold cleared. destruct (currentScheduleIndex _);
    autorewrite with world; fields; now autorewrite with world.
Qed.

Lemma cleared_timers e w : oneTimer w -> timers (cleared e w) = [].
Proof.
  intros H. unfold cleared. destruct (currentScheduleIndex _);
    autorewrite with world; fields; now apply cancel_timers.
Qed.

#[local] Hint Rewrite cleared_requests cleared_notifications cleared_nextTimer
  cleared_currentTimer : world.

Lemma differs_true a b : differs a b = true <-> a <> b.
Proof.
  destruct a as [x|], b as [y|]; cbn.
  - rewrite negb_true_iff, Z.eqb_neq. split; congruence.
  - split; [discriminate|reflexivity].
  - split; [discriminate|reflexivity].
  - split; [discriminate|congruence].
Qed.

(** C8.  Rotation disabled and [fixedSourceId] found, enabled, in the source
    list: [processRotation] sends one switch request for it when
    [currentSourceId] differs from it and none when they are equal; the index
    is [null] afterwards; no timer is armed and none stays pending; no
    notification is emitted. *)
Theorem fixed_source_mode :
  forall (e : Env) (sources : list Source) (w : World) (fixed : Z) (source : Source),
    shouldStop w = false ->
    rotationEnabled (state w) = false ->
    fixedSourceId (state w) = Some fixed ->
    find (fun s => id s =? fixed) sources = Some source ->
    is_enabled source = true ->
    oneTimer w ->
    let w' := processRotation e sources w in
    (currentSourceId (state w) <> Some fixed -> requests w' = requests w ++ [fixed])
    /\ (currentSourceId (state w) = Some fixed -> requests w' = requests w)
    /\ currentScheduleIndex (state w') = None
    /\ currentTimer w' = None
    /\ timers w' = []
    /\ nextTimer w' = nextTimer w
    /\ notifications w' = notifications w.
Proof.
  intros e sources w fixed source Hstop Hen Hfix Hfind Hsrc Hone w'.
  subst w'. rewrite (processRotation_disabled e sources w Hstop Hen).
  unfold handleFixedSource.
  rewrite cleared_state. cbn [fixedSourceId currentSourceId set_currentScheduleIndex].
  rewrite Hfix, Hfind, Hsrc.
  destruct (differs (currentSourceId (state w)) (Some fixed)) eqn:Ed.
  - apply differs_true in Ed.
    conjuncts; try (intros; autorewrite with world; reflexivity).
    + intros H; contradiction.
    + rewrite switchToSource_state, cleared_state.
      now destruct (fetchResp e _).
    + autorewrite with world. now apply cleared_timers.
  - assert (Heq : currentSourceId (state w) = Some fixed).
    { destruct (currentSourceId (state w)) as [c|] eqn:Ec; cbn in Ed; [|discriminate].
      apply negb_false_iff, Z.eqb_eq in Ed. now subst. }
    conjuncts; try (intros; autorewrite with world; reflexivity).
    + intros H; contradiction.
    + now rewrite cleared_state.
    + now apply cleared_timers.
Qed.

(** Scenario B: on camera 3 with fixed source 5: one switch to 5 and no timer. *)
Lemma scenarioB_one_switch_then_idle :
  let w' := processRotation fair camerasB scenarioB in
  requests w' = [5]
  /\ currentScheduleIndex (state w') = None
  /\ currentTimer w' = None
  /\ timers w' = []
  /\ notifications w' = 0%nat.
Proof.
  destruct (fixed_source_mode fair camerasB scenarioB 5 (camera 5 true true))
    as (H1 & _ & H3 & H4 & H5 & _ & H7); try reflexivity.
  exact (conj (H1 ltac:(discriminate)) (conj H3 (conj H4 (conj H5 H7)))).
Defined.

(** Once on the fixed source, a further re-evaluation sends nothing. *)
Example scenarioB_second_reevaluation :
  let w' := processRotation fair camerasB (processRotation fair camerasB scenarioB) in
  requests w' = [5] /\ timers w' = [].
Proof. vm_compute. repeat split. Qed.

(* ------------------------------------------------------------------ *)
(** * Failed switch requests *)

Lemma switchToSource_fails e i w :
  fetchResp e (List.length (requests w)) <> Ok ->
  state (fst (switchToSource e i w)) = state w
  /\ disk (fst (switchToSource e i w)) = disk w
  /\ snd (switchToSource e i w) = false.
Proof.
  intros H. unfold switchToSource.
  destruct (fetchResp e (List.length (requests w))); [contradiction| |];
    cbn [fst snd]; fields; auto.
Qed.

Ltac leaf :=
  autorewrite with world; fields; autorewrite with world;
  rewrite ?switchToSource_state; autorewrite with world; fields;
  autorewrite with world.

Lemma processRotation_keeps_last_switch e sources w :
  fetchResp e (List.length (requests w)) <> Ok ->
  currentSourceId (state (processRotation e sources w)) = currentSourceId (state w)
  /\ lastSwitchTime (state (processRotation e sources w)) = lastSwitchTime (state w).
Proof.
  intros Hfail.
  unfold processRotation, handleFixedSource.
  split_cases; leaf; auto;
    destruct (fetchResp e (List.length (requests w))); try contradiction; auto.
Qed.

Lemma saveState_true_keeps_last_switch e sources w :
  fetchResp e (List.length (requests w)) <> Ok ->
  currentSourceId (state (saveState e (stateChanged e sources) true w))
    = currentSourceId (state w)
  /\ lastSwitchTime (state (saveState e (stateChanged e sources) true w))
     = lastSwitchTime (state w).
Proof.
  intros Hfail. unfold saveState, emit, stateChanged. fields.
  destruct (diskOk e (attempts w)); fields; [|auto].
  destruct (listening w); fields; [|auto].
  match goal with
  | |- context [processRotation e sources ?x] =>
      destruct (processRotation_keeps_last_switch e sources x) as [H1 H2]
  end.
  - now rewrite cancel_requests.
  - rewrite H1, H2, cancel_state. auto.
Qed.

Lemma replaceSchedule_last_switch schedule st :
  currentSourceId (replaceSchedule schedule st) = currentSourceId st
  /\ lastSwitchTime (replaceSchedule schedule st) = lastSwitchTime st.
Proof.
  unfold replaceSchedule. cbn [currentScheduleIndex set_rotationSchedule].
  destruct (currentScheduleIndex st); [|auto].
  destruct (_ || _); auto.
Qed.

Lemma applyBody_last_switch body st :
  currentSourceId (applyBody body st) = currentSourceId st
  /\ lastSwitchTime (applyBody body st) = lastSwitchTime st.
Proof.
  unfold applyBody, or_keep.
  destruct (Partial.rotationSchedule body);
    rewrite ?(proj1 (replaceSchedule_last_switch _ _)),
            ?(proj2 (replaceSchedule_last_switch _ _));
    destruct (Partial.rotationEnabled body), (Partial.fixedSourceId body),
             (Partial.selectedCameraIds body); auto.
Qed.

(** C9.  Whatever makes the program send a switch request (a re-evaluation, a
    timer, a configuration change, a direct call), when the request is
    answered with an error status or fails in transport, [currentSourceId]
    and [lastSwitchTime] are what they were before; so they only ever change
    on a request that succeeded. *)
Theorem failed_switch_keeps_last_switch :
  forall (e : Env) (sources : list Source) (t : Trigger) (w : World),
    fetchResp e (List.length (requests w)) <> Ok ->
    currentSourceId (state (react e sources t w)) = currentSourceId (state w)
    /\ lastSwitchTime (state (react e sources t w)) = lastSwitchTime (state w).
Proof.
  intros e sources t w Hfail.
  destruct t as [|body|schedule|ids|sourceId|h]; cbn [react].
  - now apply processRotation_keeps_last_switch.
  - unfold putState.
    destruct (saveState_true_keeps_last_switch e sources
                (with_state (applyBody body) w) Hfail) as [H1 H2].
    rewrite H1, H2. fields. apply applyBody_last_switch.
  - unfold putSchedule.
    destruct (saveState_true_keeps_last_switch e sources
                (with_state (replaceSchedule schedule) w) Hfail) as [H1 H2].
    rewrite H1, H2. fields. apply replaceSchedule_last_switch.
  - unfold putCameras.
    destruct (saveState_true_keeps_last_switch e sources
                (with_state (set_selectedCameraIds ids) w) Hfail) as [H1 H2].
    rewrite H1, H2. fields. auto.
  - destruct (switchToSource_fails e sourceId w Hfail) as [H _].
    now rewrite H.
  - unfold timerFired. destruct (existsb _ (timers w)); [|auto].
    match goal with
    | |- context [processRotation e sources ?x] =>
        destruct (processRotation_keeps_last_switch e sources x) as [H1 H2]
    end; [exact Hfail|].
    rewrite H1, H2. auto.
Qed.

(** A direct switch to camera 2 while the pipeline service is down, after a
    successful switch to camera 1: the state still names camera 1. *)
Lemma failed_switch_keeps_last_switch_witness :
  let w := fst (switchToSource fair 1 scenarioA) in
  let w' := react pipelineDown camerasA (Switch 2) w in
  requests w' = [1; 2]
  /\ currentSourceId (state w') = Some 1
  /\ lastSwitchTime (state w') = Some noon.
Proof.
  destruct (failed_switch_keeps_last_switch pipelineDown camerasA (Switch 2)
              (fst (switchToSource fair 1 scenarioA))) as [H1 H2].
  - discriminate.
  - exact (conj eq_refl (conj H1 H2)).
Defined.

(* ------------------------------------------------------------------ *)
(** * The index invariant *)

Lemma indexInvariant_cases st :
  indexInvariant st <->
    match currentScheduleIndex st with
    | None => rotationEnabled st = false \/ rotationSchedule st = []
    | Some i => rotationEnabled st = true /\ 0 <= i < scheduleLength st
    end.
Proof.
  unfold indexInvariant.
  destruct (currentScheduleIndex st) as [i|] eqn:Ei; split.
  - intros [H1 H2].
    destruct (rotationEnabled st) eqn:Een.
    + destruct (rotationSchedule st) as [|x l] eqn:Es.
      * discriminate (H1 (or_intror eq_refl)).
      * destruct (H2 eq_refl ltac:(discriminate)) as [j [Hj Hr]].
        injection Hj as <-. auto.
    + discriminate (H1 (or_introl eq_refl)).
  - intros [Hen Hr]. split.
    + intros [H|H]; [congruence|].
      unfold scheduleLength in Hr. rewrite H in Hr. cbn in Hr. lia.
    + intros _ _. now exists i.
  - intros [H1 H2].
    destruct (rotationEnabled st); [|now left].
    destruct (rotationSchedule st); [now right|].
    destruct (H2 eq_refl ltac:(discriminate)) as [j [Hj _]]. discriminate Hj.
  - intros H. split; [reflexivity|].
    intros Hen Hne. destruct H; congruence.
Qed.

Lemma indexOk_iff st : indexOk st = true <-> indexInvariant st.
Proof.
  rewrite indexInvariant_cases. unfold indexOk.
  destruct (currentScheduleIndex st) as [i|].
  - rewrite !andb_true_iff, Z.leb_le, Z.ltb_lt. tauto.
  - rewrite orb_true_iff, negb_true_iff, Z.eqb_eq. unfold scheduleLength.
    destruct (rotationSchedule st); cbn [List.length]; split; intros [H|H]; auto;
      try discriminate H; lia.
Qed.

Lemma indexInvariant_sane st : indexInvariant st -> indexSane st.
Proof.
  intros [H1 H2]. split.
  - intros _ He. apply H1. now right.
  - intros i Hi.
    destruct (rotationEnabled st) eqn:Een.
    + destruct (rotationSchedule st) eqn:Es.
      * rewrite H1 in Hi by now right. discriminate.
      * destruct (H2 eq_refl ltac:(discriminate)) as [j [Hj Hr]].
        assert (i = j) by congruence. lia.
    + rewrite H1 in Hi by now left. discriminate.
Qed.

Lemma processRotation_rotationEnabled e sources w :
  rotationEnabled (state (processRotation e sources w)) = rotationEnabled (state w).
Proof.
  apply (processRotation_unchanged (fun w => rotationEnabled (state w))); intros;
    autorewrite with world; fields; try reflexivity.
  rewrite switchToSource_state. now destruct (fetchResp e0 _).
Qed.

Lemma processRotation_rotationSchedule e sources w :
  rotationSchedule (state (processRotation e sources w)) = rotationSchedule (state w).
Proof.
  apply (processRotation_unchanged (fun w => rotationSchedule (state w))); intros;
    autorewrite with world; fields; try reflexivity.
  rewrite switchToSource_state. now destruct (fetchResp e0 _).
Qed.

Lemma handleFixedSource_index e sources w :
  currentScheduleIndex (state (handleFixedSource e sources w)) =
    currentScheduleIndex (state w).
Proof.
  apply (handleFixedSource_unchanged (fun w => currentScheduleIndex (state w))).
  intros e0 i w0. rewrite switchToSource_state. now destruct (fetchResp e0 _).
Qed.

Lemma processRotation_empty e sources w :
  shouldStop w = false ->
  rotationEnabled (state w) = true ->
  rotationSchedule (state w) = [] ->
  processRotation e sources w = cancelCurrentTimer w.
Proof.
  intros Hstop Hen He. unfold processRotation.
  rewrite Hstop, cancel_state, Hen. cbn [negb].
  unfold scheduleLength. now rewrite He.
Qed.

(** [processRotation] leaves the index as the invariant wants it. *)
Lemma processRotation_index e sources w :
  shouldStop w = false ->
  indexSane (state w) ->
  indexInvariant (state (processRotation e sources w)).
Proof.
  intros Hstop [Hs1 Hs2].
  destruct (rotationEnabled (state w)) eqn:Een.
  - destruct (rotationSchedule (state w)) as [|x l] eqn:Es.
    + rewrite processRotation_empty by assumption. rewrite cancel_state.
      split; [intros _; now apply Hs1|]. intros _ H. congruence.
    + assert (Hne : rotationSchedule (state w) <> []) by (rewrite Es; discriminate).
      pose proof (usableIndex_range _ Hne Hs2) as Hu.
      assert (Hidx : currentScheduleIndex (state (processRotation e sources w)) =
                     Some ((usableIndex (state w) + 1) mod scheduleLength (state w))).
      { destruct (processRotation_active e sources w Hstop Een Hne Hs2)
          as [it [_ Heq]].
        rewrite Heq. destruct (resolves _ _ _); cbv zeta;
          now autorewrite with world; fields. }
      split.
      * rewrite processRotation_rotationEnabled, processRotation_rotationSchedule.
        intros [H|H]; congruence.
      * intros _ _. eexists. split; [exact Hidx|].
        unfold scheduleLength at 2 3.
        rewrite processRotation_rotationSchedule. fold (scheduleLength (state w)).
        apply Z.mod_pos_bound. lia.
  - rewrite processRotation_disabled by assumption.
    split.
    + intros _. now rewrite handleFixedSource_index, cleared_state.
    + intros H. exfalso.
      rewrite <- processRotation_disabled with (e := e) (sources := sources) in H
        by assumption.
      rewrite processRotation_rotationEnabled in H. congruence.
Qed.

Lemma replaceSchedule_sane schedule st :
  indexSane st -> indexSane (replaceSchedule schedule st).
Proof.
  intros [H1 H2]. unfold replaceSchedule.
  cbn [currentScheduleIndex set_rotationSchedule].
  destruct (currentScheduleIndex st) as [i|] eqn:Ei.
  - specialize (H2 i eq_refl).
    destruct (negb (scheduleLength st =? Z.of_nat (List.length schedule))
              || (Z.of_nat (List.length schedule) <=? i)) eqn:Ec.
    + split; cbn.
      * intros _ ->. reflexivity.
      * destruct (0 <? Z.of_nat (List.length schedule)); intros j Hj;
          [injection Hj as <-; lia|discriminate].
    + apply orb_false_iff in Ec. destruct Ec as [_ Ec]. apply Z.leb_gt in Ec.
      split; cbn.
      * intros _ Hs. rewrite Hs in Ec. cbn in Ec. lia.
      * intros j Hj. rewrite Ei in Hj. injection Hj as <-. assumption.
  - split; cbn; [auto|]. intros j Hj. rewrite Ei in Hj. discriminate.
Qed.

Lemma applyBody_sane body st :
  indexInvariant st -> indexSane (applyBody body st).
Proof.
  intros Hinv. pose proof (indexInvariant_sane st Hinv) as [H1 H2].
  destruct Hinv as [I1 I2].
  unfold applyBody.
  set (st1 := or_keep (Partial.selectedCameraIds body) set_selectedCameraIds
                (or_keep (Partial.fixedSourceId body) set_fixedSourceId
                   (or_keep (Partial.rotationEnabled body) set_rotationEnabled st))).
  assert (Hs : rotationSchedule st1 = rotationSchedule st).
  { subst st1. unfold or_keep.
    destruct (Partial.selectedCameraIds body), (Partial.fixedSourceId body),
      (Partial.rotationEnabled body); reflexivity. }
  assert (Hi : currentScheduleIndex st1 = currentScheduleIndex st).
  { subst st1. unfold or_keep.
    destruct (Partial.selectedCameraIds body), (Partial.fixedSourceId body),
      (Partial.rotationEnabled body); reflexivity. }
  assert (Hsane : indexSane st1).
  { split.
    - intros _ He. rewrite Hi. apply I1. right. congruence.
    - intros i. rewrite Hi. apply H2. }
  unfold or_keep at 1.
  destruct (Partial.rotationSchedule body); [now apply replaceSchedule_sane|assumption].
Qed.

Lemma indexInvariant_fields st st' :
  rotationEnabled st' = rotationEnabled st ->
  rotationSchedule st' = rotationSchedule st ->
  currentScheduleIndex st' = currentScheduleIndex st ->
  indexInvariant st -> indexInvariant st'.
Proof.
  unfold indexInvariant, scheduleLength. now intros -> -> ->.
Qed.

Lemma notified_index e sources w :
  shouldStop w = false ->
  listening w = true ->
  diskOk e (attempts w) = true ->
  indexSane (state w) ->
  indexInvariant (state (saveState e (stateChanged e sources) true w)).
Proof.
  intros Hstop Hl Hok Hsane.
  unfold saveState, emit, stateChanged. fields.
  rewrite Hok. fields. rewrite Hl.
  apply processRotation_index.
  - now rewrite cancel_shouldStop.
  - now rewrite cancel_state.
Qed.

(** The index invariant when every trigger is handled to its end before the
    next one (as [react] has it).  Starting from a state that satisfies it,
    the invariant holds again after every request of the control API that
    writes the configuration, provided its write to the state file succeeds
    and the scheduler is subscribed (the notification then makes the
    scheduler re-evaluate), and after every re-evaluation, timer expiry and
    direct switch: the index is [null] whenever rotation is disabled or the
    schedule is empty, and within [0, len) otherwise. *)
Theorem index_invariant_preserved :
  forall (e : Env) (sources : list Source) (t : Trigger) (w : World),
    indexInvariant (state w) ->
    shouldStop w = false ->
    (isConfiguration t = true ->
     diskOk e (attempts w) = true /\ listening w = true) ->
    indexInvariant (state (react e sources t w)).
Proof.
  intros e sources t w Hinv Hstop Hcfg.
  pose proof (indexInvariant_sane _ Hinv) as Hsane.
  destruct t as [|body|schedule|ids|sourceId|h]; cbn [react isConfiguration] in *.
  - now apply processRotation_index.
  - destruct (Hcfg eq_refl) as [Hok Hl].
    apply notified_index; fields; try assumption.
    now apply applyBody_sane.
  - destruct (Hcfg eq_refl) as [Hok Hl].
    apply notified_index; fields; try assumption.
    now apply replaceSchedule_sane.
  - destruct (Hcfg eq_refl) as [Hok Hl].
    apply notified_index; fields; assumption.
  - apply (indexInvariant_fields (state w)); try assumption;
      rewrite switchToSource_state; now destruct (fetchResp e _).
  - unfold timerFired. destruct (existsb _ (timers w)); [|assumption].
    apply processRotation_index; fields; assumption.
Qed.

(** Rotation is switched off while camera 1 is shown and the disk works: the
    index is [null] once the re-evaluation has ended. *)
Lemma index_invariant_preserved_witness :
  indexInvariant (state (react fair camerasA (Configure disableRotation) oneCamera))
  /\ currentScheduleIndex
       (state (react fair camerasA (Configure disableRotation) oneCamera)) = None.
Proof.
  split; [|reflexivity].
  apply index_invariant_preserved.
  - apply indexOk_iff. reflexivity.
  - reflexivity.
  - intros _. split; reflexivity.
Defined.

(** C4, at the failing input.  A single camera on a 60 s slot is shown, the
    index is 0 and the invariant holds.  [PUT /api/state] with
    [{rotationEnabled: false}] is served while the state file cannot be
    written.  The handler has set [rotationEnabled] and leaves the index to
    the scheduler; the write throws inside [saveState], the emit that follows
    it in the same [try] is skipped, and the scheduler is never told.  The
    state is left with rotation disabled and index 0: the invariant is
    broken, and stays so until some later notification. *)
Lemma index_stale_when_write_fails :
  indexInvariant (state oneCamera)
  /\ rotationEnabled (state (putState diskFull camerasA disableRotation oneCamera))
     = false
  /\ currentScheduleIndex
       (state (putState diskFull camerasA disableRotation oneCamera)) = Some 0
  /\ ~ indexInvariant (state (putState diskFull camerasA disableRotation oneCamera)).
Proof.
  split; [apply indexOk_iff; reflexivity|].
  split; [reflexivity|].
  split; [reflexivity|].
  rewrite <- indexOk_iff. vm_compute. discriminate.
Qed.

(** The invariant is also lost with every write succeeding, when the request
    is served while a re-evaluation is waiting (the overlap of
    [overlapping_calls_arm_two_timers]).  The first call waits for the answer
    to its switch request; [PUT /api/state] with [{rotationEnabled: false}]
    is served, and the call its notification starts clears the index and
    waits for its write; the first call goes on, computes the next index from
    the cleared one, (null + 1) % 1 = 0, and arms its timer; the second call
    ends.  Rotation is disabled, the index is 0 and a 60 s timer is pending. *)
Lemma index_set_again_when_disabled_meanwhile :
  let first := begin camerasA oneCamera in
  let second := servePutState fair camerasA disableRotation (fst first) in
  let w := finish fair camerasA 3 (fst second, snd first) in
  let w' := finish fair camerasA 3 (w, snd second) in
  snd first = Some (AtSwitch 1 60)
  /\ snd second = Some AtClearSave
  /\ currentScheduleIndex (state (fst second)) = None
  /\ rotationEnabled (state w') = false
  /\ currentScheduleIndex (state w') = Some 0
  /\ timers w' = [(0%nat, 60000)]
  /\ ~ indexInvariant (state w').
Proof.
  cbv zeta. conjuncts; try (vm_compute; reflexivity).
  rewrite <- indexOk_iff. vm_compute. discriminate.
Qed.

(* ------------------------------------------------------------------ *)
(** * Operational mutations and the state file *)

Section Persisting.
Variable e : Env.
Hypothesis disk_works : forall k, diskOk e k = true.

Lemma synced_refl w : synced w w.
Proof. left. auto. Qed.

Lemma synced_trans w w' w'' : synced w w' -> synced w' w'' -> synced w w''.
Proof.
  intros [[H1 H2]|H] [[H3 H4]|H']; unfold synced.
  - left. split; congruence.
  - now right.
  - right. congruence.
  - now right.
Qed.

Lemma synced_cancel w : synced w (cancelCurrentTimer w).
Proof. left. now autorewrite with world. Qed.

Lemma saveState_false_saved w :
  disk (saveState_false e w) = Parsed (stringify (state (saveState_false e w))).
Proof. now rewrite saveState_false_disk, disk_works, saveState_false_state. Qed.

Lemma synced_switch i w : synced w (fst (switchToSource e i w)).
Proof.
  unfold switchToSource.
  destruct (fetchResp e (List.length (requests w))); cbn [fst].
  - right. apply saveState_false_saved.
  - left. auto.
  - left. auto.
Qed.

Lemma synced_cleared w : synced w (cleared e w).
Proof.
  unfold cleared. destruct (currentScheduleIndex _).
  - right. apply saveState_false_saved.
  - apply synced_cancel.
Qed.

Lemma synced_prepared w : synced w (prepared e w).
Proof.
  unfold prepared. destruct (index_unusable (state w)).
  - right. apply saveState_false_saved.
  - apply synced_cancel.
Qed.

Lemma synced_handleFixedSource sources w : synced w (handleFixedSource e sources w).
Proof.
  unfold handleFixedSource. split_cases; try apply synced_refl.
  apply synced_switch.
Qed.

Lemma synced_persisted w w' : synced w w' -> persistedSince w w'.
Proof. intros [H|H]; [now left|right; now left]. Qed.

Lemma persistedSince_trans w w' w'' :
  persistedSince w w' -> persistedSince w' w'' -> persistedSince w w''.
Proof.
  intros H [[H1 H2]|[H'|H']].
  - destruct H as [[H3 H4]|[H|[i [H3 H4]]]].
    + left. split; congruence.
    + right. left. congruence.
    + right. right. exists i. rewrite H1, H2. auto.
  - right. now left.
  - right. now right.
Qed.

(** [processRotation] with its two preparations folded. *)
Lemma processRotation_shape sources w :
  processRotation e sources w =
    if shouldStop w then w
    else if negb (rotationEnabled (state w))
    then handleFixedSource e sources (cleared e w)
    else if scheduleLength (state w) =? 0 then cancelCurrentTimer w
    else
      match item_at (rotationSchedule (state (prepared e w)))
              (Z.rem (toNumber (currentScheduleIndex (state (prepared e w))))
                     (scheduleLength (state (prepared e w)))) with
      | None => prepared e w
      | Some it =>
          match find (fun s => id s =? cameraId it)
                     (getAvailableSources (state (prepared e w)) sources) with
          | Some _ =>
              let w1 := saveState_false e
                          (fst (switchToSource e (cameraId it) (prepared e w))) in
              arm (durationSeconds it * 1000)
                  (with_state (set_currentScheduleIndex (Some (nextIndex (state w1))))
                              w1)
          | None =>
              let w1 := with_state
                          (set_currentScheduleIndex
                             (Some (nextIndex (state (prepared e w)))))
                          (prepared e w) in
              arm 5000 (saveState_false e w1)
          end
      end.
Proof.
  unfold processRotation, cleared, prepared.
  destruct (shouldStop w); [reflexivity|].
  rewrite !cancel_state. reflexivity.
Qed.

Lemma processRotation_persisted sources w :
  persistedSince w (processRotation e sources w).
Proof.
  rewrite processRotation_shape.
  destruct (shouldStop w); [left; auto|].
  destruct (negb (rotationEnabled (state w))).
  { apply synced_persisted.
    eapply synced_trans; [apply synced_cleared|apply synced_handleFixedSource]. }
  destruct (scheduleLength (state w) =? 0).
  { apply synced_persisted, synced_cancel. }
  destruct (item_at _ _) as [it|].
  2:{ apply synced_persisted, synced_prepared. }
  destruct (find _ _).
  - cbv zeta. right. right.
    exists (usableIndex (state w)).
    set (w1 := saveState_false e
                 (fst (switchToSource e (cameraId it) (prepared e w)))).
    assert (Hidx : currentScheduleIndex (state w1) = Some (usableIndex (state w))).
    { subst w1. rewrite saveState_false_state, switchToSource_state.
      destruct (fetchResp e _); cbn [currentScheduleIndex set_lastSwitchTime
        set_currentSourceId]; apply prepared_index. }
    split.
    + autorewrite with world. fields.
      cbn [currentScheduleIndex set_currentScheduleIndex].
      unfold nextIndex, scheduleLength. rewrite Hidx. reflexivity.
    + autorewrite with world. fields.
      replace (set_currentScheduleIndex (Some (usableIndex (state w)))
                 (set_currentScheduleIndex (Some (nextIndex (state w1))) (state w1)))
        with (state w1).
      * subst w1. apply saveState_false_saved.
      * destruct (state w1); cbn in *. now subst.
  - cbv zeta. right. left. rewrite arm_disk, arm_state.
    apply saveState_false_saved.
Qed.

Lemma operational_persisted sources t w :
  isConfiguration t = false ->
  persistedSince w (react e sources t w).
Proof.
  destruct t as [|body|schedule|ids|sourceId|h]; cbn [isConfiguration react];
    try discriminate; intros _.
  - apply processRotation_persisted.
  - apply synced_persisted, synced_switch.
  - unfold timerFired. destruct (existsb _ (timers w)); [|left; auto].
    eapply persistedSince_trans; [|apply processRotation_persisted].
    left. auto.
Qed.
End Persisting.

Lemma operational_silent e sources t w :
  isConfiguration t = false ->
  notifications (react e sources t w) = notifications w.
Proof.
  intros H. rewrite react_notifications, H. cbn [andb]. lia.
Qed.

(** C2 (as amended).  A sequence of operational mutations (re-evaluations,
    timer expiries, direct switches), with no configuration mutation among
    them, emits no change notification.  When the writes succeed, the state
    file afterwards is the state in memory (or nothing has changed at all),
    with one exception: the index advance that follows a resolved item is
    made after the last write of that re-evaluation, so the file then holds the
    state in memory with the index one item behind. *)
Theorem operational_mutations :
  forall (e : Env) (sources : list Source) (ts : list Trigger) (w : World),
    forallb (fun t => negb (isConfiguration t)) ts = true ->
    notifications (reactAll e sources ts w) = notifications w
    /\ ((forall k, diskOk e k = true) ->
        persistedSince w (reactAll e sources ts w)).
Proof.
  intros e sources ts. unfold reactAll.
  induction ts as [|t ts IH]; intros w Hops; cbn [fold_left].
  - split; [reflexivity|]. intros _. left. auto.
  - cbn [forallb] in Hops. apply andb_true_iff in Hops. destruct Hops as [Ht Hts].
    apply negb_true_iff in Ht.
    destruct (IH (react e sources t w) Hts) as [IH1 IH2].
    split.
    + now rewrite IH1, operational_silent.
    + intros Hdisk.
      eapply persistedSince_trans; [|apply IH2; exact Hdisk].
      now apply operational_persisted.
Qed.

(** Scenario A through its first two switches: no notification, and the file
    holds index 1 while the index in memory is back to 0. *)
Lemma operational_mutations_witness :
  let w' := reactAll fair camerasA [Reevaluate; Expire 0] scenarioA in
  notifications w' = 0%nat
  /\ persistedSince scenarioA w'.
Proof.
  destruct (operational_mutations fair camerasA [Reevaluate; Expire 0] scenarioA)
    as [H1 H2]; [reflexivity|].
  exact (conj H1 (H2 (fun _ => eq_refl))).
Defined.

(** C2, counterexample.  Scenario A after the timer of its first switch has
    expired: every write has succeeded and the index in memory, 0, is not the
    one in the state file, 1. *)
Lemma index_advance_not_persisted :
  let w' := reactAll fair camerasA [Reevaluate; Expire 0] scenarioA in
  currentScheduleIndex (state w') = Some 0
  /\ option_map currentScheduleIndex (loadState (disk w') defaultState)
     = Some (Some 1)
  /\ disk w' <> Parsed (stringify (state w')).
Proof.
  cbv zeta.
  split; [vm_compute; reflexivity|].
  split; [vm_compute; reflexivity|].
  intro H. vm_compute in H. discriminate H.
Qed.

(* ------------------------------------------------------------------ *)
(** * Timers *)

Lemma finish_step e sources n a w :
  finish e sources (S n) (w, Some a) = finish e sources n (resume e sources a w).
Proof. reflexivity. Qed.

Lemma finish_fixedPhase e sources n w :
  finish e sources (S n) (fixedPhase sources w) = handleFixedSource e sources w.
Proof.
  unfold fixedPhase, handleFixedSource.
  split_cases; cbn [finish resume]; destruct n; reflexivity.
Qed.

Lemma finish_itemPhase e sources n w :
  finish e sources (S (S n)) (itemPhase sources w) =
    match item_at (rotationSchedule (state w))
                  (Z.rem (toNumber (currentScheduleIndex (state w)))
                         (scheduleLength (state w))) with
    | None => w
    | Some it =>
        match find (fun s => id s =? cameraId it)
                   (getAvailableSources (state w) sources) with
        | Some _ =>
            let w1 := saveState_false e (fst (switchToSource e (cameraId it) w)) in
            arm (durationSeconds it * 1000)
                (with_state (set_currentScheduleIndex (Some (nextIndex (state w1)))) w1)
        | None =>
            arm 5000
                (saveState_false e
                   (with_state (set_currentScheduleIndex (Some (nextIndex (state w))))
                               w))
        end
    end.
Proof.
  unfold itemPhase.
  split_cases; cbn [finish resume]; destruct n; reflexivity.
Qed.

(** A call of [processRotation] that is resumed at each of its [await]s before
    anything else runs does what [processRotation] describes. *)
Lemma finish_begin e sources w :
  finish e sources 3 (begin sources w) = processRotation e sources w.
Proof.
  unfold processRotation, begin.
  destruct (shouldStop w); [reflexivity|].
  destruct (negb (rotationEnabled (state (cancelCurrentTimer w)))).
  - destruct (currentScheduleIndex (state (cancelCurrentTimer w)));
      rewrite ?finish_step; cbn [resume]; apply finish_fixedPhase.
  - destruct (scheduleLength (state (cancelCurrentTimer w)) =? 0); [reflexivity|].
    destruct (index_unusable (state (cancelCurrentTimer w)));
      rewrite ?finish_step; cbn [resume]; apply finish_itemPhase.
Qed.

(** The same for a request to [PUT /api/rotation/cameras]: served with the
    call it starts running to its end, it is [putCameras]. *)
Lemma step_PutCameras_alone e sources ids w :
  let p := step e sources (PutCameras ids) {| world := w; suspended := [] |} in
  finish e sources 3
    (world p, match suspended p with a :: _ => Some a | [] => None end)
  = putCameras e sources ids w.
Proof.
  cbv zeta. unfold step, putCameras, saveState, emit, stateChanged.
  cbn [world suspended]. fields.
  destruct (diskOk e (attempts w)); cbn [andb]; fields; [|reflexivity].
  destruct (listening w); [|reflexivity].
  rewrite <- finish_begin.
  match goal with
  | |- context [begin sources ?x] => destruct (begin sources x) as [w' [a|]]
  end; reflexivity.
Qed.

Lemma oneTimer_fields w w' :
  currentTimer w' = currentTimer w -> timers w' = timers w ->
  oneTimer w -> oneTimer w'.
Proof. unfold oneTimer. now intros -> ->. Qed.

Lemma oneTimer_cancel w : oneTimer w -> oneTimer (cancelCurrentTimer w).
Proof.
  intros H. unfold oneTimer. now rewrite cancel_currentTimer, cancel_timers.
Qed.

Lemma oneTimer_arm d w :
  currentTimer w = None -> timers w = [] -> oneTimer (arm d w).
Proof.
  intros H1 H2. unfold oneTimer. rewrite arm_currentTimer, arm_timers, H2.
  now exists d.
Qed.

Lemma handleFixedSource_timers e sources w :
  timers (handleFixedSource e sources w) = timers w.
Proof.
  apply (handleFixedSource_unchanged timers). intros. now autorewrite with world.
Qed.

Lemma handleFixedSource_currentTimer e sources w :
  currentTimer (handleFixedSource e sources w) = currentTimer w.
Proof.
  apply (handleFixedSource_unchanged currentTimer). intros. now autorewrite with world.
Qed.

(** Run from its first line to its last, [processRotation] leaves at most the
    one timer it has armed, and [currentTimer] names it. *)
Lemma processRotation_oneTimer e sources w :
  oneTimer w -> oneTimer (processRotation e sources w).
Proof.
  intros H. rewrite processRotation_shape.
  destruct (shouldStop w); [assumption|].
  destruct (negb (rotationEnabled (state w))).
  { unfold oneTimer.
    rewrite handleFixedSource_currentTimer, handleFixedSource_timers.
    now rewrite cleared_currentTimer, cleared_timers. }
  destruct (scheduleLength (state w) =? 0); [now apply oneTimer_cancel|].
  destruct (item_at _ _) as [it|].
  2:{ unfold oneTimer. now rewrite prepared_currentTimer, prepared_timers. }
  destruct (find _ _); cbv zeta; apply oneTimer_arm; fields;
    autorewrite with world; fields; autorewrite with world;
    auto using prepared_timers.
Qed.

Lemma saveState_true_oneTimer e sources w :
  oneTimer w -> oneTimer (saveState e (stateChanged e sources) true w).
Proof.
  intros H. unfold saveState, emit, stateChanged. fields.
  destruct (diskOk e (attempts w)); fields; [|exact H].
  destruct (listening w); [|exact H].
  apply processRotation_oneTimer, oneTimer_cancel. exact H.
Qed.

Lemma timerFired_oneTimer e sources h w :
  oneTimer w -> oneTimer (timerFired e sources h w).
Proof.
  intros H. unfold timerFired.
  destruct (existsb _ (timers w)) eqn:Ex; [|assumption].
  apply processRotation_oneTimer.
  unfold oneTimer, clearTimeout in *. fields.
  destruct (currentTimer w) as [h'|].
  - destruct H as [d Hd]. rewrite Hd in *. cbn [existsb fst orb] in Ex.
    rewrite orb_false_r in Ex. cbn [filter fst]. now rewrite Ex.
  - rewrite H. reflexivity.
Qed.

Lemma react_oneTimer e sources t w :
  oneTimer w -> oneTimer (react e sources t w).
Proof.
  intros H. destruct t as [|body|schedule|ids|sourceId|h]; cbn [react].
  - now apply processRotation_oneTimer.
  - now apply saveState_true_oneTimer.
  - now apply saveState_true_oneTimer.
  - now apply saveState_true_oneTimer.
  - apply (oneTimer_fields w); autorewrite with world; auto.
  - now apply timerFired_oneTimer.
Qed.

(** As long as every call of [processRotation] reaches its end before the
    next trigger is handled, at most one timer is pending after each trigger,
    whatever the triggers are. *)
Theorem one_timer_without_overlap :
  forall (e : Env) (sources : list Source) (ts : list Trigger) (w : World),
    oneTimer w ->
    oneTimer (reactAll e sources ts w)
    /\ (List.length (timers (reactAll e sources ts w)) <= 1)%nat.
Proof.
  intros e sources ts.
  assert (Hall : forall w, oneTimer w -> oneTimer (reactAll e sources ts w)).
  { unfold reactAll. induction ts as [|t ts IH]; intros w H; cbn [fold_left].
    - exact H.
    - apply IH. now apply react_oneTimer. }
  intros w H. specialize (Hall w H). split; [exact Hall|].
  unfold oneTimer in Hall.
  destruct (currentTimer (reactAll e sources ts w)).
  - destruct Hall as [d ->]. cbn. lia.
  - rewrite Hall. cbn. lia.
Qed.

(** C3, at the failing input.  One camera on a 60 s slot.  The first call of
    [processRotation] has cancelled the timer (there was none) and is waiting
    for the answer to its switch request when [PUT /api/rotation/cameras] is
    served; the notification starts a second call, which also cancels (still
    none) and waits for its own switch request.  Each call then arms its
    timer.  Two timers are pending, and [currentTimer] only names the second:
    the first can no longer be cancelled. *)
Theorem overlapping_calls_arm_two_timers :
  let p := run fair camerasA overlap booting in
  timers (world p) = [(0%nat, 60000); (1%nat, 60000)]
  /\ List.length (timers (world p)) = 2%nat
  /\ currentTimer (world p) = Some 1%nat
  /\ suspended p = [].
Proof. vm_compute. conjuncts; reflexivity. Qed.

(** The same triggers without the overlap leave one timer. *)
Example same_triggers_in_turn :
  timers (reactAll fair camerasA [Reevaluate; Cameras [1]] oneCamera)
    = [(1%nat, 60000)].
Proof. vm_compute. reflexivity. Qed.

(* ------------------------------------------------------------------ *)
(** * The index at the first [await] *)

Lemma fixedPhase_world sources w : fst (fixedPhase sources w) = w.
Proof. unfold fixedPhase. split_cases; reflexivity. Qed.

(** The part of [processRotation] that runs inside [emit], before the call
    first suspends, already leaves the index as the invariant wants it: the
    index is in order when [saveState] returns to the request handler. *)
Lemma begin_index sources w :
  shouldStop w = false ->
  indexSane (state w) ->
  indexInvariant (state (fst (begin sources w))).
Proof.
  intros Hstop [Hs1 Hs2]. unfold begin. rewrite Hstop, cancel_state.
  apply indexInvariant_cases.
  destruct (rotationEnabled (state w)) eqn:Een; cbn [negb].
  - destruct (scheduleLength (state w) =? 0) eqn:E0.
    + cbn [fst]. rewrite cancel_state.
      apply Z.eqb_eq in E0. unfold scheduleLength in E0.
      assert (He : rotationSchedule (state w) = [])
        by (destruct (rotationSchedule (state w)); [reflexivity|cbn in E0; lia]).
      rewrite (Hs1 eq_refl He). now right.
    + apply Z.eqb_neq in E0.
      assert (Hlen : 0 < scheduleLength (state w))
        by (unfold scheduleLength in *; lia).
      destruct (index_unusable (state w)) eqn:Eu.
      * cbn [fst]. fields. rewrite cancel_state.
        cbn [currentScheduleIndex set_currentScheduleIndex rotationEnabled].
        split; [assumption|].
        change (scheduleLength (set_currentScheduleIndex (Some 0) (state w)))
          with (scheduleLength (state w)).
        lia.
      * unfold index_unusable in Eu.
        destruct (currentScheduleIndex (state w)) as [i|] eqn:Ei; [|discriminate].
        apply Z.leb_gt in Eu. specialize (Hs2 i eq_refl).
        unfold itemPhase. rewrite !cancel_state, Ei. cbn [toNumber].
        rewrite Z.rem_small by lia.
        destruct (item_at _ i); [|cbn [fst]; rewrite cancel_state, Ei; auto].
        destruct (find _ _); cbn [fst]; [rewrite cancel_state, Ei; auto|].
        fields. rewrite cancel_state.
        cbn [currentScheduleIndex set_currentScheduleIndex rotationEnabled].
        split; [assumption|].
        unfold nextIndex. rewrite Ei. cbn [toNumber].
        rewrite Z.rem_mod_nonneg by lia.
        change (scheduleLength
                  (set_currentScheduleIndex
                     (Some ((i + 1) mod scheduleLength (state w))) (state w)))
          with (scheduleLength (state w)).
        apply Z.mod_pos_bound. lia.
  - destruct (currentScheduleIndex (state w)) eqn:Ei.
    + cbn [fst]. fields. rewrite cancel_state. cbn. now left.
    + rewrite fixedPhase_world, cancel_state, Ei. now left.
Qed.

(* ------------------------------------------------------------------ *)
(** * The scheduler over several rounds *)

Lemma resolves_selected st st' sources c :
  selectedCameraIds st = selectedCameraIds st' ->
  resolves st sources c = resolves st' sources c.
Proof.
  intros H. unfold resolves.
  now rewrite (getAvailableSources_selected st st' sources H).
Qed.

Lemma switchToSource_configuration e i w :
  configuration (state (fst (switchToSource e i w))) = configuration (state w).
Proof. rewrite switchToSource_state. now destruct (fetchResp e _). Qed.

Lemma processRotation_configuration e sources w :
  configuration (state (processRotation e sources w)) = configuration (state w).
Proof.
  apply (processRotation_unchanged (fun w => configuration (state w))); intros;
    autorewrite with world; fields; try reflexivity.
  apply switchToSource_configuration.
Qed.

Lemma configuration_fields st st' :
  configuration st' = configuration st ->
  rotationEnabled st' = rotationEnabled st
  /\ fixedSourceId st' = fixedSourceId st
  /\ selectedCameraIds st' = selectedCameraIds st
  /\ rotationSchedule st' = rotationSchedule st.
Proof. unfold configuration. intros H. injection H as -> -> -> ->. auto. Qed.

(** One re-evaluation while rotation is enabled and the schedule not empty. *)
Lemma processRotation_round e sources w :
  shouldStop w = false ->
  rotationEnabled (state w) = true ->
  rotationSchedule (state w) <> [] ->
  (forall i, currentScheduleIndex (state w) = Some i -> 0 <= i) ->
  oneTimer w ->
  let w' := processRotation e sources w in
  let u := usableIndex (state w) in
  let c := cameraAt (rotationSchedule (state w)) u in
  currentScheduleIndex (state w') = Some ((u + 1) mod scheduleLength (state w))
  /\ requests w' = requests w ++ (if resolves (state w) sources c then [c] else [])
  /\ currentTimer w' = Some (nextTimer w)
  /\ timers w' = [(nextTimer w, delayAt (state w) sources u)].
Proof.
  intros Hstop Hen Hne Hpos Hone. cbv zeta.
  destruct (processRotation_active e sources w Hstop Hen Hne Hpos) as [it [Hit Heq]].
  unfold cameraAt, delayAt. rewrite Hit, Heq.
  destruct (resolves (state w) sources (cameraId it)); cbv zeta; conjuncts.
  - now autorewrite with world; fields.
  - now autorewrite with world; fields; autorewrite with world.
  - now autorewrite with world; fields; autorewrite with world.
  - autorewrite with world; fields; autorewrite with world.
    now rewrite prepared_timers.
  - now autorewrite with world; fields.
  - autorewrite with world; fields; autorewrite with world.
    now rewrite app_nil_r.
  - now autorewrite with world; fields; autorewrite with world.
  - autorewrite with world; fields; autorewrite with world.
    now rewrite prepared_timers.
Qed.

Lemma delayAt_fields st st' sources i :
  configuration st' = configuration st ->
  delayAt st' sources i = delayAt st sources i.
Proof.
  intros H. destruct (configuration_fields _ _ H) as (_ & _ & C3 & C4).
  unfold delayAt. rewrite C4. destruct (item_at _ i); [|reflexivity].
  now rewrite (resolves_selected st' st sources _ C3).
Qed.

Lemma slots_S st u n :
  slots st u (S n) = slots st u n ++ [(u + Z.of_nat n) mod scheduleLength st].
Proof. unfold slots. now rewrite seq_S, map_app. Qed.

Lemma usableIndex_in_range st i :
  currentScheduleIndex st = Some i -> 0 <= i < scheduleLength st ->
  usableIndex st = i.
Proof.
  intros Hi Hr. unfold usableIndex, index_unusable. rewrite Hi.
  destruct (scheduleLength st <=? i) eqn:E; [apply Z.leb_le in E; lia|reflexivity].
Qed.

(** The world after [n] expiries. *)
Lemma rotation_invariant e sources n w :
  shouldStop w = false ->
  rotationEnabled (state w) = true ->
  rotationSchedule (state w) <> [] ->
  (forall i, currentScheduleIndex (state w) = Some i -> 0 <= i) ->
  oneTimer w ->
  let w' := rotation e sources n w in
  let u := usableIndex (state w) in
  shouldStop w' = false
  /\ configuration (state w') = configuration (state w)
  /\ currentScheduleIndex (state w') =
       Some ((u + Z.of_nat (S n)) mod scheduleLength (state w))
  /\ requests w' =
       requests w ++
       filter (resolves (state w) sources)
              (map (cameraAt (rotationSchedule (state w))) (slots (state w) u (S n)))
  /\ exists h,
       currentTimer w' = Some h
       /\ timers w' =
            [(h, delayAt (state w) sources
                   ((u + Z.of_nat n) mod scheduleLength (state w)))].
Proof.
  intros Hstop Hen Hne Hpos Hone. cbv zeta.
  pose proof (scheduleLength_pos _ Hne) as Hlen.
  pose proof (usableIndex_range _ Hne Hpos) as Hu.
  induction n as [|n IH].
  - cbn [rotation].
    destruct (processRotation_round e sources w Hstop Hen Hne Hpos Hone)
      as (H1 & H2 & H3 & H4).
    conjuncts.
    + now rewrite processRotation_shouldStop.
    + apply processRotation_configuration.
    + rewrite H1. reflexivity.
    + rewrite H2. unfold slots. cbn [seq map filter Z.of_nat].
      rewrite Z.add_0_r, Z.mod_small by lia.
      now destruct (resolves _ _ _).
    + eexists. split; [exact H3|]. rewrite H4. cbn [Z.of_nat].
      now rewrite Z.add_0_r, Z.mod_small by lia.
  - destruct IH as (I1 & I2 & I3 & I4 & h & I5 & I6).
    cbn [rotation]. rewrite I5.
    rewrite (timerFired_pending e sources h _ _ I6).
    set (wk := rotation e sources n w) in *.
    set (w0 := set_currentTimer None (clearTimeout h wk)).
    destruct (configuration_fields _ _ I2) as (C1 & C2 & C3 & C4).
    assert (Hl : scheduleLength (state wk) = scheduleLength (state w))
      by (unfold scheduleLength; now rewrite C4).
    assert (Hr : 0 <= (usableIndex (state w) + Z.of_nat (S n))
                       mod scheduleLength (state w) < scheduleLength (state w))
      by (apply Z.mod_pos_bound; lia).
    assert (Hstop0 : shouldStop w0 = false) by exact I1.
    assert (Hen0 : rotationEnabled (state w0) = true) by (cbn; congruence).
    assert (Hne0 : rotationSchedule (state w0) <> []) by (cbn; congruence).
    assert (Hpos0 : forall i, currentScheduleIndex (state w0) = Some i -> 0 <= i).
    { intros i Hi. cbn in Hi. rewrite I3 in Hi. injection Hi as <-. lia. }
    assert (Hone0 : oneTimer w0).
    { unfold oneTimer, w0, clearTimeout. fields. rewrite I6. cbn [filter fst].
      now rewrite Nat.eqb_refl. }
    destruct (processRotation_round e sources w0 Hstop0 Hen0 Hne0 Hpos0 Hone0)
      as (H1 & H2 & H3 & H4).
    assert (Hu0 : usableIndex (state w0) =
                  (usableIndex (state w) + Z.of_nat (S n)) mod scheduleLength (state w)).
    { apply usableIndex_in_range; [exact I3|]. change (state w0) with (state wk).
      now rewrite Hl. }
    change (state w0) with (state wk) in *.
    rewrite Hu0, Hl, C4 in *.
    conjuncts.
    + now rewrite processRotation_shouldStop.
    + now rewrite processRotation_configuration.
    + rewrite H1. f_equal.
      rewrite Z.add_mod_idemp_l by lia. f_equal. lia.
    + rewrite H2. change (requests w0) with (requests wk). rewrite I4.
      rewrite (slots_S _ _ (S n)), map_app, filter_app, <- app_assoc.
      f_equal. f_equal. cbn [map filter].
      rewrite (resolves_selected (state wk) (state w)) by exact C3.
      now destruct (resolves _ _ _).
    + eexists. split; [exact H3|]. rewrite H4.
      now rewrite (delayAt_fields (state w) (state wk)) by exact I2.
Qed.

(** Rotation enabled, schedule not empty.  From the first re-evaluation on,
    with each armed timer left to expire, the scheduler walks the schedule in
    order and wraps around: after [n] expiries the switch requests sent are
    the cameras of the [n + 1] positions from the starting one on, those that
    do not resolve left out; the index names the position after the last one
    visited; and the one pending timer is that of the last position visited,
    its own duration if its camera resolved and 5 s if not. *)
Theorem rotation_walks_the_schedule :
  forall (e : Env) (sources : list Source) (n : nat) (w : World),
    shouldStop w = false ->
    rotationEnabled (state w) = true ->
    rotationSchedule (state w) <> [] ->
    (forall i, currentScheduleIndex (state w) = Some i -> 0 <= i) ->
    oneTimer w ->
    let w' := rotation e sources n w in
    let u := usableIndex (state w) in
    requests w' =
      requests w ++
      filter (resolves (state w) sources)
             (map (cameraAt (rotationSchedule (state w))) (slots (state w) u (S n)))
    /\ currentScheduleIndex (state w') =
         Some ((u + Z.of_nat (S n)) mod scheduleLength (state w))
    /\ exists h,
         currentTimer w' = Some h
         /\ timers w' =
              [(h, delayAt (state w) sources
                     ((u + Z.of_nat n) mod scheduleLength (state w)))].
Proof.
  intros e sources n w Hstop Hen Hne Hpos Hone.
  destruct (rotation_invariant e sources n w Hstop Hen Hne Hpos Hone)
    as (_ & _ & H3 & H4 & H5).
  cbv zeta. auto.
Qed.

(** Scenario A left running for three more expiries: cameras 1, 2, 1, 2, the
    index back at 0, and a 120 s timer pending. *)
Lemma rotation_walks_the_schedule_witness :
  let w' := rotation fair camerasA 3 scenarioA in
  requests w' = [1; 2; 1; 2]
  /\ currentScheduleIndex (state w') = Some 0
  /\ exists h, currentTimer w' = Some h /\ timers w' = [(h, 120000)].
Proof.
  apply (rotation_walks_the_schedule fair camerasA 3 scenarioA); try reflexivity.
  - discriminate.
  - intros i H. discriminate H.
Defined.

(* ------------------------------------------------------------------ *)
(** * Configuration and operation *)

(** Re-evaluations, timer expiries and direct switches never write a
    configuration field: [rotationEnabled], [fixedSourceId],
    [selectedCameraIds] and [rotationSchedule] are what they were. *)
Theorem operational_triggers_keep_configuration :
  forall (e : Env) (sources : list Source) (t : Trigger) (w : World),
    isConfiguration t = false ->
    configuration (state (react e sources t w)) = configuration (state w).
Proof.
  intros e sources t w Ht.
  destruct t as [|body|schedule|ids|sourceId|h]; cbn [isConfiguration react] in *;
    try discriminate.
  - apply processRotation_configuration.
  - apply switchToSource_configuration.
  - unfold timerFired. destruct (existsb _ (timers w)); [|reflexivity].
    now rewrite processRotation_configuration.
Qed.

Lemma operational_triggers_keep_configuration_witness :
  configuration (state (react fair camerasA Reevaluate scenarioA))
    = (true, None, [], [item 1 60; item 2 120]).
Proof.
  now rewrite (operational_triggers_keep_configuration fair camerasA Reevaluate
                 scenarioA eq_refl).
Defined.

Lemma saveState_true_configuration e sources w :
  configuration (state (saveState e (stateChanged e sources) true w))
    = configuration (state w).
Proof.
  unfold saveState, emit, stateChanged. fields.
  destruct (diskOk e (attempts w)); fields; [|reflexivity].
  destruct (listening w); [|reflexivity].
  now rewrite processRotation_configuration, cancel_state.
Qed.

Lemma replaceSchedule_configuration schedule st :
  configuration (replaceSchedule schedule st) =
    (rotationEnabled st, fixedSourceId st, selectedCameraIds st, schedule).
Proof.
  unfold replaceSchedule. cbn [currentScheduleIndex set_rotationSchedule].
  destruct (currentScheduleIndex st); [|reflexivity].
  destruct (_ || _); reflexivity.
Qed.

(** [PUT /api/state] is a partial update: when the request returns, each of
    the four configuration fields is the member of the body if the body has
    it and is what it was if not, whether or not the write succeeded and
    whatever the scheduler did on the notification. *)
Theorem put_state_is_partial_update :
  forall (e : Env) (sources : list Source) (body : Partial.t) (w : World),
    configuration (state (putState e sources body w)) =
      (provided (Partial.rotationEnabled body) (rotationEnabled (state w)),
       provided (Partial.fixedSourceId body) (fixedSourceId (state w)),
       provided (Partial.selectedCameraIds body) (selectedCameraIds (state w)),
       provided (Partial.rotationSchedule body) (rotationSchedule (state w))).
Proof.
  intros e sources body w. unfold putState.
  rewrite saveState_true_configuration. fields.
  unfold applyBody. unfold or_keep at 1.
  destruct (Partial.rotationSchedule body) as [schedule|].
  - rewrite replaceSchedule_configuration. unfold or_keep, provided.
    destruct (Partial.rotationEnabled body), (Partial.fixedSourceId body),
      (Partial.selectedCameraIds body); reflexivity.
  - unfold or_keep, provided.
    destruct (Partial.rotationEnabled body), (Partial.fixedSourceId body),
      (Partial.selectedCameraIds body); reflexivity.
Qed.

(** What replacing the schedule does to the index: it is never left at or
    beyond the new length; it is kept when the length is the same and it is
    still within; it is reset to 0, or to [null] for an empty schedule, when
    the length changes; and a [null] index stays [null].  Nothing else of the
    state changes but the schedule. *)
Theorem replaceSchedule_index :
  forall (schedule : list RotationScheduleItem) (st : SwitcherState),
    let st' := replaceSchedule schedule st in
    let len := Z.of_nat (List.length schedule) in
    configuration st' =
      (rotationEnabled st, fixedSourceId st, selectedCameraIds st, schedule)
    /\ currentSourceId st' = currentSourceId st
    /\ lastSwitchTime st' = lastSwitchTime st
    /\ (forall i, currentScheduleIndex st' = Some i -> i < len)
    /\ (currentScheduleIndex st = None -> currentScheduleIndex st' = None)
    /\ (forall i, currentScheduleIndex st = Some i ->
                  scheduleLength st = len -> i < len ->
                  currentScheduleIndex st' = Some i)
    /\ (forall i, currentScheduleIndex st = Some i ->
                  scheduleLength st <> len ->
                  currentScheduleIndex st' = if 0 <? len then Some 0 else None).
Proof.
  intros schedule st. cbv zeta.
  split; [apply replaceSchedule_configuration|].
  split; [apply replaceSchedule_last_switch|].
  split; [apply replaceSchedule_last_switch|].
  unfold replaceSchedule. cbn [currentScheduleIndex set_rotationSchedule].
  destruct (currentScheduleIndex st) as [i|] eqn:Ei.
  - destruct (scheduleLength st =? Z.of_nat (List.length schedule)) eqn:El;
      cbn [negb orb].
    + apply Z.eqb_eq in El.
      destruct (Z.of_nat (List.length schedule) <=? i) eqn:Eb.
      * apply Z.leb_le in Eb. conjuncts; cbn.
        -- destruct (0 <? _) eqn:E0; intros j Hj; [|discriminate].
           injection Hj as <-. now apply Z.ltb_lt in E0.
        -- discriminate.
        -- intros j Hj _ Hlt. injection Hj as <-. lia.
        -- intros j _ Hne. contradiction.
      * apply Z.leb_gt in Eb. conjuncts; cbn; rewrite ?Ei.
        -- intros j Hj. injection Hj as <-. lia.
        -- discriminate.
        -- auto.
        -- intros j _ Hne. contradiction.
    + apply Z.eqb_neq in El. conjuncts; cbn.
      * destruct (0 <? _) eqn:E0; intros j Hj; [|discriminate].
        injection Hj as <-. now apply Z.ltb_lt in E0.
      * discriminate.
      * intros j _ Heq. contradiction.
      * auto.
  - conjuncts; cbn; rewrite ?Ei; try discriminate. auto.
Qed.

(** The index of camera 2 in a two-item schedule survives an edit that keeps
    two items and is reset by one that leaves a single item. *)
Lemma replaceSchedule_index_witness :
  currentScheduleIndex
    (replaceSchedule [item 3 10; item 4 10] (rotating [item 1 60; item 2 120] (Some 1)))
    = Some 1
  /\ currentScheduleIndex
       (replaceSchedule [item 3 10] (rotating [item 1 60; item 2 120] (Some 1)))
     = Some 0.
Proof.
  split.
  - apply (replaceSchedule_index [item 3 10; item 4 10]
             (rotating [item 1 60; item 2 120] (Some 1)));
      [reflexivity|reflexivity|reflexivity].
  - apply (replaceSchedule_index [item 3 10]
             (rotating [item 1 60; item 2 120] (Some 1)) ) with (i := 1);
      [reflexivity|discriminate].
Defined.

(* ------------------------------------------------------------------ *)
(** * Fixed source, again *)

(** [processRotation] while rotation is disabled and the fixed source is in
    the list and enabled. *)
Lemma processRotation_fixed e sources w fixed source :
  shouldStop w = false ->
  rotationEnabled (state w) = false ->
  fixedSourceId (state w) = Some fixed ->
  find (fun s => id s =? fixed) sources = Some source ->
  is_enabled source = true ->
  processRotation e sources w =
    if differs (currentSourceId (state w)) (Some fixed)
    then fst (switchToSource e fixed (cleared e w))
    else cleared e w.
Proof.
  intros Hstop Hen Hfix Hfind Hsrc.
  rewrite (processRotation_disabled e sources w Hstop Hen).
  unfold handleFixedSource. rewrite cleared_state.
  cbn [fixedSourceId currentSourceId set_currentScheduleIndex].
  now rewrite Hfix, Hfind, Hsrc.
Qed.

Lemma cancel_idle w : currentTimer w = None -> cancelCurrentTimer w = w.
Proof. unfold cancelCurrentTimer. now intros ->. Qed.

Lemma cleared_idle e w :
  currentTimer w = None -> currentScheduleIndex (state w) = None ->
  cleared e w = w.
Proof.
  intros Ht Hi. unfold cleared. rewrite (cancel_idle w Ht). now rewrite Hi.
Qed.

(** Rotation disabled, the fixed source in the list and enabled.  After one
    re-evaluation the scheduler is in one of two situations.  If the state
    names the fixed source as current (the switch succeeded, or was not
    needed), any further re-evaluation changes nothing at all: no request, no
    write, no timer.  If it does not (the switch failed), no timer retries,
    and each further re-evaluation sends the switch request again. *)
Theorem fixed_source_settles_or_retries :
  forall (e : Env) (sources : list Source) (w : World) (fixed : Z) (source : Source),
    shouldStop w = false ->
    rotationEnabled (state w) = false ->
    fixedSourceId (state w) = Some fixed ->
    find (fun s => id s =? fixed) sources = Some source ->
    is_enabled source = true ->
    let w1 := processRotation e sources w in
    currentTimer w1 = None
    /\ (currentSourceId (state w1) = Some fixed ->
        forall e', processRotation e' sources w1 = w1)
    /\ (currentSourceId (state w1) <> Some fixed ->
        forall e', requests (processRotation e' sources w1) = requests w1 ++ [fixed]).
Proof.
  intros e sources w fixed source Hstop Hen Hfix Hfind Hsrc. cbv zeta.
  set (w1 := processRotation e sources w).
  assert (Hstop1 : shouldStop w1 = false)
    by (unfold w1; now rewrite processRotation_shouldStop).
  assert (Hcfg : configuration (state w1) = configuration (state w))
    by apply processRotation_configuration.
  destruct (configuration_fields _ _ Hcfg) as (C1 & C2 & _ & _).
  assert (Hen1 : rotationEnabled (state w1) = false) by congruence.
  assert (Hfix1 : fixedSourceId (state w1) = Some fixed) by congruence.
  assert (Ht1 : currentTimer w1 = None).
  { unfold w1. rewrite (processRotation_fixed e sources w fixed source) by assumption.
    destruct (differs _ _); now autorewrite with world. }
  assert (Hi1 : currentScheduleIndex (state w1) = None).
  { unfold w1. rewrite (processRotation_fixed e sources w fixed source) by assumption.
    destruct (differs _ _); rewrite ?switchToSource_state, cleared_state;
      [now destruct (fetchResp e _)|reflexivity]. }
  split; [exact Ht1|]. split.
  - intros Hcur e'.
    rewrite (processRotation_fixed e' sources w1 fixed source) by assumption.
    rewrite Hcur. cbn [differs]. rewrite Z.eqb_refl. cbn [negb].
    now apply cleared_idle.
  - intros Hcur e'.
    rewrite (processRotation_fixed e' sources w1 fixed source) by assumption.
    apply differs_true in Hcur. rewrite Hcur.
    now rewrite switchToSource_requests, cleared_requests.
Qed.

(** Scenario B: once camera 5 is on, re-evaluating changes nothing; while the
    pipeline service is down, each re-evaluation asks for camera 5 again. *)
Lemma fixed_source_settles_or_retries_witness :
  processRotation fair camerasB (processRotation fair camerasB scenarioB)
    = processRotation fair camerasB scenarioB
  /\ requests (processRotation pipelineDown camerasB
                 (processRotation pipelineDown camerasB scenarioB)) = [5; 5].
Proof.
  split.
  - apply (fixed_source_settles_or_retries fair camerasB scenarioB 5
             (camera 5 true true)); reflexivity.
  - apply (fixed_source_settles_or_retries pipelineDown camerasB scenarioB 5
             (camera 5 true true)); try reflexivity.
    discriminate.
Defined.

(* ------------------------------------------------------------------ *)
(** * From a request to the scheduler *)

Lemma notified e sources w :
  diskOk e (attempts w) = true ->
  listening w = true ->
  saveState e (stateChanged e sources) true w =
    processRotation e sources
      (cancelCurrentTimer
         (set_notifications (S (notifications w))
            (set_disk (Parsed (stringify (state w)))
               (set_attempts (S (attempts w)) w)))).
Proof.
  intros Hok Hl. unfold saveState, emit, stateChanged. fields.
  rewrite Hok. fields. now rewrite Hl.
Qed.

(** The same, up to the return of the listener. *)
Lemma notified_served e sources w :
  diskOk e (attempts w) = true ->
  listening w = true ->
  saveStateNotifying e sources w =
    begin sources
      (cancelCurrentTimer
         (set_notifications (S (notifications w))
            (set_disk (Parsed (stringify (state w)))
               (set_attempts (S (attempts w)) w)))).
Proof.
  intros Hok Hl. unfold saveStateNotifying, saveState, emit, handleStateChange.
  rewrite Hok, Hl. fields. rewrite Hl. reflexivity.
Qed.

Lemma unwritable_served e sources w :
  diskOk e (attempts w) = false ->
  saveStateNotifying e sources w = (set_attempts (S (attempts w)) w, None).
Proof.
  intros Hok. unfold saveStateNotifying, saveState. now rewrite Hok.
Qed.

(** The call that a request's notification starts, resumed at each of its
    [await]s before anything else runs: the request and the re-evaluation
    together are what [saveState] with the listener [stateChanged] gives. *)
Lemma saveStateNotifying_finish e sources w :
  finish e sources 3 (saveStateNotifying e sources w) =
    saveState e (stateChanged e sources) true w.
Proof.
  unfold saveStateNotifying, saveState, emit, stateChanged, handleStateChange.
  destruct (diskOk e (attempts w)); cbn [andb]; [|reflexivity].
  fields. destruct (listening w); [|reflexivity].
  apply finish_begin.
Qed.

Lemma servePutState_finish e sources body w :
  finish e sources 3 (servePutState e sources body w) = putState e sources body w.
Proof. apply saveStateNotifying_finish. Qed.

Lemma servePutSchedule_finish e sources schedule w :
  finish e sources 3 (servePutSchedule e sources schedule w) =
    putSchedule e sources schedule w.
Proof. apply saveStateNotifying_finish. Qed.

Lemma servePutCameras_finish e sources ids w :
  finish e sources 3 (servePutCameras e sources ids w) = putCameras e sources ids w.
Proof. apply saveStateNotifying_finish. Qed.

(** The request that [step] serves is [servePutCameras]. *)
Lemma step_PutCameras_served e sources ids p :
  step e sources (PutCameras ids) p =
    spawn (suspended p) (servePutCameras e sources ids (world p)).
Proof.
  unfold step, servePutCameras, saveStateNotifying, handleStateChange. fields.
  now destruct (diskOk e (attempts (world p)) && listening (world p))%bool.
Qed.

(** [putState] with [{rotationEnabled: false, fixedSourceId: f}]: the request
    and the re-evaluation it starts, followed to its end. *)
Lemma putState_fixOn e sources w fixed source :
  shouldStop w = false ->
  listening w = true ->
  diskOk e (attempts w) = true ->
  oneTimer w ->
  find (fun s => id s =? fixed) sources = Some source ->
  is_enabled source = true ->
  let w' := putState e sources (fixOn fixed) w in
  rotationEnabled (state w') = false
  /\ fixedSourceId (state w') = Some fixed
  /\ currentScheduleIndex (state w') = None
  /\ requests w' =
       requests w ++
       (if differs (currentSourceId (state w)) (Some fixed) then [fixed] else [])
  /\ timers w' = []
  /\ currentTimer w' = None
  /\ notifications w' = S (notifications w).
Proof.
  intros Hstop Hl Hok Hone Hfind Hsrc. cbv zeta.
  unfold putState. rewrite notified by (fields; assumption). fields.
  match goal with
  | |- context [processRotation e sources ?x] => set (w0 := x)
  end.
  assert (Hst : state w0 = applyBody (fixOn fixed) (state w))
    by (unfold w0; now rewrite cancel_state).
  assert (Hone0 : oneTimer w0).
  { unfold w0. apply oneTimer_cancel. exact Hone. }
  assert (Heq := processRotation_fixed e sources w0 fixed source).
  assert (Hstop0 : shouldStop w0 = false)
    by (unfold w0; now rewrite cancel_shouldStop).
  rewrite Hst in Heq. specialize (Heq Hstop0 eq_refl eq_refl Hfind Hsrc).
  change (currentSourceId (applyBody (fixOn fixed) (state w)))
    with (currentSourceId (state w)) in Heq.
  rewrite Heq.
  assert (Hreq : requests w0 = requests w)
    by (unfold w0; now rewrite cancel_requests).
  assert (Hnot : notifications w0 = S (notifications w))
    by (unfold w0; now rewrite cancel_notifications).
  destruct (differs (currentSourceId (state w)) (Some fixed)); conjuncts;
    rewrite ?switchToSource_state, ?cleared_state, ?Hst;
    autorewrite with world; rewrite ?cleared_timers by assumption;
    rewrite ?Hreq, ?Hnot, ?app_nil_r; try reflexivity;
    now destruct (fetchResp e _).
Qed.

(** [PUT /api/state] with [{rotationEnabled: false, fixedSourceId: f}], [f]
    in the source list and enabled, the write succeeding and the scheduler
    subscribed.

    When the handler answers, the listener has returned and the
    re-evaluation it started is not over: the timer is cancelled and none is
    pending, the index is [null] in memory, one notification was emitted,
    and the re-evaluation is suspended.  If the index was set it waits for
    the write that records the cleared index, and no switch request has been
    sent; if the index was [null] already it waits for the answer to its
    switch request for [f], or has ended when [f] is the current source.

    When that re-evaluation has been resumed to its end, nothing else having
    been served meanwhile, one switch request for [f] has been sent unless
    [f] was already current, and still no timer is pending. *)
Theorem disabling_rotation_switches_to_fixed_source :
  forall (e : Env) (sources : list Source) (w : World) (fixed : Z) (source : Source),
    shouldStop w = false ->
    listening w = true ->
    diskOk e (attempts w) = true ->
    oneTimer w ->
    find (fun s => id s =? fixed) sources = Some source ->
    is_enabled source = true ->
    let answered := servePutState e sources (fixOn fixed) w in
    let needed := differs (currentSourceId (state w)) (Some fixed) in
    let w' := finish e sources 3 answered in
    (rotationEnabled (state (fst answered)) = false
     /\ fixedSourceId (state (fst answered)) = Some fixed
     /\ currentScheduleIndex (state (fst answered)) = None
     /\ timers (fst answered) = []
     /\ currentTimer (fst answered) = None
     /\ notifications (fst answered) = S (notifications w)
     /\ snd answered =
          match currentScheduleIndex (state w) with
          | Some _ => Some AtClearSave
          | None => if needed then Some (AtFixedSwitch fixed) else None
          end
     /\ (currentScheduleIndex (state w) <> None ->
         requests (fst answered) = requests w))
    /\ (rotationEnabled (state w') = false
        /\ fixedSourceId (state w') = Some fixed
        /\ currentScheduleIndex (state w') = None
        /\ requests w' = requests w ++ (if needed then [fixed] else [])
        /\ timers w' = []
        /\ currentTimer w' = None
        /\ notifications w' = S (notifications w)).
Proof.
  intros e sources w fixed source Hstop Hl Hok Hone Hfind Hsrc. cbv zeta.
  split.
  2:{ rewrite servePutState_finish.
      exact (putState_fixOn e sources w fixed source Hstop Hl Hok Hone Hfind Hsrc). }
  unfold servePutState. rewrite notified_served by (fields; assumption). fields.
  match goal with
  | |- context [begin sources ?x] => set (w0 := x)
  end.
  assert (Hst : state w0 = applyBody (fixOn fixed) (state w))
    by (unfold w0; now rewrite cancel_state).
  assert (Hstop0 : shouldStop w0 = false)
    by (unfold w0; now rewrite cancel_shouldStop).
  assert (Htimers : timers w0 = [])
    by (unfold w0; apply cancel_timers; exact Hone).
  assert (Hcur : currentTimer w0 = None)
    by (unfold w0; now rewrite cancel_currentTimer).
  assert (Hreq : requests w0 = requests w)
    by (unfold w0; now rewrite cancel_requests).
  assert (Hnot : notifications w0 = S (notifications w))
    by (unfold w0; now rewrite cancel_notifications).
  assert (Hidle : cancelCurrentTimer w0 = w0) by (now apply cancel_idle).
  unfold begin. rewrite Hstop0, Hidle, Hst.
  change (rotationEnabled (applyBody (fixOn fixed) (state w))) with false.
  change (currentScheduleIndex (applyBody (fixOn fixed) (state w)))
    with (currentScheduleIndex (state w)).
  cbn [negb].
  destruct (currentScheduleIndex (state w)) as [i|] eqn:Hi.
  - fields. rewrite Hst. conjuncts; try reflexivity; try assumption.
    intros _. exact Hreq.
  - unfold fixedPhase. rewrite Hst.
    change (fixedSourceId (applyBody (fixOn fixed) (state w))) with (Some fixed).
    change (currentSourceId (applyBody (fixOn fixed) (state w)))
      with (currentSourceId (state w)).
    cbv beta iota. rewrite Hfind, Hsrc.
    destruct (differs (currentSourceId (state w)) (Some fixed)); fields;
      rewrite Hst; conjuncts; try reflexivity; try assumption;
      intros H; now contradiction H.
Qed.

(** Scenario A while camera 1 is shown: the request fixes camera 2.  When it
    is answered the 60 s timer is gone, the re-evaluation waits for its write
    and camera 2 has not been asked for; it is once the re-evaluation has
    ended. *)
Lemma disabling_rotation_switches_to_fixed_source_witness :
  let w := processRotation fair camerasA scenarioA in
  let answered := servePutState fair camerasA (fixOn 2) w in
  timers w = [(0%nat, 60000)]
  /\ timers (fst answered) = []
  /\ snd answered = Some AtClearSave
  /\ requests (fst answered) = [1]
  /\ requests (finish fair camerasA 3 answered) = [1; 2].
Proof.
  destruct (disabling_rotation_switches_to_fixed_source fair camerasA
              (processRotation fair camerasA scenarioA) 2 (camera 2 true true))
    as ((_ & _ & _ & H4 & _ & _ & H7 & H8) & (_ & _ & _ & H12 & _));
    try (vm_compute; reflexivity).
  - exists 60000. vm_compute. reflexivity.
  - cbv zeta. rewrite H4, H7, H12, H8 by (vm_compute; discriminate).
    vm_compute. auto.
Defined.

(** [PUT /api/rotation/schedule] with an empty schedule while rotation is
    enabled, the write succeeding and the scheduler subscribed: rotation
    pauses.  The pending timer is cancelled and none is armed, the index is
    [null], no switch request is sent, and the state file holds the new
    state. *)
Theorem clearing_the_schedule_pauses_rotation :
  forall (e : Env) (sources : list Source) (w : World),
    shouldStop w = false ->
    listening w = true ->
    diskOk e (attempts w) = true ->
    oneTimer w ->
    rotationEnabled (state w) = true ->
    (forall i, currentScheduleIndex (state w) = Some i -> 0 <= i) ->
    let w' := putSchedule e sources [] w in
    rotationSchedule (state w') = []
    /\ currentScheduleIndex (state w') = None
    /\ timers w' = []
    /\ currentTimer w' = None
    /\ requests w' = requests w
    /\ currentSourceId (state w') = currentSourceId (state w)
    /\ notifications w' = S (notifications w)
    /\ disk w' = Parsed (stringify (state w')).
Proof.
  intros e sources w Hstop Hl Hok Hone Hen Hpos. cbv zeta.
  unfold putSchedule. rewrite notified by (fields; assumption). fields.
  match goal with
  | |- context [processRotation e sources ?x] => set (w0 := x)
  end.
  assert (Hst : state w0 = replaceSchedule [] (state w))
    by (unfold w0; now rewrite cancel_state).
  assert (Hcfg := replaceSchedule_configuration [] (state w)).
  unfold configuration in Hcfg. injection Hcfg as C1 _ _ C4.
  assert (Hidx : currentScheduleIndex (replaceSchedule [] (state w)) = None).
  { unfold replaceSchedule. cbn [currentScheduleIndex set_rotationSchedule].
    destruct (currentScheduleIndex (state w)) as [i|] eqn:Ei; [|exact Ei].
    specialize (Hpos i eq_refl).
    assert (Hb : (Z.of_nat (List.length (@nil RotationScheduleItem)) <=? i) = true)
      by (apply Z.leb_le; cbn; lia).
    rewrite Hb, orb_true_r. reflexivity. }
  assert (Hstop0 : shouldStop w0 = false)
    by (unfold w0; now rewrite cancel_shouldStop).
  assert (Hen0 : rotationEnabled (state w0) = true) by (rewrite Hst; congruence).
  assert (Hs0 : rotationSchedule (state w0) = []) by (rewrite Hst; exact C4).
  rewrite (processRotation_empty e sources w0 Hstop0 Hen0 Hs0).
  rewrite (cancel_idle w0) by (unfold w0; apply cancel_currentTimer).
  conjuncts.
  - now rewrite Hst.
  - now rewrite Hst.
  - unfold w0. now apply cancel_timers.
  - unfold w0. apply cancel_currentTimer.
  - unfold w0. now rewrite cancel_requests.
  - rewrite Hst. apply replaceSchedule_last_switch.
  - unfold w0. now rewrite cancel_notifications.
  - unfold w0. now rewrite cancel_disk, cancel_state.
Qed.

(** Scenario A while camera 1 is shown: the schedule is emptied, the 60 s
    timer is gone. *)
Lemma clearing_the_schedule_pauses_rotation_witness :
  let w := processRotation fair camerasA scenarioA in
  let w' := putSchedule fair camerasA [] w in
  timers w' = [] /\ currentScheduleIndex (state w') = None /\ requests w' = [1].
Proof.
  destruct (clearing_the_schedule_pauses_rotation fair camerasA
              (processRotation fair camerasA scenarioA))
    as (_ & H2 & H3 & _ & H5 & _); try (vm_compute; reflexivity).
  - exists 60000. vm_compute. reflexivity.
  - intros i H. vm_compute in H. injection H as <-. discriminate.
  - cbv zeta. rewrite H2, H3, H5. vm_compute. auto.
Defined.

(* ------------------------------------------------------------------ *)
(** * The event emitter *)

Module EventEmitterFacts.
Import EventEmitter.

Lemma get_set event event' s m :
  get event' (set event s m) = if String.eqb event event' then Some s else get event' m.
Proof.
  induction m as [|[k s'] m IH]; cbn [set get].
  - reflexivity.
  - destruct (String.eqb k event) eqn:Ek; cbn [get].
    + apply String.eqb_eq in Ek. subst k.
      destruct (String.eqb event event'); reflexivity.
    + destruct (String.eqb k event') eqn:Ek'; [|exact IH].
      apply String.eqb_eq in Ek'. subst k.
      apply String.eqb_neq in Ek.
      destruct (String.eqb event event') eqn:E; [|reflexivity].
      apply String.eqb_eq in E. congruence.
Qed.

Lemma get_delete event event' m :
  get event' (delete event m) = if String.eqb event event' then None else get event' m.
Proof.
  unfold delete.
  induction m as [|[k s] m IH]; cbn [filter get fst].
  - now destruct (String.eqb event event').
  - destruct (String.eqb k event) eqn:Ek; cbn [negb get].
    + apply String.eqb_eq in Ek. subst k. rewrite IH.
      now destruct (String.eqb event event').
    + destruct (String.eqb k event') eqn:Ek'; [|exact IH].
      apply String.eqb_eq in Ek'. subst k.
      rewrite String.eqb_sym in Ek. now rewrite Ek.
Qed.

Lemma emit_on event event' listener m :
  emit event' (on event listener m) =
    if String.eqb event event' then add listener (emit event m) else emit event' m.
Proof.
  unfold emit, on.
  destruct (get event m) as [s|] eqn:Eg.
  - rewrite Eg, get_set. destruct (String.eqb event event'); reflexivity.
  - rewrite get_set, String.eqb_refl, !get_set.
    destruct (String.eqb event event'); reflexivity.
Qed.

Lemma emit_off event event' listener m :
  emit event' (off event listener m) =
    if String.eqb event event' then remove listener (emit event m) else emit event' m.
Proof.
  unfold emit, off.
  destruct (get event m) as [s|] eqn:Eg.
  - rewrite get_set. destruct (String.eqb event event'); reflexivity.
  - destruct (String.eqb event event') eqn:E; [|reflexivity].
    apply String.eqb_eq in E. subst. now rewrite Eg.
Qed.

Lemma emit_removeAll event event' m :
  emit event' (removeAllListeners event m) =
    match event with
    | Some ev =>
        if String.eqb ev "" then []
        else if String.eqb ev event' then [] else emit event' m
    | None => []
    end.
Proof.
  unfold emit, removeAllListeners.
  destruct event as [ev|]; [|reflexivity].
  destruct (String.eqb ev ""); [reflexivity|].
  rewrite get_delete. now destruct (String.eqb ev event').
Qed.

Lemma add_NoDup listener s : NoDup s -> NoDup (add listener s).
Proof.
  intros H. unfold add.
  destruct (existsb (Nat.eqb listener) s) eqn:E; [exact H|].
  apply NoDup_app; [exact H|repeat constructor; intros []|].
  intros x Hx [Hl|[]]. subst x.
  assert (existsb (Nat.eqb listener) s = true)
    by (apply existsb_exists; exists listener; split; [exact Hx|apply Nat.eqb_refl]).
  congruence.
Qed.

Lemma add_In listener s : In listener (add listener s).
Proof.
  unfold add. destruct (existsb (Nat.eqb listener) s) eqn:E.
  - apply existsb_exists in E. destruct E as [x [Hx Hl]].
    apply Nat.eqb_eq in Hl. now subst.
  - apply in_or_app. right. now left.
Qed.

Lemma remove_absent listener s : ~ In listener s -> remove listener s = s.
Proof.
  intros H. unfold remove. induction s as [|x s IH]; [reflexivity|].
  cbn [filter]. destruct (Nat.eqb x listener) eqn:E.
  - apply Nat.eqb_eq in E. subst. exfalso. apply H. now left.
  - cbn [negb]. f_equal. apply IH. intros Hin. apply H. now right.
Qed.

Lemma remove_add listener s :
  ~ In listener s -> remove listener (add listener s) = s.
Proof.
  intros H. unfold add.
  destruct (existsb (Nat.eqb listener) s) eqn:E.
  - apply existsb_exists in E. destruct E as [x [Hx Hl]].
    apply Nat.eqb_eq in Hl. subst. contradiction.
  - unfold remove. rewrite filter_app. cbn [filter]. rewrite Nat.eqb_refl.
    cbn [negb]. rewrite app_nil_r. now apply remove_absent.
Qed.

Lemma remove_not_In listener s : ~ In listener (remove listener s).
Proof.
  unfold remove. intros H. apply filter_In in H. destruct H as [_ H].
  now rewrite Nat.eqb_refl in H.
Qed.

(** Whatever calls were made to register, unregister and clear, [emit] calls
    no listener twice: calling [on] again for a listener already registered
    adds no second call. *)
Theorem emit_calls_each_listener_once :
  forall (cs : list Call) (event : string), NoDup (emit event (calls cs)).
Proof.
  intros cs. unfold calls.
  assert (H : forall m, (forall event, NoDup (emit event m)) ->
                        forall event, NoDup (emit event (fold_left (fun m c => call c m) cs m))).
  { induction cs as [|c cs IH]; intros m Hm; cbn [fold_left]; [exact Hm|].
    apply IH. intros event. destruct c as [ev l|ev l|ev]; cbn [call].
    - rewrite emit_on. destruct (String.eqb ev event); [|apply Hm].
      apply add_NoDup, Hm.
    - rewrite emit_off. destruct (String.eqb ev event); [|apply Hm].
      apply NoDup_filter, Hm.
    - rewrite emit_removeAll. destruct ev as [ev|]; [|constructor].
      destruct (String.eqb ev ""); [constructor|].
      destruct (String.eqb ev event); [constructor|apply Hm]. }
  apply H. intros event. constructor.
Qed.

(** Registering and unregistering.  After [on(event, l)], [emit(event)] calls
    [l].  After [off(event, l)] it calls the other listeners, in the same
    order, and not [l]; [off] for a listener that is not registered (another
    function, however alike) changes nothing; [on] followed by [off] leaves
    the calls as they were before.  Neither touches another event. *)
Theorem on_then_off :
  forall (m : t) (event : string) (l : nat),
    In l (emit event (on event l m))
    /\ emit event (off event l m) = remove l (emit event m)
    /\ ~ In l (emit event (off event l m))
    /\ (~ In l (emit event m) ->
        emit event (off event l m) = emit event m
        /\ emit event (off event l (on event l m)) = emit event m)
    /\ (forall event', event' <> event ->
                       emit event' (on event l m) = emit event' m
                       /\ emit event' (off event l m) = emit event' m).
Proof.
  intros m event l.
  split; [rewrite emit_on, String.eqb_refl; apply add_In|].
  split; [now rewrite emit_off, String.eqb_refl|].
  split; [rewrite emit_off, String.eqb_refl; apply remove_not_In|].
  split.
  - intros H. split.
    + rewrite emit_off, String.eqb_refl. now apply remove_absent.
    + rewrite emit_off, String.eqb_refl, emit_on, String.eqb_refl.
      now apply remove_add.
  - intros event' Hne.
    assert (E : String.eqb event event' = false)
      by (apply String.eqb_neq; congruence).
    now rewrite emit_on, emit_off, E.
Qed.

(** The pattern of the test suite: a handler is registered, then
    [off("stateChanged", () => {})] is called with a fresh function.  The
    handler is still called. *)
Lemma on_then_off_witness :
  emit "stateChanged" (off "stateChanged" 2 (on "stateChanged" 1 empty)) = [1%nat]
  /\ emit "stateChanged" (off "stateChanged" 1 (on "stateChanged" 1 empty)) = [].
Proof.
  destruct (on_then_off (on "stateChanged" 1 empty) "stateChanged" 2)
    as (_ & _ & _ & H & _).
  destruct (on_then_off empty "stateChanged" 1) as (_ & _ & _ & H' & _).
  split.
  - apply H. intros [E|[]]. discriminate E.
  - apply H'. intros [].
Defined.

(** [removeAllListeners(event)] silences that event and no other one;
    [removeAllListeners()] silences every event, and so does
    [removeAllListeners("")], the empty string being taken for no argument. *)
Theorem removeAllListeners_scope :
  forall (m : t) (event event' : string),
    (event <> ""%string ->
     emit event (removeAllListeners (Some event) m) = []
     /\ (event' <> event ->
         emit event' (removeAllListeners (Some event) m) = emit event' m))
    /\ emit event' (removeAllListeners None m) = []
    /\ emit event' (removeAllListeners (Some ""%string) m) = [].
Proof.
  intros m event event'. split; [|split; now rewrite emit_removeAll].
  intros Hne. apply String.eqb_neq in Hne.
  split.
  - now rewrite emit_removeAll, Hne, String.eqb_refl.
  - intros Hne'. rewrite emit_removeAll, Hne.
    assert (E : String.eqb event event' = false)
      by (apply String.eqb_neq; congruence).
    now rewrite E.
Qed.

Lemma removeAllListeners_scope_witness :
  let m := on "other" 2 (on "stateChanged" 1 empty) in
  emit "stateChanged" (removeAllListeners (Some "stateChanged"%string) m) = []
  /\ emit "other" (removeAllListeners (Some "stateChanged"%string) m) = [2%nat].
Proof.
  destruct (removeAllListeners_scope (on "other" 2 (on "stateChanged" 1 empty))
              "stateChanged" "other") as [H _].
  destruct (H ltac:(discriminate)) as [H1 H2].
  split; [exact H1|]. rewrite H2 by discriminate. reflexivity.
Defined.

End EventEmitterFacts.

(* ------------------------------------------------------------------ *)
(** * The state file, again *)

Lemma member_skip k k' v m1 m2 :
  k' <> k -> member k' (m1 ++ (k, v) :: m2) = member k' (m1 ++ m2).
Proof.
  intros Hne. induction m1 as [|[k1 v1] m1 IH]; cbn [app member].
  - apply String.eqb_neq in Hne. rewrite Hne. now destruct (member k' m2).
  - now rewrite IH.
Qed.

Lemma typed_member_skip {A} (f : json -> option A) k k' v m1 m2 :
  k' <> k ->
  typed_member f k' (m1 ++ (k, v) :: m2) = typed_member f k' (m1 ++ m2).
Proof. intros H. unfold typed_member. now rewrite member_skip. Qed.

(** [loadState] reads seven members and no other: a member with another name
    in the state file, wherever it stands and whatever it holds, changes
    nothing to the state loaded. *)
Theorem loadState_ignores_unknown_members :
  forall (m1 m2 : list (string * json)) (k : string) (v : json) (s0 : SwitcherState),
    ~ In k stateMembers ->
    loadState (Parsed (JObj (m1 ++ (k, v) :: m2))) s0 =
      loadState (Parsed (JObj (m1 ++ m2))) s0.
Proof.
  intros m1 m2 k v s0 Hk. unfold loadState. f_equal.
  unfold partial_of_members.
  rewrite !typed_member_skip;
    [reflexivity|..]; intros E; subst k; apply Hk; unfold stateMembers;
    cbn [In]; tauto.
Qed.

Lemma loadState_ignores_unknown_members_witness :
  loadState
    (Parsed (JObj [("rotationEnabled", JBool true); ("version", JNum 2);
                   ("fixedSourceId", JNum 5)]%string)) defaultState
  = Some (set_fixedSourceId (Some 5) (set_rotationEnabled true defaultState)).
Proof.
  refine (eq_trans
            (loadState_ignores_unknown_members
               [("rotationEnabled", JBool true)]%string
               [("fixedSourceId", JNum 5)]%string "version" (JNum 2) defaultState _)
            _).
  - cbn. intros H. repeat (destruct H as [H|H]; [discriminate H|]). exact H.
  - reflexivity.
Defined.

Lemma merge_twice p s : merge p (merge p s) = merge p s.
Proof.
  destruct p as [a b c d f g h]. unfold merge, or_keep.
  cbn [Partial.rotationEnabled Partial.fixedSourceId Partial.selectedCameraIds
       Partial.rotationSchedule Partial.currentSourceId Partial.lastSwitchTime
       Partial.currentScheduleIndex].
  destruct a, b, c, d, f, g, h; reflexivity.
Qed.

(** Loading is idempotent: loading the same file a second time, on top of
    what the first load gave, gives the same state. *)
Theorem loadState_twice :
  forall (file : FileContent) (s0 s1 : SwitcherState),
    loadState file s0 = Some s1 -> loadState file s1 = Some s1.
Proof.
  intros file s0 s1 H.
  destruct file as [| |j]; cbn [loadState] in *; try congruence.
  destruct j; try congruence.
  destruct (partial_of_members members) as [p|]; [|discriminate].
  cbn [option_map] in *. injection H as <-. now rewrite merge_twice.
Qed.

Lemma loadState_twice_witness :
  loadState (Parsed (JObj [("rotationEnabled", JBool true)]%string))
            (set_rotationEnabled true defaultState)
  = Some (set_rotationEnabled true defaultState).
Proof.
  apply (loadState_twice _ defaultState). reflexivity.
Defined.

(** The state file after a re-evaluation whose item resolved. *)
Lemma resolved_disk e sources w it :
  shouldStop w = false ->
  rotationEnabled (state w) = true ->
  rotationSchedule (state w) <> [] ->
  (forall i, currentScheduleIndex (state w) = Some i -> 0 <= i) ->
  item_at (rotationSchedule (state w)) (usableIndex (state w)) = Some it ->
  resolves (state w) sources (cameraId it) = true ->
  (forall k, diskOk e k = true) ->
  disk (processRotation e sources w) =
    Parsed (stringify
              (set_currentScheduleIndex (Some (usableIndex (state w)))
                 (state (processRotation e sources w)))).
Proof.
  intros Hstop Hen Hne Hpos Hit Hres Hdisk.
  destruct (processRotation_active e sources w Hstop Hen Hne Hpos) as [it' [Hit' Heq]].
  assert (it' = it) by congruence. subst it'.
  rewrite Hres in Heq. cbv zeta in Heq. rewrite Heq.
  autorewrite with world. fields.
  rewrite saveState_false_disk, Hdisk. autorewrite with world.
  rewrite switchToSource_state. autorewrite with world.
  destruct (fetchResp e _); now rewrite prepared_state.
Qed.

(** Restart.  Rotation enabled, the current item's camera resolves, the
    writes succeed, and the re-evaluation runs from its first line to its
    last with nothing else served while it waits.  If the process is stopped
    after that re-evaluation and started again on the state file, its first
    re-evaluation asks for the same camera again: the file holds the index of
    the camera that was on, not the advanced one, so the camera that was
    showing is shown for a full slot again rather than skipped.  (When
    another call runs while the re-evaluation waits, the file may hold
    another index; see [overlapping_calls_arm_two_timers].) *)
Theorem restart_shows_the_same_camera :
  forall (e e' : Env) (sources : list Source) (w : World) (it : RotationScheduleItem),
    shouldStop w = false ->
    rotationEnabled (state w) = true ->
    rotationSchedule (state w) <> [] ->
    (forall i, currentScheduleIndex (state w) = Some i -> 0 <= i) ->
    item_at (rotationSchedule (state w)) (usableIndex (state w)) = Some it ->
    resolves (state w) sources (cameraId it) = true ->
    (forall k, diskOk e k = true) ->
    exists w0,
      restart (disk (processRotation e sources w)) = Some w0
      /\ configuration (state w0) = configuration (state w)
      /\ currentScheduleIndex (state w0) = Some (usableIndex (state w))
      /\ requests (processRotation e' sources w0) = [cameraId it]
      /\ timers (processRotation e' sources w0) = [(0%nat, durationSeconds it * 1000)].
Proof.
  intros e e' sources w it Hstop Hen Hne Hpos Hit Hres Hdisk.
  set (w1 := processRotation e sources w).
  set (s := set_currentScheduleIndex (Some (usableIndex (state w))) (state w1)).
  assert (Hd : disk w1 = Parsed (stringify s))
    by (unfold w1, s; now apply resolved_disk with (it := it)).
  assert (Hcfg : configuration s = configuration (state w))
    by (unfold s, w1; apply (processRotation_configuration e sources w)).
  destruct (configuration_fields _ _ Hcfg) as (C1 & _ & C3 & C4).
  pose proof (usableIndex_range _ Hne Hpos) as Hu.
  exists (initialWorld (disk w1) s).
  assert (Hl : scheduleLength s = scheduleLength (state w))
    by (unfold scheduleLength; now rewrite C4).
  assert (Hus : usableIndex s = usableIndex (state w))
    by (apply usableIndex_in_range; [reflexivity|now rewrite Hl]).
  destruct (processRotation_round e' sources (initialWorld (disk w1) s))
    as (_ & H2 & _ & H4); cbn [state initialWorld shouldStop];
    try congruence.
  - intros i Hi. cbn in Hi. injection Hi as <-. lia.
  - reflexivity.
  - cbn [state initialWorld requests nextTimer] in H2, H4.
    rewrite Hus in H2, H4. unfold cameraAt in H2. unfold delayAt in H4.
    rewrite C4, Hit in H2, H4.
    rewrite (resolves_selected s (state w) sources _ C3), Hres in H2, H4.
    conjuncts; try assumption; try reflexivity.
    unfold restart. rewrite Hd, loadState_stringify. reflexivity.
Qed.

(** Scenario A stopped while camera 1 is on: the restarted process asks for
    camera 1. *)
Lemma restart_shows_the_same_camera_witness :
  exists w0,
    restart (disk (processRotation fair camerasA scenarioA)) = Some w0
    /\ requests (processRotation fair camerasA w0) = [1].
Proof.
  destruct (restart_shows_the_same_camera fair fair camerasA scenarioA (item 1 60))
    as [w0 (H1 & _ & _ & H4 & _)]; try reflexivity.
  - discriminate.
  - intros i H. discriminate H.
  - exists w0. split; assumption.
Defined.

(* ------------------------------------------------------------------ *)
(** * Authentication *)

Lemma trimStart_solid s : solid s = true -> trimStart s = s.
Proof.
  destruct s as [|c s]; [reflexivity|]. cbn [solid trimStart].
  intros H. apply andb_true_iff in H. destruct H as [H _].
  apply negb_true_iff in H. now rewrite H.
Qed.

Lemma trimEnd_solid s : solid s = true -> trimEnd s = s.
Proof.
  induction s as [|c s IH]; [reflexivity|]. cbn [solid trimEnd].
  intros H. apply andb_true_iff in H. destruct H as [Hc Hs].
  apply negb_true_iff in Hc. rewrite (IH Hs), Hc.
  now destruct s.
Qed.

Lemma trim_solid s : solid s = true -> trim s = s.
Proof.
  intros H. unfold trim. rewrite (trimStart_solid s H). now apply trimEnd_solid.
Qed.

Lemma prefix_solid p s :
  String.prefix p s = true -> solid s = true -> solid p = true.
Proof.
  revert s. induction p as [|a p IH]; intros s; [reflexivity|].
  destruct s as [|b s]; cbn [String.prefix solid]; [discriminate|].
  destruct (Ascii.ascii_dec a b) as [->|]; [|discriminate].
  intros Hp H. apply andb_true_iff in H. destruct H as [Hb Hs].
  rewrite Hb. cbn [andb]. now apply (IH s).
Qed.

Lemma replace_solid p r s :
  solid p = false -> solid s = true -> replace p r s = s.
Proof.
  intros Hp. induction s as [|c s IH]; intros Hs.
  - cbn [replace]. destruct (String.prefix p "") eqn:E; [|reflexivity].
    rewrite (prefix_solid _ _ E Hs) in Hp. discriminate.
  - cbn [replace]. destruct (String.prefix p (String c s)) eqn:E.
    + rewrite (prefix_solid _ _ E Hs) in Hp. discriminate.
    + f_equal. apply IH. cbn [solid] in Hs.
      apply andb_true_iff in Hs. tauto.
Qed.

Lemma prefix_app p s : String.prefix p (p ++ s) = true.
Proof.
  induction p as [|a p IH]; cbn [append String.prefix].
  - now destruct s.
  - destruct (Ascii.ascii_dec a a) as [_|N]; [exact IH|contradiction].
Qed.

Lemma drop_app p s : drop (String.length p) (p ++ s) = s.
Proof.
  induction p as [|a p IH]; cbn [append String.length drop]; [|exact IH].
  now destruct s.
Qed.

Lemma replace_first p r s : replace p r (p ++ s) = (r ++ s)%string.
Proof.
  assert (H : forall t, replace p r t =
                        if String.prefix p t
                        then (r ++ drop (String.length p) t)%string
                        else match t with
                             | EmptyString => t
                             | String c t' => String c (replace p r t')
                             end)
    by (intros [|c t]; reflexivity).
  now rewrite H, prefix_app, drop_app.
Qed.

(** With a non-empty token configured, a request whose [Authorization] header
    is ["Bearer "] followed by a candidate without white space is
    authenticated exactly when the candidate is the configured token.  The
    scheme is not required: the same holds when the header is the candidate
    alone. *)
Theorem authentication_by_token :
  forall (cfg : Config) (m p candidate : string) (b : option json),
    apiToken cfg <> ""%string ->
    solid candidate = true ->
    (authenticateRequest (Some cfg) (bearer m p candidate b) = true
     <-> candidate = apiToken cfg)
    /\ (authenticateRequest (Some cfg)
          {| method := m; path := p; authorization := Some candidate; body := b |}
        = true
        <-> candidate = apiToken cfg).
Proof.
  intros cfg m p candidate b Htok Hsolid.
  apply String.eqb_neq in Htok.
  unfold authenticateRequest, bearer. cbn [authorization]. rewrite Htok.
  split.
  - change (String.eqb ("Bearer " ++ candidate) "")%string with false.
    cbv iota. rewrite replace_first. cbn [append].
    rewrite (trim_solid _ Hsolid). apply String.eqb_eq.
  - destruct (String.eqb candidate "") eqn:E.
    + apply String.eqb_eq in E. subst candidate.
      apply String.eqb_neq in Htok. split; [discriminate|congruence].
    + rewrite replace_solid by (reflexivity || assumption).
      rewrite (trim_solid _ Hsolid). apply String.eqb_eq.
Qed.

Lemma authentication_by_token_witness :
  authenticateRequest (Some testConfig) (bearer "GET" "/api/state" "secret" None) = true
  /\ authenticateRequest (Some testConfig) (bearer "GET" "/api/state" "guess" None)
     <> true.
Proof.
  destruct (authentication_by_token testConfig "GET" "/api/state" "secret" None)
    as [[_ H] _]; [discriminate|reflexivity|].
  destruct (authentication_by_token testConfig "GET" "/api/state" "guess" None)
    as [[H' _] _]; [discriminate|reflexivity|].
  split; [now apply H|]. intros E. specialize (H' E). discriminate H'.
Defined.

(* ------------------------------------------------------------------ *)
(** * The control API *)

Lemma route_method request p m : route request p m = true -> method request = m.
Proof.
  unfold route. intros H. apply andb_true_iff in H. destruct H as [_ H].
  now apply String.eqb_eq in H.
Qed.

Lemma switchToSource_failed e i w :
  snd (switchToSource e i w) = false ->
  state (fst (switchToSource e i w)) = state w
  /\ disk (fst (switchToSource e i w)) = disk w.
Proof.
  unfold switchToSource.
  destruct (fetchResp e (List.length (requests w))); cbn [fst snd]; fields;
    [discriminate|auto|auto].
Qed.

(** Requests without a valid token.  Once the API is initialised, the health
    check is answered 200 to anybody; every other request whose token does
    not authenticate is answered 401, whatever its path, method and body, and
    nothing of the program's state, file, timers or requests changes and no
    re-evaluation is started.  Before initialisation every request, the
    health check included, is answered 500. *)
Theorem unauthenticated_requests_are_refused :
  forall (config : option Config) (e : Env) (sources : list Source)
         (reply : SourcesReply) (request : Request) (w : World),
    authenticateRequest config request = false ->
    handleAPIRequest config e sources reply request w =
      Some {| after := w;
              started := None;
              response :=
                match config with
                | None => respond 500 (Error "API not initialized")
                | Some _ =>
                    if route request "/api/health" "GET"
                    then respond 200 Healthy
                    else respond 401 (Error "Unauthorized")
                end |}.
Proof.
  intros config e sources reply request w Hauth.
  unfold handleAPIRequest. destruct config as [cfg|]; [|reflexivity].
  destruct (route request "/api/health" "GET"); [reflexivity|].
  now rewrite Hauth.
Qed.

Lemma unauthenticated_requests_are_refused_witness :
  handleAPIRequest (Some testConfig) fair camerasA ListingThrew
    (bearer "PUT" "/api/state" "guess" (Some (JObj [("rotationEnabled", JBool true)]%string)))
    scenarioA
  = Some {| after := scenarioA; started := None;
            response := respond 401 (Error "Unauthorized") |}.
Proof.
  apply (unauthenticated_requests_are_refused (Some testConfig)). reflexivity.
Defined.

(** Only an authenticated [PUT] changes anything: when the world at the
    answer differs from the world before the request, or a re-evaluation was
    started, the request carried a valid token and its method was PUT. *)
Theorem only_authenticated_puts_change_the_world :
  forall (config : option Config) (e : Env) (sources : list Source)
         (reply : SourcesReply) (request : Request) (w : World) (s : Served),
    handleAPIRequest config e sources reply request w = Some s ->
    after s <> w \/ started s <> None ->
    authenticateRequest config request = true /\ method request = "PUT"%string.
Proof.
  intros config e sources reply request w s H Hne.
  assert (Same : forall c p, answer w c p = Some s -> False).
  { intros c p E. injection E as <-. cbn [after started] in Hne.
    destruct Hne as [Hne|Hne]; now apply Hne. }
  unfold handleAPIRequest in H.
  destruct config as [cfg|]; [|now apply Same in H].
  destruct (route request "/api/health" "GET"); [now apply Same in H|].
  destruct (authenticateRequest (Some cfg) request); [|now apply Same in H].
  split; [reflexivity|]. cbn [negb] in H.
  destruct (route request "/api/state" "GET"); [now apply Same in H|].
  destruct (route request "/api/state" "PUT") eqn:R1;
    [now apply route_method in R1|].
  destruct (route request "/api/sources" "GET").
  { destruct (getSources reply); now apply Same in H. }
  destruct (route request "/api/source/active" "PUT") eqn:R2;
    [now apply route_method in R2|].
  destruct (route request "/api/rotation/schedule" "PUT") eqn:R3;
    [now apply route_method in R3|].
  destruct (route request "/api/rotation/cameras" "PUT") eqn:R4;
    [now apply route_method in R4|].
  now apply Same in H.
Qed.

(** A camera selection sent at the start of scenario A: it is answered while
    the re-evaluation it started waits for its first write. *)
Lemma only_authenticated_puts_change_the_world_witness :
  authenticateRequest (Some testConfig)
    (bearer "PUT" "/api/rotation/cameras" "secret"
       (Some (JObj [("cameraIds", JArr [JNum 1])]%string))) = true
  /\ option_map started
       (handleAPIRequest (Some testConfig) fair camerasA ListingThrew
          (bearer "PUT" "/api/rotation/cameras" "secret"
             (Some (JObj [("cameraIds", JArr [JNum 1])]%string))) scenarioA)
     = Some (Some AtResetSave).
Proof.
  split; [|vm_compute; reflexivity].
  destruct (handleAPIRequest (Some testConfig) fair camerasA ListingThrew
              (bearer "PUT" "/api/rotation/cameras" "secret"
                 (Some (JObj [("cameraIds", JArr [JNum 1])]%string))) scenarioA)
    as [s|] eqn:E; [|vm_compute in E; discriminate E].
  refine (proj1 (only_authenticated_puts_change_the_world (Some testConfig) fair
                   camerasA ListingThrew _ scenarioA s E _)).
  right. vm_compute in E. injection E as <-. discriminate.
Defined.

(** A response other than 200 means that nothing was changed: the state in
    memory, the state file, the notifications and the timers are what they
    were, and no re-evaluation was started.  This is for the requests
    [handleAPIRequest] is defined on, those whose body holds values of the
    declared types where it holds the members read; a body that would put a
    value of another type into the state (a schedule request without
    [schedule], say) is outside the model. *)
Theorem error_responses_change_nothing :
  forall (config : option Config) (e : Env) (sources : list Source)
         (reply : SourcesReply) (request : Request) (w : World) (s : Served),
    handleAPIRequest config e sources reply request w = Some s ->
    status (response s) <> 200 ->
    state (after s) = state w
    /\ disk (after s) = disk w
    /\ notifications (after s) = notifications w
    /\ timers (after s) = timers w
    /\ currentTimer (after s) = currentTimer w
    /\ started s = None.
Proof.
  intros config e sources reply request w s H Hst.
  assert (Same : forall c p, answer w c p = Some s ->
                             state (after s) = state w /\ disk (after s) = disk w
                             /\ notifications (after s) = notifications w
                             /\ timers (after s) = timers w
                             /\ currentTimer (after s) = currentTimer w
                             /\ started s = None).
  { intros c p E. injection E as <-. cbn [after started]. conjuncts; reflexivity. }
  assert (Ok200 : forall w1 a p,
             Some {| after := w1; started := a; response := respond 200 p |} = Some s ->
             False).
  { intros w1 a p E. injection E as <-. now apply Hst. }
  assert (Ok200' : forall w1 p, answer w1 200 p = Some s -> False).
  { intros w1 p E. exact (Ok200 w1 None p E). }
  unfold handleAPIRequest in H.
  destruct config as [cfg|]; [|now apply Same in H].
  destruct (route request "/api/health" "GET"); [now apply Ok200' in H|].
  destruct (negb (authenticateRequest (Some cfg) request)); [now apply Same in H|].
  destruct (route request "/api/state" "GET"); [now apply Ok200' in H|].
  destruct (route request "/api/state" "PUT").
  { destruct (body request) as [[| | | | |m]|];
      try (now apply Same in H);
      try (destruct (servePutState e sources noMembers w) as [w1 a];
           now apply Ok200 in H).
    destruct (configMembers m) as [b|]; [|discriminate].
    destruct (servePutState e sources b w) as [w1 a]. now apply Ok200 in H. }
  destruct (route request "/api/sources" "GET").
  { destruct (getSources reply); [now apply Ok200' in H|now apply Same in H]. }
  destruct (route request "/api/source/active" "PUT").
  { destruct (body request) as [b|]; [|now apply Same in H].
    destruct (getSources reply) as [listed|]; [|now apply Same in H].
    destruct (bodyId b) as [| |i]; [destruct listed| |];
      try (now apply Same in H).
    destruct (find _ listed); [|now apply Same in H].
    destruct (switchToSource e i w) as [w1 success] eqn:Es.
    destruct success; [now apply Ok200' in H|].
    injection H as <-. cbn [after started].
    destruct (switchToSource_failed e i w) as [H1 H2]; [now rewrite Es|].
    pose proof (switchToSource_notifications e i w) as N.
    pose proof (switchToSource_timers e i w) as T.
    pose proof (switchToSource_currentTimer e i w) as C.
    rewrite Es in H1, H2, N, T, C. cbn [fst] in H1, H2, N, T, C.
    conjuncts; auto. }
  destruct (route request "/api/rotation/schedule" "PUT").
  { destruct (body request) as [[| | | | |m]|];
      try (now apply Same in H); try discriminate.
    destruct (option_map _ _) as [[sch|]|]; try discriminate.
    destruct (servePutSchedule e sources sch w) as [w1 a]. now apply Ok200 in H. }
  destruct (route request "/api/rotation/cameras" "PUT").
  { destruct (body request) as [[| | | | |m]|];
      try (now apply Same in H); try discriminate.
    destruct (option_map _ _) as [[ids|]|]; try discriminate.
    destruct (servePutCameras e sources ids w) as [w1 a]. now apply Ok200 in H. }
  now apply Same in H.
Qed.

(** Camera 2 asked for by hand while the pipeline service is down: 500, and
    the state and the 60 s timer of the rotation are untouched. *)
Lemma error_responses_change_nothing_witness :
  let w := processRotation fair camerasA scenarioA in
  let w' := fst (switchToSource pipelineDown 2 w) in
  state w' = state w /\ timers w' = [(0%nat, 60000)].
Proof.
  cbv zeta.
  destruct (error_responses_change_nothing (Some testConfig) pipelineDown camerasA
              (Listing (Some camerasA))
              (bearer "PUT" "/api/source/active" "secret"
                 (Some (JObj [("id", JNum 2)]%string)))
              (processRotation fair camerasA scenarioA)
              {| after :=
                   fst (switchToSource pipelineDown 2
                          (processRotation fair camerasA scenarioA));
                 started := None;
                 response := respond 500 (Error "Failed to switch source") |})
    as (H1 & _ & _ & H4 & _).
  - vm_compute. reflexivity.
  - discriminate.
  - cbn [after] in H1, H4. split; [exact H1|]. rewrite H4. vm_compute. reflexivity.
Defined.

Lemma route_other request p m p' m' :
  route request p m = true ->
  (String.eqb p p' && String.eqb m m')%bool = false ->
  route request p' m' = false.
Proof.
  unfold route. intros H Hd. apply andb_true_iff in H. destruct H as [Hp Hm].
  apply String.eqb_eq in Hp, Hm. now rewrite Hp, Hm.
Qed.

(** A failed write is not reported.  An authenticated [PUT /api/state] whose
    write to the state file fails is still answered 200 with the new state:
    the state in memory is changed, the file keeps what it held, and the
    scheduler is not told (no notification, no re-evaluation started, timers
    and requests as before). *)
Theorem put_state_answers_200_when_the_write_fails :
  forall (config : option Config) (e : Env) (sources : list Source)
         (reply : SourcesReply) (request : Request) (w : World)
         (m : list (string * json)) (b : Partial.t),
    authenticateRequest config request = true ->
    route request "/api/state" "PUT" = true ->
    body request = Some (JObj m) ->
    configMembers m = Some b ->
    diskOk e (attempts w) = false ->
    exists w',
      handleAPIRequest config e sources reply request w =
        Some {| after := w'; started := None;
                response := respond 200 (State (applyBody b (state w))) |}
      /\ state w' = applyBody b (state w)
      /\ disk w' = disk w
      /\ notifications w' = notifications w
      /\ timers w' = timers w
      /\ requests w' = requests w.
Proof.
  intros config e sources reply request w m b Hauth Hroute Hbody Hm Hdisk.
  exists (set_attempts (S (attempts w)) (with_state (applyBody b) w)).
  split; [|fields; conjuncts; reflexivity].
  unfold handleAPIRequest.
  destruct config as [cfg|]; [|discriminate Hauth].
  rewrite (route_other request _ _ "/api/health" "GET" Hroute eq_refl).
  rewrite Hauth. cbn [negb].
  rewrite (route_other request _ _ "/api/state" "GET" Hroute eq_refl).
  rewrite Hroute, Hbody, Hm.
  unfold servePutState. rewrite unwritable_served by (fields; exact Hdisk).
  reflexivity.
Qed.

Lemma put_state_answers_200_when_the_write_fails_witness :
  exists w',
    handleAPIRequest (Some testConfig) diskFull camerasA ListingThrew
      (bearer "PUT" "/api/state" "secret"
         (Some (JObj [("rotationEnabled", JBool false)]%string))) oneCamera
    = Some {| after := w'; started := None;
              response :=
                respond 200 (State (set_rotationEnabled false (state oneCamera))) |}
    /\ disk w' = NoFile.
Proof.
  destruct (put_state_answers_200_when_the_write_fails (Some testConfig) diskFull
              camerasA ListingThrew
              (bearer "PUT" "/api/state" "secret"
                 (Some (JObj [("rotationEnabled", JBool false)]%string)))
              oneCamera [("rotationEnabled", JBool false)]%string disableRotation)
    as [w' (H1 & _ & H3 & _)]; try reflexivity.
  exists w'. split; [exact H1|exact H3].
Defined.

(** [PUT /api/source/active] with [{id: i}], authenticated.  If the sources
    cannot be listed the answer is 500 and if no listed source has the id it
    is 404, with no switch request sent.  Otherwise one switch request for
    [i] is sent, whether or not the source is enabled or a camera, and the
    answer is 200 or 500 by its outcome.  In no case is the configuration
    touched, a notification emitted, a re-evaluation started, the index moved
    or the pending rotation timer cancelled or re-armed. *)
Theorem manual_switch :
  forall (config : option Config) (e : Env) (sources : list Source)
         (reply : SourcesReply) (request : Request) (w : World)
         (b : json) (i : Z),
    authenticateRequest config request = true ->
    route request "/api/source/active" "PUT" = true ->
    body request = Some b ->
    bodyId b = IdIs i ->
    exists w' r,
      handleAPIRequest config e sources reply request w =
        Some {| after := w'; started := None; response := r |}
      /\ r =
           match getSources reply with
           | None => respond 500 (Error "Failed to fetch sources")
           | Some listed =>
               match find (fun s => id s =? i) listed with
               | None => respond 404 (Error "Source not found")
               | Some _ =>
                   match fetchResp e (List.length (requests w)) with
                   | Ok => respond 200 (Switched i)
                   | _ => respond 500 (Error "Failed to switch source")
                   end
               end
           end
      /\ requests w' =
           match getSources reply with
           | None => requests w
           | Some listed =>
               match find (fun s => id s =? i) listed with
               | None => requests w
               | Some _ => requests w ++ [i]
               end
           end
      /\ configuration (state w') = configuration (state w)
      /\ currentScheduleIndex (state w') = currentScheduleIndex (state w)
      /\ notifications w' = notifications w
      /\ timers w' = timers w
      /\ currentTimer w' = currentTimer w.
Proof.
  intros config e sources reply request w b i Hauth Hroute Hbody Hid.
  unfold handleAPIRequest.
  destruct config as [cfg|]; [|discriminate Hauth].
  rewrite (route_other request _ _ "/api/health" "GET" Hroute eq_refl).
  rewrite Hauth. cbn [negb].
  rewrite (route_other request _ _ "/api/state" "GET" Hroute eq_refl).
  rewrite (route_other request _ _ "/api/state" "PUT" Hroute eq_refl).
  rewrite (route_other request _ _ "/api/sources" "GET" Hroute eq_refl).
  rewrite Hroute, Hbody.
  destruct (getSources reply) as [listed|].
  2:{ exists w. eexists. split; [reflexivity|]. conjuncts; reflexivity. }
  rewrite Hid.
  destruct (find (fun s => id s =? i) listed).
  2:{ exists w. eexists. split; [reflexivity|]. conjuncts; reflexivity. }
  exists (fst (switchToSource e i w)).
  exists (match fetchResp e (List.length (requests w)) with
          | Ok => respond 200 (Switched i)
          | _ => respond 500 (Error "Failed to switch source")
          end).
  split.
  - unfold switchToSource. destruct (fetchResp e _); reflexivity.
  - conjuncts; autorewrite with world; try reflexivity.
    + apply switchToSource_configuration.
    + rewrite switchToSource_state. now destruct (fetchResp e _).
Qed.

(** Scenario A while camera 1 is shown: camera 2 is asked for by hand; the
    60 s timer of the rotation stays. *)
Lemma manual_switch_witness :
  exists w',
    handleAPIRequest (Some testConfig) fair camerasA (Listing (Some camerasA))
      (bearer "PUT" "/api/source/active" "secret" (Some (JObj [("id", JNum 2)]%string)))
      (processRotation fair camerasA scenarioA)
    = Some {| after := w'; started := None; response := respond 200 (Switched 2) |}
    /\ requests w' = [1; 2]
    /\ timers w' = [(0%nat, 60000)].
Proof.
  destruct (manual_switch (Some testConfig) fair camerasA (Listing (Some camerasA))
              (bearer "PUT" "/api/source/active" "secret"
                 (Some (JObj [("id", JNum 2)]%string)))
              (processRotation fair camerasA scenarioA)
              (JObj [("id", JNum 2)]%string) 2)
    as (w' & r & H1 & H2 & H3 & _ & _ & _ & H7 & _); try reflexivity.
  exists w'. rewrite H1, H2, H3, H7. vm_compute. auto.
Defined.

(* ------------------------------------------------------------------ *)
(** * The direction map *)

Lemma includes_In a x : includes a x = true -> In x a.
Proof.
  unfold includes. intros H. apply existsb_exists in H.
  destruct H as [y [Hy E]]. apply String.eqb_eq in E. now subst.
Qed.

Lemma mapSet_keys key value m k :
  In k (map fst (mapSet key value m)) -> k = key \/ In k (map fst m).
Proof.
  induction m as [|[k' v'] m IH]; cbn [mapSet map fst In].
  - intros [H|[]]. now left.
  - destruct (k' =? key) eqn:E; cbn [map fst In]; [tauto|].
    intros [H|H]; [tauto|]. destruct (IH H); tauto.
Qed.

Lemma mapSet_NoDup key value m :
  NoDup (map fst m) -> NoDup (map fst (mapSet key value m)).
Proof.
  induction m as [|[k' v'] m IH]; cbn [mapSet map fst]; intros H.
  - repeat constructor. intros [].
  - inversion H as [|? ? Hn Hm]; subst.
    destruct (k' =? key) eqn:E; cbn [map fst]; [now constructor|].
    constructor; [|now apply IH].
    intros Hin. apply mapSet_keys in Hin. apply Z.eqb_neq in E.
    destruct Hin; [congruence|contradiction].
Qed.

Lemma mapSet_values (P : string -> Prop) key value m :
  P value -> Forall (fun p => P (snd p)) m ->
  Forall (fun p => P (snd p)) (mapSet key value m).
Proof.
  intros Hv. induction m as [|[k' v'] m IH]; cbn [mapSet]; intros H.
  - repeat constructor. exact Hv.
  - inversion H; subst. destruct (k' =? key); constructor; auto.
Qed.

Lemma mapGet_In key m d : mapGet key m = Some d -> In (key, d) m.
Proof.
  induction m as [|[k v] m IH]; cbn [mapGet]; [discriminate|].
  destruct (k =? key) eqn:E.
  - apply Z.eqb_eq in E. intros H. injection H as <-. subst. now left.
  - intros H. right. now apply IH.
Qed.

Lemma addPair_wellFormed pair m m' :
  addPair pair m = Some m' -> wellFormedMap m -> wellFormedMap m'.
Proof.
  unfold addPair. intros H [Hv Hk].
  destruct (parseInt _) as [i|]; [|injection H as <-; now split].
  destruct (nth_error _ 1) as [d|]; [|discriminate].
  destruct (includes directions (toUpperCase d)) eqn:E;
    injection H as <-; [|now split].
  split; [|now apply mapSet_NoDup].
  apply (mapSet_values (fun d => In d directions)); [|exact Hv].
  now apply includes_In.
Qed.

Lemma addPairs_wellFormed pairs m m' :
  addPairs pairs m = Some m' -> wellFormedMap m -> wellFormedMap m'.
Proof.
  revert m. induction pairs as [|p pairs IH]; intros m; cbn [addPairs].
  - intros H. injection H as <-. auto.
  - destruct (addPair p m) as [m1|] eqn:E; [|discriminate].
    intros H Hm. apply (IH m1 H). now apply (addPair_wellFormed p m).
Qed.

Lemma parsed_direction_map_helper mapStr m :
  parseSourceDirectionMap mapStr = Some m ->
  wellFormedMap m /\ (forall i d, mapGet i m = Some d -> In d directions).
Proof.
  intros H.
  assert (W : wellFormedMap m).
  { unfold parseSourceDirectionMap in H.
    assert (W0 : wellFormedMap []) by (split; constructor).
    destruct mapStr as [s|]; [|injection H as <-; exact W0].
    destruct (String.eqb s ""); [injection H as <-; exact W0|].
    now apply (addPairs_wellFormed _ [] m H). }
  split; [exact W|]. destruct W as [Hv _].
  intros i d Hg. apply mapGet_In in Hg.
  rewrite Forall_forall in Hv. exact (Hv (i, d) Hg).
Qed.

(** Whatever SOURCE_DIRECTION_MAP holds, a map that
    [parseSourceDirectionMap] returns gives each source id one direction, and
    every direction in it is "N", "E", "W" or "S" in upper case: pairs with
    another direction or without a numeric id are left out. *)
Theorem parsed_direction_map :
  forall (mapStr : option string) (m : list (Z * string)),
    parseSourceDirectionMap mapStr = Some m ->
    (forall i d, In (i, d) m -> In d directions)
    /\ NoDup (map fst m)
    /\ (forall i d, mapGet i m = Some d -> In d directions).
Proof.
  intros mapStr m H.
  destruct (parsed_direction_map_helper mapStr m H) as [[Hv Hk] Hg].
  split; [|split; [exact Hk|exact Hg]].
  intros i d Hi. rewrite Forall_forall in Hv. exact (Hv (i, d) Hi).
Qed.

Lemma parsed_direction_map_witness :
  mapGet 2 [(1, "N"); (2, "E"); (4, "S")]%string = Some "E"%string
  /\ In "E"%string directions.
Proof.
  split; [reflexivity|].
  destruct (parsed_direction_map (Some "1:N, 2:e,3:x,4:S"%string)
              [(1, "N"); (2, "E"); (4, "S")]%string) as (_ & _ & H).
  - vm_compute. reflexivity.
  - apply (H 2). reflexivity.
Defined.






(** A configuration that [loadConfig] returned has a base URL and an API
    token that are not empty, and with it [notifyCameraAPI] posts, if it
    posts at all, one of the directions "N", "E", "W", "S"; it posts nothing
    for a source that has no direction or when no camera token is set. *)
Theorem loaded_configuration :
  forall (baseUrlArg : option string) (env : string -> option string) (cfg : Config),
    loadConfig baseUrlArg env = Configured cfg ->
    baseUrl cfg <> ""%string
    /\ apiToken cfg <> ""%string
    /\ (forall i d, notifyCameraAPI (Some cfg) i = Some d -> In d directions)
    /\ (forall i, mapGet i (sourceDirectionMap cfg) = None ->
                  notifyCameraAPI (Some cfg) i = None)
    /\ (env "CAMERA_API_TOKEN"%string = None ->
        forall i, notifyCameraAPI (Some cfg) i = None).
Proof.
  intros baseUrlArg env cfg H. unfold loadConfig in H.
  destruct (orElse baseUrlArg (env "BASE_URL"%string)) as [url|]; [|discriminate].
  destruct (String.eqb url "") eqn:Eu; [discriminate|].
  destruct (orElse (env "API_TOKEN"%string) None) as [token|] eqn:Et; [|discriminate].
  destruct (parseSourceDirectionMap _) as [m|] eqn:Em; [|discriminate].
  injection H as <-. cbn [baseUrl apiToken].
  split; [now apply String.eqb_neq|].
  split.
  { unfold orElse in Et. destruct (env "API_TOKEN"%string) as [t|]; [|discriminate].
    destruct (String.eqb t "") eqn:E; [discriminate|].
    injection Et as <-. now apply String.eqb_neq. }
  unfold notifyCameraAPI. cbn [cameraApiToken sourceDirectionMap].
  destruct (parsed_direction_map_helper _ _ Em) as [_ Hd].
  conjuncts.
  - intros i d. destruct (orElse (env "CAMERA_API_TOKEN"%string) None); [|discriminate].
    destruct (mapGet i m) as [d'|] eqn:Eg; cbn [orElse]; [|discriminate].
    destruct (String.eqb d' ""); [discriminate|].
    intros E. injection E as <-. now apply (Hd i).
  - intros i ->. now destruct (orElse (env "CAMERA_API_TOKEN"%string) None).
  - intros -> i. reflexivity.
Qed.

(** The example environment: the map "1:N, 2:e,3:x,4:S" loads, and source 2
    is announced as "E". *)
Lemma loaded_configuration_witness :
  notifyCameraAPI (loadedConfig (loadConfig None exampleEnv)) 2 = Some "E"%string
  /\ In "E"%string directions.
Proof.
  split; [vm_compute; reflexivity|].
  destruct (loadConfig None exampleEnv) as [cfg| |] eqn:E;
    [|vm_compute in E; discriminate E|vm_compute in E; discriminate E].
  destruct (loaded_configuration None exampleEnv cfg E) as (_ & _ & H & _).
  apply (H 2).
  vm_compute in E. injection E as <-. vm_compute. reflexivity.
Defined.

(* ------------------------------------------------------------------ *)
(** * One timer *)

(** From the start of scenario A: a new camera selection, the expiry of the
    timer it armed and a re-evaluation, each handled to its end, leave one
    timer pending. *)
Lemma one_timer_without_overlap_witness :
  let w := reactAll fair camerasA [Cameras [2; 1]; Expire 0; Reevaluate] scenarioA in
  oneTimer w /\ (List.length (timers w) <= 1)%nat.
Proof.
  apply (one_timer_without_overlap fair camerasA
           [Cameras [2; 1]; Expire 0; Reevaluate] scenarioA).
  vm_compute. reflexivity.
Defined.
